(** * Synthetic acoustic mixture engine: embedding and verification

    Shallow embedding of
      - scripts/generate_synthetic_noncry.py   (module [SyntheticNoncry])
      - scripts/create_synthetic_soundbank.py  (module [Soundbank])
      - scripts/standardize_noncry_dataset.py  (module [Standardize])
      - scripts/generate_non_cry_with_scaper.py, its integer draw only
        (module [Scaper])

    Conventions of the embedding.
      - A numpy array of samples is a [list R]: sample values are idealised
        as real numbers, so [astype(np.float32)] is the identity, sample
        arithmetic is exact and a buffer is always finite.  The theorems
        below therefore say nothing about the magnitude of a mixture after
        many accumulated events, where float32 can overflow.  The one NaN
        the code can produce on finite input, [np.mean] of an empty slice,
        is kept explicit ([np.mean] returns an [option]).
      - Scalar arithmetic on durations and onset times is exact, with one
        exception: the product in [int(SR * duration_s)], which fixes the
        length of every generated buffer, is rounded to the nearest double
        before it is truncated ([float_mul]).
      - Python exceptions are values of [result]; a function that can raise
        returns [result A].
      - The process-wide [np.random] state is threaded explicitly through
        every draw ([PyRand.state]).
      - Python's [int(x)] on a float truncates toward zero ([py_int]);
        slices follow Python's rules for negative and out-of-range bounds. *)

From Stdlib Require Import String Ascii Reals Lra Lia ZArith Bool List.
Import ListNotations.
Open Scope R_scope.

(* ================================================================== *)
(** * Python runtime: exceptions, [int], slices *)
(* ================================================================== *)

Inductive exn : Type :=
| ValueError (msg : string)
| RuntimeError (msg : string)
| IndexError (msg : string).

Inductive result (A : Type) : Type :=
| Ok (a : A)
| Raise (e : exn).
Arguments Ok {A} a.
Arguments Raise {A} e.

Definition rbind {A B : Type} (m : result A) (k : A -> result B) : result B :=
  match m with
  | Ok a => k a
  | Raise e => Raise e
  end.

Declare Scope py_scope.
Delimit Scope py_scope with py.
Notation "x <- m ;; k" := (rbind m (fun x => k))
  (at level 100, m at next level, right associativity) : py_scope.
Open Scope py_scope.

(** [int(x)] for a float [x]: truncation toward zero. *)
Definition py_int (x : R) : Z :=
  if Rle_dec 0 x then Int_part x else (- Int_part (- x))%Z.

(** [len(a)] as a Python integer. *)
Definition len {A : Type} (a : list A) : Z := Z.of_nat (length a).

(** Normalisation of one slice bound against a sequence of length [n]:
    a negative bound counts from the end, and every bound is clamped to
    [0, n]. *)
Definition slice_index (n i : Z) : Z :=
  if (i <? 0)%Z then Z.max 0 (i + n) else Z.min i n.

(** The half-open window of positions [lo, lo + width) that [a[start:stop]]
    denotes, as (lo, width). *)
Definition slice_window {A : Type} (a : list A) (start stop : Z) : nat * nat :=
  let lo := slice_index (len a) start in
  let hi := slice_index (len a) stop in
  (Z.to_nat lo, Z.to_nat (hi - lo)).

(** [a[start:stop]] *)
Definition slice {A : Type} (a : list A) (start stop : Z) : list A :=
  let '(lo, w) := slice_window a start stop in
  firstn w (skipn lo a).

(** Python's [round] on a float: nearest integer, ties to even. *)
Definition py_round (x : R) : Z :=
  let f := Int_part x in
  let r := x - IZR f in
  if Rlt_dec r (1/2) then f
  else if Rlt_dec (1/2) r then (f + 1)%Z
  else if Z.even f then f else (f + 1)%Z.

(** ** Double-precision rounding

    The scripts turn a floating-point product into a sample count with
    [int(...)], so there the rounding of the product decides an integer
    and is modelled: a double has 53 significant bits and an operation
    returns the double nearest to its exact result, ties to even.  The
    exponent is unbounded here: overflow to infinity (beyond about 1.8e308)
    and the subnormal range (below about 2.2e-308) are not modelled. *)

(** The binary exponent of a non-zero [x]: the [e] with
    [2^e <= |x| < 2^(e+1)]. *)
Definition binade (x : R) : Z := Int_part (ln (Rabs x) / ln 2).

(** The spacing of the doubles in the binade of [x]. *)
Definition ulp (x : R) : R := powerRZ 2 (binade x - 52).

(** The double nearest to [x], ties to even. *)
Definition round_double (x : R) : R :=
  if Req_dec_T x 0 then 0 else IZR (py_round (x / ulp x)) * ulp x.

(** [x * y] on two floats. *)
Definition float_mul (x y : R) : R := round_double (x * y).

(* ================================================================== *)
(** * The numpy operations the scripts use *)
(* ================================================================== *)

Module np.

Definition ndarray : Type := list R.

(** An operation with a scalar, [a * c] or [c + a], is a [map] over the
    samples. *)

Fixpoint zip_with (f : R -> R -> R) (a b : ndarray) : ndarray :=
  match a, b with
  | x :: a', y :: b' => f x y :: zip_with f a' b'
  | _, _ => []
  end.

(** Element-wise binary operation on two 1-D arrays with numpy
    broadcasting: equal lengths pair up, a length-1 operand is stretched,
    anything else raises. *)
Definition binop (f : R -> R -> R) (a b : ndarray) : result ndarray :=
  if Nat.eqb (length a) (length b) then Ok (zip_with f a b)
  else match a, b with
       | [x], _ => Ok (map (fun y => f x y) b)
       | _, [y] => Ok (map (fun x => f x y) a)
       | _, _ => Raise (ValueError "operands could not be broadcast together")
       end.

Definition add := binop Rplus.
Definition mul := binop Rmult.

(** [a ** 2] *)
Definition square (a : ndarray) : ndarray := map Rsqr a.

Definition sum (a : ndarray) : R := fold_right Rplus 0 a.

(** [np.mean(a)]; [None] stands for the NaN numpy returns on an empty
    array. *)
Definition mean (a : ndarray) : option R :=
  match a with
  | [] => None
  | _ => Some (sum a / INR (length a))
  end.

(** [np.max(a)]; raises on an empty array. *)
Definition max (a : ndarray) : result R :=
  match a with
  | [] => Raise (ValueError "zero-size array to reduction operation maximum which has no identity")
  | x :: a' => Ok (fold_left Rmax a' x)
  end.

Definition abs (a : ndarray) : ndarray := map Rabs a.

Definition zeros (n : nat) : ndarray := repeat 0 n.

(** [np.linspace(start, stop, num, endpoint)] *)
Definition linspace (start stop : R) (num : Z) (endpoint : bool)
  : result ndarray :=
  if (num <? 0)%Z then
    Raise (ValueError "Number of samples must be non-negative.")
  else
    let n := Z.to_nat num in
    let div := if endpoint then (n - 1)%nat else n in
    let step := (stop - start) / INR div in
    Ok (map (fun i => start + INR i * step) (seq 0 n)).

(** [np.diff(a)] *)
Fixpoint diff (a : ndarray) : ndarray :=
  match a with
  | x :: ((y :: _) as a') => (y - x) :: diff a'
  | _ => []
  end.

(** [a[start:stop] += rhs], in place.  The right-hand side must broadcast
    to the shape of the slice: same length, or length 1. *)
Definition iadd_slice (a : ndarray) (start stop : Z) (rhs : ndarray)
  : result ndarray :=
  let '(lo, w) := slice_window a start stop in
  let seg := firstn w (skipn lo a) in
  let put (seg' : ndarray) := firstn lo a ++ seg' ++ skipn (lo + w) a in
  if Nat.eqb (length rhs) (length seg) then Ok (put (zip_with Rplus seg rhs))
  else match rhs with
       | [y] => Ok (put (map (fun x => x + y) seg))
       | _ => Raise (ValueError "operands could not be broadcast together")
       end.

End np.

(* ================================================================== *)
(** * The global [np.random] stream *)
(* ================================================================== *)

(** The generator behind [np.random]: a state, the seeding function and the
    three primitive draws the scripts reach through [rand], [randn],
    [randint] and [choice]. *)
Class BitGenerator : Type := {
  rk_state : Type;
  rk_seed : Z -> rk_state;
  (** one uniform double in [0, 1) *)
  rk_double : rk_state -> R * rk_state;
  (** one standard-normal double *)
  rk_gauss : rk_state -> R * rk_state;
  (** one uniform integer in [0, max] *)
  rk_interval : Z -> rk_state -> Z * rk_state;
  rk_double_range : forall s, 0 <= fst (rk_double s) < 1;
  rk_interval_range :
    forall m s, (0 <= m)%Z -> (0 <= fst (rk_interval m s) <= m)%Z
}.

Module PyRand.
Section Draws.
Context {G : BitGenerator}.

Definition state : Type := rk_state.

(** A computation that reads and advances the global stream and may
    raise. *)
Definition M (A : Type) : Type := state -> result (A * state).

Definition ret {A : Type} (a : A) : M A := fun s => Ok (a, s).

Definition bind {A B : Type} (m : M A) (k : A -> M B) : M B :=
  fun s => match m s with
           | Ok (a, s') => k a s'
           | Raise e => Raise e
           end.

Definition lift {A : Type} (r : result A) : M A :=
  fun s => match r with Ok a => Ok (a, s) | Raise e => Raise e end.

(** [np.random.seed(n)]: replaces the state, whatever it was. *)
Definition seed (n : Z) : M unit :=
  if ((0 <=? n) && (n <? 2 ^ 32))%Z then fun _ => Ok (tt, rk_seed n)
  else lift (Raise (ValueError "Seed must be between 0 and 2**32 - 1")).

(** [np.random.rand()] *)
Definition rand : M R := fun s => Ok (rk_double s).

(** [np.random.randn(n)]: [n] normal draws, in order. *)
Fixpoint randn (n : nat) : M np.ndarray :=
  match n with
  | O => ret []
  | S n' => bind (fun s => Ok (rk_gauss s)) (fun x =>
            bind (randn n') (fun xs => ret (x :: xs)))
  end.

(** [np.random.randint(low, high)]: uniform in [low, high).  Bounds are
    taken within the 64-bit range of the drawn integers; outside it numpy
    refuses the call, which is not modelled, so the theorems that rely on
    a draw with caller-supplied bounds assume them in that range. *)
Definition randint (low high : Z) : M Z :=
  if (high <=? low)%Z then lift (Raise (ValueError "low >= high"))
  else fun s => let '(k, s') := rk_interval (high - low - 1) s in
                Ok ((low + k)%Z, s').

(** [np.random.choice(a)] for a non-empty Python list [a]. *)
Definition choice {A : Type} (a : list A) : M A :=
  match a with
  | [] => lift (Raise (ValueError "a must be non-empty"))
  | x :: _ => bind (randint 0 (len a)) (fun i => ret (nth (Z.to_nat i) a x))
  end.

End Draws.
End PyRand.

Declare Scope rand_scope.
Delimit Scope rand_scope with rand.
Notation "x <~ m ;; k" := (PyRand.bind m (fun x => k))
  (at level 100, m at next level, right associativity) : rand_scope.


(* ================================================================== *)
(** * The file-write boundary *)
(* ================================================================== *)

(** What the scripts can observe of the file system: which paths can be
    written, and the files written so far, oldest first. *)
Record world : Type := mkWorld {
  writable : string -> bool;
  files : list (string * np.ndarray)
}.

(** [sf.write(path, data, SR, subtype='PCM_16')] *)
Definition sf_write (path : string) (data : np.ndarray) (w : world)
  : result world :=
  if writable w path
  then Ok (mkWorld (writable w) (files w ++ [(path, data)]))
  else Raise (RuntimeError "Error opening file: System error.").

(** How a script run ends. *)
Inductive outcome : Type :=
| Completed
| Aborted (e : exn).

Definition digit_char (d : nat) : ascii := ascii_of_nat (48 + d).

(** Decimal digits of a natural number, most significant first; [fuel]
    bounds the number of digits. *)
Fixpoint digits_aux (fuel n : nat) (acc : string) : string :=
  match fuel with
  | O => acc
  | S fuel' =>
      let acc' := String (digit_char (n mod 10)) acc in
      if Nat.ltb n 10 then acc' else digits_aux fuel' (n / 10) acc'
  end.

Definition digits (n : nat) : string := digits_aux (S n) n EmptyString.

Fixpoint zero_pad (k : nat) (s : string) : string :=
  match k with
  | O => s
  | S k' => String "0"%char (zero_pad k' s)
  end.

(** The format spec [:05d]: sign-aware zero padding to width 5. *)
Definition fmt_05d (z : Z) : string :=
  let d := digits (Z.abs_nat z) in
  if (z <? 0)%Z
  then String "-"%char (zero_pad (4 - String.length d) d)
  else zero_pad (5 - String.length d) d.

(** The format spec [:0Nd] for any width [N]. *)
Definition fmt_zero_padded (width : nat) (z : Z) : string :=
  let d := digits (Z.abs_nat z) in
  if (z <? 0)%Z
  then String "-"%char (zero_pad (width - 1 - String.length d) d)
  else zero_pad (width - String.length d) d.

(** The format spec [:03d]. *)
Definition fmt_03d (z : Z) : string := fmt_zero_padded 3 z.

(** [Path(dir) / name], as the string handed to the writer. *)
Definition path_join (dir name : string) : string :=
  (dir ++ "/" ++ name)%string.

(** [range(n)] *)
Definition py_range (n : Z) : list Z := map Z.of_nat (seq 0 (Z.to_nat n)).

(* ================================================================== *)
(** * scripts/generate_synthetic_noncry.py *)
(* ================================================================== *)

Module SyntheticNoncry.
Section Script.
Context {G : BitGenerator}.
Import PyRand.
Local Open Scope rand_scope.

Definition SR : Z := 16000.
Definition TARGET_DUR : R := 7.0.

Definition gen_background (duration_s : R) : M np.ndarray :=
  t <~ lift (np.linspace 0 duration_s
              (py_int (float_mul (IZR SR) duration_s)) false) ;;
  u <~ rand ;;
  let hum_freq := 60 + 80 * u in
  let hum := map (fun x => 0.2 * sin (2 * PI * hum_freq * x)) t in
  v <~ rand ;;
  let mod_freq := 0.1 + 0.3 * v in
  let mod_ := map (fun x => 0.6 + 0.4 * sin (2 * PI * mod_freq * x)) t in
  g <~ randn (length t) ;;
  let noise := map (fun x => 0.03 * x) g in
  hm <~ lift (np.mul hum mod_) ;;
  lift (np.add hm noise).

Definition gen_beep (duration_s : R) : M np.ndarray :=
  t <~ lift (np.linspace 0 duration_s
              (py_int (float_mul (IZR SR) duration_s)) false) ;;
  u <~ rand ;;
  let freq := 600 + 1000 * u in
  attack_decay <~ lift (np.mul (map (fun x => Rmin 1.0 (x / 0.01)) t)
                               (map (fun x => exp (-4 * x / duration_s)) t)) ;;
  tone_env <~ lift (np.mul (map (fun x => sin (2 * PI * freq * x)) t)
                           attack_decay) ;;
  ret (map (fun x => x * 0.5) tone_env).

Definition gen_click : M np.ndarray :=
  let length_ := py_int (float_mul 0.03 (IZR SR)) in
  x <~ lift (match np.zeros (Z.to_nat length_) with
             | [] => Raise (IndexError "index 0 is out of bounds")
             | _ :: x' => Ok (1.0 :: x')
             end) ;;
  ramp <~ lift (np.linspace 0 8 length_ true) ;;
  let decay := map (fun v => exp (- v)) ramp in
  g <~ randn (Z.to_nat length_) ;;
  let noise := map (fun v => 0.2 * v) g in
  xn <~ lift (np.add x noise) ;;
  xd <~ lift (np.mul xn decay) ;;
  ret (map (fun v => v * 0.3) xd).

Definition gen_whoosh (duration_s : R) : M np.ndarray :=
  t <~ lift (np.linspace 0 duration_s
              (py_int (float_mul (IZR SR) duration_s)) false) ;;
  noise <~ randn (length t) ;;
  let hp := 0 :: np.diff noise in
  let env := map (fun x => sin (PI * x / duration_s)) t in
  he <~ lift (np.mul hp env) ;;
  ret (map (fun x => x * 0.4) he).

Definition gen_knock (duration_s : R) : M np.ndarray :=
  t <~ lift (np.linspace 0 duration_s
              (py_int (float_mul (IZR SR) duration_s)) false) ;;
  u <~ rand ;;
  let freq := 80 + 120 * u in
  let env := map (fun x => exp (-10 * x / duration_s)) t in
  se <~ lift (np.mul (map (fun x => sin (2 * PI * freq * x)) t) env) ;;
  ret (map (fun x => x * 0.6) se).

(** [start_idx = int(start_time_s * SR)] *)
Definition start_index (start_time_s : R) : Z :=
  py_int (start_time_s * IZR SR).

(** [event_len = min(start_idx + len(event), len(signal)) - start_idx] *)
Definition overlap_length (signal event : np.ndarray) (start_time_s : R) : Z :=
  let start_idx := start_index start_time_s in
  (Z.min (start_idx + len event) (len signal) - start_idx)%Z.

(** [p > 1e-10] on a power that may be NaN: every comparison with NaN is
    false. *)
Definition above_eps (p : option R) : bool :=
  match p with
  | Some v => if Rgt_dec v 1e-10 then true else false
  | None => false
  end.

(** The scale factor of lines 77-80. *)
Definition snr_scale (signal_power event_power : option R) (snr_db : R) : R :=
  if above_eps event_power && above_eps signal_power then
    match signal_power, event_power with
    | Some sp, Some ep => sqrt (sp / ep) * Rpower 10 (snr_db / 20)
    | _, _ => 1.0
    end
  else 1.0.

Definition add_event_at_time (signal event : np.ndarray)
  (start_time_s snr_db : R) : result np.ndarray :=
  let start_idx := start_index start_time_s in
  let end_idx := Z.min (start_idx + len event) (len signal) in
  let event_len := (end_idx - start_idx)%Z in
  if (event_len <=? 0)%Z then Ok signal
  else
    let signal_power := np.mean (np.square (slice signal start_idx end_idx)) in
    let event_power := np.mean (np.square (slice event 0 event_len)) in
    let scale := snr_scale signal_power event_power snr_db in
    np.iadd_slice signal start_idx end_idx
      (map (fun e => e * scale) (slice event 0 event_len)).

Definition normalize (x : np.ndarray) (max_amp : R) : result np.ndarray :=
  (peak <- np.max (np.abs x) ;;
   if Rgt_dec peak 1e-10
   then Ok (map (fun v => v / peak * max_amp) x)
   else Ok x)%py.

(** The default [max_amp=0.9]. *)
Definition default_max_amp : R := 0.9.

(** The entries of [event_funcs]. *)
Inductive event_func : Type := f_beep | f_click | f_whoosh | f_knock.

Definition event_funcs : list event_func := [f_beep; f_click; f_whoosh; f_knock].

Definition is_gen_click (f : event_func) : bool :=
  match f with f_click => true | _ => false end.

Definition call_event_func (f : event_func) (event_dur : R) : M np.ndarray :=
  match f with
  | f_beep => gen_beep event_dur
  | f_click => gen_click
  | f_whoosh => gen_whoosh event_dur
  | f_knock => gen_knock event_dur
  end.

(** Lines 106-114: draw the event type and generate the event. *)
Definition draw_event : M np.ndarray :=
  event_func <~ choice event_funcs ;;
  if is_gen_click event_func then gen_click
  else (u <~ rand ;;
        let event_dur := 0.3 + 2.0 * u in
        call_event_func event_func event_dur).

(** [max_start = duration - (len(event) / SR)] *)
Definition max_start (duration : R) (event : np.ndarray) : R :=
  duration - IZR (len event) / IZR SR.

(** Lines 116-121: place the event, or leave it out. *)
Definition place_event (duration : R) (mix event : np.ndarray)
  : M np.ndarray :=
  if Rgt_dec (max_start duration event) 0 then
    u <~ rand ;;
    let start_time := max_start duration event * u in
    v <~ rand ;;
    let snr := 5 + 15 * v in
    lift (add_event_at_time mix event start_time snr)
  else ret mix.

(** One iteration of the loop of [generate_mixture]. *)
Definition event_iteration (duration : R) (mix : np.ndarray) : M np.ndarray :=
  event <~ draw_event ;;
  place_event duration mix event.

(** [for _ in range(n_events): ...] *)
Fixpoint event_phase (n : nat) (duration : R) (mix : np.ndarray)
  : M np.ndarray :=
  match n with
  | O => ret mix
  | S n' => mix' <~ event_iteration duration mix ;;
            event_phase n' duration mix'
  end.

Definition generate_mixture (duration : R) (n_events : option Z)
  : M np.ndarray :=
  mix <~ gen_background duration ;;
  n <~ match n_events with
       | None => randint 1 5
       | Some n => ret n
       end ;;
  mix' <~ event_phase (Z.to_nat n) duration mix ;;
  lift (normalize mix' default_max_amp).

(** The parsed command line. *)
Record args : Type := mkArgs {
  output : string;
  num : Z;
  duration : R;
  start_index_arg : Z;
  min_events : Z;
  max_events : Z;
  seed_arg : Z
}.

Definition out_path (a : args) (i : Z) : string :=
  path_join (output a)
    ("noncry_" ++ fmt_05d (start_index_arg a + i) ++ ".wav")%string.

(** The body of the batch loop, lines 149-154, over the remaining
    indices. *)
Fixpoint batch_loop (a : args) (idxs : list Z) (s : state) (w : world)
  : outcome * world :=
  match idxs with
  | [] => (Completed, w)
  | i :: rest =>
      match (n_events <~ randint (min_events a) (max_events a + 1) ;;
             generate_mixture (duration a) (Some n_events)) s with
      | Raise e => (Aborted e, w)
      | Ok (audio, s') =>
          match sf_write (out_path a i) audio w with
          | Raise e => (Aborted e, w)
          | Ok w' => batch_loop a rest s' w'
          end
      end
  end.

(** [main], run from an arbitrary state [s0] of the global stream left by
    whatever ran before.  Console output is not modelled. *)
Definition main (a : args) (s0 : state) (w : world) : outcome * world :=
  match seed (seed_arg a) s0 with
  | Raise e => (Aborted e, w)
  | Ok (_, s) => batch_loop a (py_range (num a)) s w
  end.

End Script.
End SyntheticNoncry.


(* ================================================================== *)
(** * scripts/create_synthetic_soundbank.py *)
(* ================================================================== *)

Module Soundbank.
Section Script.
Context {G : BitGenerator}.
Import PyRand.
Local Open Scope rand_scope.

Definition SR : Z := 16000.

Definition normalize (x : np.ndarray) : result np.ndarray :=
  (m <- np.max (np.abs x) ;;
   if Rlt_dec m 1e-9
   then Ok x
   else Ok (map (fun v => v / m * 0.9) x))%py.

Definition gen_background (duration_s hum_freq : R) : M np.ndarray :=
  t <~ lift (np.linspace 0 duration_s
              (py_int (float_mul (IZR SR) duration_s)) false) ;;
  let hum := map (fun x => 0.3 * sin (2 * PI * hum_freq * x)) t in
  let mod_ := map (fun x => 0.5 + 0.5 * sin (2 * PI * 0.2 * x)) t in
  g <~ randn (length t) ;;
  let noise := map (fun x => 0.05 * x) g in
  hm <~ lift (np.mul hum mod_) ;;
  mixed <~ lift (np.add hm noise) ;;
  lift (normalize mixed).

Definition gen_beep (duration_s freq : R) : M np.ndarray :=
  t <~ lift (np.linspace 0 duration_s
              (py_int (float_mul (IZR SR) duration_s)) false) ;;
  env <~ lift (np.mul (map (fun x => Rmin 1.0 (x / 0.01)) t)
                      (map (fun x => exp (-3 * x / duration_s)) t)) ;;
  sig <~ lift (np.mul (map (fun x => sin (2 * PI * freq * x)) t) env) ;;
  lift (normalize sig).

Definition gen_click : M np.ndarray :=
  let length_ := py_int (float_mul 0.02 (IZR SR)) in
  x <~ lift (match np.zeros (Z.to_nat length_) with
             | [] => Raise (IndexError "index 0 is out of bounds")
             | _ :: x' => Ok (1.0 :: x')
             end) ;;
  g <~ randn (Z.to_nat length_) ;;
  let noise_tail := map (fun v => 0.3 * v) g in
  xn <~ lift (np.add x noise_tail) ;;
  lift (normalize xn).

Definition chime_freqs : list R := [523.25; 659.25; 783.99].

(** One term of the generator expression summed in [gen_chime]. *)
Definition chime_partial (duration_s : R) (t : np.ndarray) (f : R)
  : result np.ndarray :=
  np.mul (map (fun x => sin (2 * PI * f * x)) t)
         (map (fun x => exp (-3 * x / duration_s)) t).

(** The running total of Python's [sum] over arrays. *)
Fixpoint py_sum_from (acc : np.ndarray) (terms : list (result np.ndarray))
  : result np.ndarray :=
  match terms with
  | [] => Ok acc
  | r :: rest => (a <- r ;; acc' <- np.add acc a ;; py_sum_from acc' rest)%py
  end.

(** [sum(...)]: [0 + a1 + a2 + ...].  The scripts never sum an empty
    sequence. *)
Definition py_sum (terms : list (result np.ndarray)) : result np.ndarray :=
  match terms with
  | [] => Ok []
  | r :: rest => (a <- r ;; py_sum_from (map (fun x => 0 + x) a) rest)%py
  end.

Definition gen_chime (duration_s : R) : M np.ndarray :=
  t <~ lift (np.linspace 0 duration_s
              (py_int (float_mul (IZR SR) duration_s)) false) ;;
  sig <~ lift (py_sum (map (chime_partial duration_s t) chime_freqs)) ;;
  lift (normalize sig).

Definition gen_whoosh (duration_s : R) : M np.ndarray :=
  t <~ lift (np.linspace 0 duration_s
              (py_int (float_mul (IZR SR) duration_s)) false) ;;
  noise <~ randn (length t) ;;
  let hp := 0 :: np.diff noise in
  let env := map (fun x => sin (PI * x / duration_s)) t in
  he <~ lift (np.mul hp env) ;;
  lift (normalize he).

(** [write_wav(path, data)] *)
Definition write_wav (path : string) (data : np.ndarray) (w : world)
  : result world :=
  sf_write path data w.

(** Where a run of the builder stands: still running, with the random
    stream and the files as they are, or stopped by an exception. *)
Inductive progress : Type :=
| Running (s : state) (w : world)
| Stopped (e : exn) (w : world).

(** [write_wav(path, gen(...))]: the arguments of the generator are drawn,
    the buffer is generated, then written; an exception from either step
    stops the run. *)
Definition emit (path : string) (gen : M np.ndarray) (p : progress)
  : progress :=
  match p with
  | Stopped e w => Stopped e w
  | Running s w =>
      match gen s with
      | Raise e => Stopped e w
      | Ok (data, s') =>
          match write_wav path data w with
          | Raise e => Stopped e w
          | Ok w' => Running s' w'
          end
      end
  end.

Definition bg_path (root : string) (i : Z) : string :=
  path_join (path_join (path_join root "backgrounds") "ambience")
    ("bg_" ++ fmt_03d i ++ ".wav")%string.

Definition event_path (root label : string) (i : Z) : string :=
  path_join (path_join (path_join root "events") label)
    (label ++ "_" ++ fmt_03d i ++ ".wav")%string.

(** Lines 83-84, one background. *)
Definition background_step (root : string) (bg_duration : R) (p : progress)
  (i : Z) : progress :=
  emit (bg_path root i)
    (u <~ rand ;; gen_background bg_duration (80 + 40 * u)) p.

(** Lines 88-91, one variant of each event label. *)
Definition variant_step (root : string) (p : progress) (i : Z) : progress :=
  let p1 := emit (event_path root "beep" i)
              (u <~ rand ;; v <~ rand ;;
               gen_beep (0.4 + 0.2 * u) (600 + 800 * v)) p in
  let p2 := emit (event_path root "click" i) gen_click p1 in
  let p3 := emit (event_path root "chime" i)
              (u <~ rand ;; gen_chime (0.8 + 0.4 * u)) p2 in
  emit (event_path root "whoosh" i)
    (u <~ rand ;; gen_whoosh (0.5 + 0.5 * u)) p3.

(** [build_soundbank]; creating the label folders is not modelled. *)
Definition build_soundbank (root : string) (n_backgrounds : Z)
  (bg_duration : R) (n_variants : Z) (s : state) (w : world) : progress :=
  let p := fold_left (background_step root bg_duration)
             (py_range n_backgrounds) (Running s w) in
  fold_left (variant_step root) (py_range n_variants) p.

End Script.
End Soundbank.

(* ================================================================== *)
(** * scripts/standardize_noncry_dataset.py *)
(* ================================================================== *)

Module Standardize.

Definition TARGET_SR : string := "16000".
Definition TARGET_DUR : string := "7.0".

(** The collaborators of the script: the transcoder binary found by
    [find_ffmpeg], the audio files [discover] yields under a root, and what
    running a command returns (exit status and captured output) or
    raises. *)
Record env : Type := mkEnv {
  find_ffmpeg : option string;
  discover : string -> list string;
  subprocess_run : list string -> result (Z * string)
}.

(** What the run changes: the paths that exist, the conversions attempted
    (by destination, oldest first), and the lines printed. *)
Record state : Type := mkState {
  present : list string;
  attempted : list string;
  printed : list string
}.

Definition exists_ (p : string) (st : state) : bool :=
  existsb (String.eqb p) (present st).

(** [s[-k:]] on a string. *)
Definition last_chars (k : nat) (s : string) : string :=
  substring (String.length s - k) k s.

Definition exn_message (e : exn) : string :=
  match e with
  | ValueError m | RuntimeError m | IndexError m => m
  end.

(** [convert]: runs the transcoder and raises when it exits with a
    non-zero status.  On success the destination exists afterwards: a new
    path when it did not exist, the same path rewritten when it did.
    Creating the parent folder of [dst] is not modelled apart from the
    fact that the whole body may raise. *)
Definition convert (E : env) (src dst ffmpeg_bin : string) (st : state)
  : result state :=
  let filter_expr := ("apad,atrim=0:" ++ TARGET_DUR)%string in
  let cmd := [ffmpeg_bin; "-y"; "-i"; src; "-ac"; "1"; "-ar"; TARGET_SR;
              "-filter_complex"; filter_expr; "-c:a"; "pcm_s16le"; dst]%string in
  let st1 := mkState (present st) (attempted st ++ [dst]) (printed st) in
  match subprocess_run E cmd with
  | Raise e => Raise e
  | Ok (returncode, stdout) =>
      if (returncode =? 0)%Z
      then Ok (mkState (if exists_ dst st1 then present st1
                        else dst :: present st1)
                       (attempted st1) (printed st1))
      else Raise (RuntimeError (last_chars 400 stdout))
  end.

Record args : Type := mkArgs {
  input : string;
  output : string;
  prefix : string;
  overwrite : bool
}.

Definition dst_path (a : args) (idx : nat) : string :=
  path_join (output a)
    (prefix a ++ "_" ++ fmt_05d (Z.of_nat idx) ++ ".wav")%string.

(** The state in which [convert] left off when it raised: the attempt is
    on record, nothing else changed. *)
Definition after_failure (dst : string) (st : state) (line : string) : state :=
  mkState (present st) (attempted st ++ [dst]) (printed st ++ [line]).

(** Lines 66-73: the loop over [enumerate(files)], from index [idx]. *)
Fixpoint standardize_loop (E : env) (a : args) (ffmpeg_bin : string)
  (idx : nat) (fs : list string) (st : state) : outcome * state :=
  match fs with
  | [] => (Completed, st)
  | f :: rest =>
      let dst := dst_path a idx in
      if exists_ dst st && negb (overwrite a)
      then standardize_loop E a ffmpeg_bin (S idx) rest st
      else
        match convert E f dst ffmpeg_bin st with
        | Ok st' => standardize_loop E a ffmpeg_bin (S idx) rest st'
        | Raise e =>
            let line := ("[WARN] Failed " ++ f ++ ": " ++ exn_message e)%string in
            standardize_loop E a ffmpeg_bin (S idx) rest (after_failure dst st line)
        end
  end.

Definition print (line : string) (st : state) : state :=
  mkState (present st) (attempted st) (printed st ++ [line]).

Definition main (E : env) (a : args) (st : state) : outcome * state :=
  match find_ffmpeg E with
  | None =>
      (Completed,
       print "[ERROR] ffmpeg not found (system or imageio-ffmpeg). Install or add to requirements." st)
  | Some ffmpeg_bin =>
      let st1 := print ("[INFO] Using ffmpeg at " ++ ffmpeg_bin) st in
      let fs := discover E (input a) in
      match fs with
      | [] => (Completed, print ("No audio files found under " ++ input a) st1)
      | _ =>
          let '(o, st2) := standardize_loop E a ffmpeg_bin 0 fs st1 in
          match o with
          | Completed => (Completed, print ("Done. Output: " ++ output a) st2)
          | Aborted e => (Aborted e, st2)
          end
      end
  end.

End Standardize.


(* ================================================================== *)
(** * scripts/generate_non_cry_with_scaper.py *)
(* ================================================================== *)

Module Scaper.
Section Script.
Context {G : BitGenerator}.
Import PyRand.

(** [np_random_int(a, b)]: [int(np.random.randint(a, b + 1))]. *)
Definition np_random_int (a b : Z) : M Z := randint a (b + 1).

End Script.
End Scaper.

(* ================================================================== *)
(** * Vocabulary of the properties *)
(* ================================================================== *)

(** Mean-square power of a non-empty segment, [mean(x ** 2)]. *)
Definition mean_square (x : np.ndarray) : R :=
  np.sum (np.square x) / INR (length x).

(** Peak absolute amplitude: the largest [|v|] over the samples, 0 for an
    empty buffer. *)
Definition peak (x : np.ndarray) : R :=
  fold_right (fun v acc => Rmax (Rabs v) acc) 0 x.

(** The samples of [a] at positions [lo, lo + w). *)
Definition window (a : np.ndarray) (lo w : nat) : np.ndarray :=
  firstn w (skipn lo a).

(** [signal] with the buffer [c] added sample-wise from position [lo] on. *)
Definition overlay (signal : np.ndarray) (lo : nat) (c : np.ndarray)
  : np.ndarray :=
  firstn lo signal
    ++ np.zip_with Rplus (window signal lo (length c)) c
    ++ skipn (lo + length c) signal.

(** What a call added to the mixture inside a window: output minus input. *)
Definition contribution (out signal : np.ndarray) (lo w : nat) : np.ndarray :=
  np.zip_with Rminus (window out lo w) (window signal lo w).

(** The value of [scale] when [add_event_at_time] reaches line 82. *)
Definition applied_scale (signal event : np.ndarray) (start_time_s snr_db : R)
  : R :=
  let start_idx := SyntheticNoncry.start_index start_time_s in
  let event_len := SyntheticNoncry.overlap_length signal event start_time_s in
  SyntheticNoncry.snr_scale
    (np.mean (np.square (slice signal start_idx (start_idx + event_len))))
    (np.mean (np.square (slice event 0 event_len)))
    snr_db.

(** The number of samples every generator asks [linspace] for,
    [int(SR * duration_s)]: the rounded floating-point product, truncated
    toward zero. *)
Definition n_samples (duration_s : R) : nat :=
  Z.to_nat (py_int (float_mul (IZR SyntheticNoncry.SR) duration_s)).

(** The doubles nearest to 2.3 and to 0.7: what the literals [2.3] and
    [0.7] denote in the scripts. *)
Definition double_2_3 : R := IZR 5179139571476070 / IZR (2 ^ 51).
Definition double_0_7 : R := IZR 6305039478318694 / IZR (2 ^ 53).

(** The integers [np.random.randint] can draw from by default. *)
Definition int64 (z : Z) : Prop := (- 2 ^ 63 <= z < 2 ^ 63)%Z.

(** Lines 150-151: the audio of one iteration of the batch loop. *)
Definition next_audio {G : BitGenerator} (a : SyntheticNoncry.args)
  : PyRand.M np.ndarray :=
  PyRand.bind
    (PyRand.randint (SyntheticNoncry.min_events a)
       (SyntheticNoncry.max_events a + 1))
    (fun n_events =>
       SyntheticNoncry.generate_mixture (SyntheticNoncry.duration a)
         (Some n_events)).

(** The buffers the first [n] iterations of the batch loop generate from
    stream state [s], up to the first one that raises. *)
Fixpoint mixtures {G : BitGenerator} (a : SyntheticNoncry.args) (n : nat)
  (s : PyRand.state) : list np.ndarray :=
  match n with
  | O => []
  | S n' =>
      match next_audio a s with
      | Raise _ => []
      | Ok (audio, s') => audio :: mixtures a n' s'
      end
  end.

(** The sample buffers a run of the Batch Driver hands to the writer, in
    order: what the run appended to the files of the world. *)
Definition written_buffers {G : BitGenerator} (a : SyntheticNoncry.args)
  (s0 : PyRand.state) (w : world) : list np.ndarray :=
  skipn (length (files w))
    (map snd (files (snd (SyntheticNoncry.main a s0 w)))).

(** The digit a character stands for. *)
Definition digit_value (c : ascii) : nat := nat_of_ascii c - 48.

(** The number a string of decimal digits denotes. *)
Fixpoint decimal_value (s : string) : nat :=
  match s with
  | EmptyString => 0
  | String c s' => digit_value c * 10 ^ String.length s' + decimal_value s'
  end.

(** Reading a formatted index back, as Python's [int(text)] does: an
    optional minus sign, then decimal digits. *)
Definition parse_int (s : string) : Z :=
  match s with
  | EmptyString => 0%Z
  | String c s' =>
      if Ascii.eqb c "-" then (- Z.of_nat (decimal_value s'))%Z
      else Z.of_nat (decimal_value s)
  end.

(** A file as the soundbank builder writes it: a non-empty buffer with
    peak at most 0.9. *)
Definition normalised (f : string * np.ndarray) : Prop :=
  snd f <> [] /\ peak (snd f) <= 0.9.

(** The four files one variant index of the soundbank adds, in the
    order they are written. *)
Definition variant_paths (root : string) (i : Z) : list string :=
  [Soundbank.event_path root "beep" i; Soundbank.event_path root "click" i;
   Soundbank.event_path root "chime" i; Soundbank.event_path root "whoosh" i].

(** Every path the builder writes, in order. *)
Definition soundbank_paths (root : string) (n_backgrounds n_variants : Z)
  : list string :=
  map (Soundbank.bg_path root) (py_range n_backgrounds)
  ++ flat_map (variant_paths root) (py_range n_variants).

(** The warning line the standardization loop prints for a failed file. *)
Definition warning_line (f : string) (e : exn) : string :=
  ("[WARN] Failed " ++ f ++ ": " ++ Standardize.exn_message e)%string.

(** A small counter-driven generator on which the model can be run. *)
Definition counter_double (s : nat) : R :=
  match Nat.modulo s 4 with
  | 0%nat => 0
  | 1%nat => 1 / 4
  | 2%nat => 1 / 2
  | _ => 3 / 4
  end.

Lemma counter_double_range (s : nat) : 0 <= counter_double s < 1.
Proof.
  unfold counter_double.
  destruct (Nat.modulo s 4) as [|[|[|k]]]; lra.
Qed.

Lemma counter_interval_range (m : Z) (s : nat) :
  (0 <= m)%Z -> (0 <= Z.of_nat s mod (m + 1) <= m)%Z.
Proof.
  intros Hm.
  pose proof (Z.mod_pos_bound (Z.of_nat s) (m + 1)) as H.
  lia.
Qed.

Definition counter_generator : BitGenerator := {|
  rk_state := nat;
  rk_seed := Z.to_nat;
  rk_double := fun s => (counter_double s, S s);
  rk_gauss := fun s => (INR s - 1, S s);
  rk_interval := fun m s => ((Z.of_nat s mod (m + 1))%Z, S s);
  rk_double_range := counter_double_range;
  rk_interval_range := counter_interval_range
|}.

(* ================================================================== *)
(** * Python runtime lemmas *)
(* ================================================================== *)

Lemma py_int_IZR (z : Z) : py_int (IZR z) = z.
Proof.
  unfold py_int.
  destruct (Rle_dec 0 (IZR z)) as [H | H].
  - symmetry. apply Int_part_spec. lra.
  - rewrite <- opp_IZR.
    assert (E : (- z)%Z = Int_part (IZR (- z))) by (apply Int_part_spec; lra).
    rewrite <- E. lia.
Qed.

Lemma py_int_nonneg (x : R) : 0 <= x -> (0 <= py_int x)%Z.
Proof.
  intros Hx. unfold py_int.
  destruct (Rle_dec 0 x) as [_ | H]; [| contradiction].
  destruct (base_Int_part x) as [_ Hlo].
  assert (Hgt : IZR (-1) < IZR (Int_part x)) by lra.
  apply lt_IZR in Hgt. lia.
Qed.

(** For a non-negative float, [int] is the floor. *)
Lemma py_int_floor (x : R) :
  0 <= x -> IZR (py_int x) <= x < IZR (py_int x) + 1.
Proof.
  intros Hx. unfold py_int.
  destruct (Rle_dec 0 x) as [_ | H]; [| contradiction].
  destruct (base_Int_part x). lra.
Qed.

Lemma py_int_floor_unique (x : R) (z : Z) :
  0 <= x -> IZR z <= x < IZR z + 1 -> py_int x = z.
Proof.
  intros Hx Hz. unfold py_int.
  destruct (Rle_dec 0 x) as [_ | H]; [| contradiction].
  symmetry. apply Int_part_spec. lra.
Qed.

Lemma py_int_ge (x : R) (k : Z) : 0 <= x -> IZR k <= x -> (k <= py_int x)%Z.
Proof.
  intros Hx Hk.
  destruct (py_int_floor x Hx) as [_ Hhi].
  assert (Hlt : IZR k < IZR (py_int x + 1)) by (rewrite plus_IZR; lra).
  apply lt_IZR in Hlt. lia.
Qed.

(** ** Rounding to the nearest double *)

Lemma ln_2_pos : 0 < ln 2.
Proof. pose proof ln_lt_2. lra. Qed.

Lemma ulp_pos (x : R) : 0 < ulp x.
Proof. unfold ulp. apply powerRZ_lt. lra. Qed.

Lemma py_round_ge (y : R) (k : Z) : IZR k <= y -> (k <= py_round y)%Z.
Proof.
  intros H. unfold py_round.
  destruct (base_Int_part y) as [Hlo Hhi].
  assert (Hk : (k <= Int_part y)%Z).
  { apply Z.lt_succ_r. apply lt_IZR. rewrite succ_IZR. lra. }
  destruct (Rlt_dec _ _); [exact Hk|].
  destruct (Rlt_dec _ _); [lia|].
  destruct (Z.even _); lia.
Qed.

Lemma py_round_le (y : R) (k : Z) : y <= IZR k -> (py_round y <= k)%Z.
Proof.
  intros H. unfold py_round.
  destruct (base_Int_part y) as [Hlo Hhi].
  assert (Hk : (Int_part y <= k)%Z) by (apply le_IZR; lra).
  destruct (Rlt_dec _ _) as [|Hn]; [exact Hk|].
  assert (Hlt : (Int_part y < k)%Z).
  { apply lt_IZR. lra. }
  destruct (Rlt_dec _ _); [lia|].
  destruct (Z.even _); lia.
Qed.

Lemma py_round_IZR (k : Z) : py_round (IZR k) = k.
Proof.
  apply Z.le_antisymm; [apply py_round_le | apply py_round_ge]; lra.
Qed.

Lemma py_round_near (y : R) : Rabs (IZR (py_round y) - y) <= 1 / 2.
Proof.
  unfold py_round.
  destruct (base_Int_part y) as [Hlo Hhi].
  apply Rabs_le.
  destruct (Rlt_dec _ _); [lra|].
  destruct (Rlt_dec _ _); [rewrite plus_IZR; lra|].
  destruct (Z.even _); [lra | rewrite plus_IZR; lra].
Qed.

Lemma py_round_nearest (y : R) (k : Z) :
  Rabs (y - IZR k) < 1 / 2 -> py_round y = k.
Proof.
  intros H. pose proof (py_round_near y) as Hn.
  assert (Hlt : Rabs (IZR (py_round y) - IZR k) < 1).
  { unfold Rabs in *.
    destruct (Rcase_abs (y - IZR k)), (Rcase_abs (IZR (py_round y) - y)),
      (Rcase_abs (IZR (py_round y) - IZR k)); lra. }
  rewrite <- minus_IZR in Hlt.
  destruct (Z.eq_dec (py_round y) k) as [| Hne]; [assumption |].
  exfalso.
  assert (Hz : (1 <= Z.abs (py_round y - k))%Z) by lia.
  apply IZR_le in Hz. rewrite abs_IZR in Hz. lra.
Qed.

Lemma powerRZ_2_ln (e : Z) : ln (powerRZ 2 e) = IZR e * ln 2.
Proof. rewrite powerRZ_Rpower by lra. apply ln_Rpower. Qed.

Lemma binade_bounds (x : R) :
  x <> 0 -> powerRZ 2 (binade x) <= Rabs x < powerRZ 2 (binade x + 1).
Proof.
  intros Hx. pose proof ln_2_pos as H2.
  assert (Ha : 0 < Rabs x) by (apply Rabs_pos_lt; exact Hx).
  unfold binade.
  destruct (base_Int_part (ln (Rabs x) / ln 2)) as [Hlo Hhi].
  set (e := Int_part (ln (Rabs x) / ln 2)) in *.
  assert (Hl : IZR e * ln 2 <= ln (Rabs x)).
  { apply Rmult_le_compat_r with (r := ln 2) in Hlo; [|lra].
    replace (ln (Rabs x) / ln 2 * ln 2) with (ln (Rabs x)) in Hlo
      by (field; lra). exact Hlo. }
  assert (Hu : ln (Rabs x) < IZR (e + 1) * ln 2).
  { rewrite plus_IZR.
    assert (H : ln (Rabs x) / ln 2 < IZR e + 1) by lra.
    apply Rmult_lt_compat_r with (r := ln 2) in H; [|lra].
    replace (ln (Rabs x) / ln 2 * ln 2) with (ln (Rabs x)) in H
      by (field; lra). exact H. }
  rewrite <- !powerRZ_2_ln in *.
  split.
  - destruct (Rle_dec (powerRZ 2 e) (Rabs x)) as [|Hn]; [assumption|].
    exfalso. apply Rnot_le_lt in Hn.
    apply ln_increasing in Hn; [lra|exact Ha].
  - apply ln_lt_inv; [exact Ha | apply powerRZ_lt; lra | exact Hu].
Qed.

Lemma binade_unique (x : R) (e : Z) :
  powerRZ 2 e <= Rabs x < powerRZ 2 (e + 1) -> binade x = e.
Proof.
  intros [Hlo Hhi]. pose proof ln_2_pos as H2.
  assert (Hp : 0 < powerRZ 2 e) by (apply powerRZ_lt; lra).
  assert (Ha : 0 < Rabs x) by lra.
  unfold binade. symmetry. apply Int_part_spec.
  assert (Hl : IZR e * ln 2 <= ln (Rabs x)).
  { rewrite <- powerRZ_2_ln.
    destruct Hlo as [Hlo | Hlo]; [left; apply ln_increasing; assumption
                                 | right; rewrite Hlo; reflexivity]. }
  assert (Hu : ln (Rabs x) < (IZR e + 1) * ln 2).
  { rewrite <- plus_IZR, <- powerRZ_2_ln. apply ln_increasing; assumption. }
  split.
  - apply Rmult_lt_reg_r with (r := ln 2); [exact H2|].
    replace ((ln (Rabs x) / ln 2 - 1) * ln 2) with (ln (Rabs x) - ln 2)
      by (field; lra). lra.
  - apply Rmult_le_reg_r with (r := ln 2); [exact H2|].
    replace (ln (Rabs x) / ln 2 * ln 2) with (ln (Rabs x)) by (field; lra).
    exact Hl.
Qed.

Lemma ulp_binade (x : R) :
  powerRZ 2 (binade x) = IZR (2 ^ 52) * ulp x.
Proof.
  unfold ulp.
  replace (binade x) with (52 + (binade x - 52))%Z at 1 by lia.
  rewrite powerRZ_add by lra. f_equal.
  simpl. lra.
Qed.

Lemma powerRZ_2_ge_1 (e : Z) : (0 <= e)%Z -> 1 <= powerRZ 2 e.
Proof.
  intros He. rewrite powerRZ_Rpower by lra.
  rewrite <- (Rpower_O 2) by lra.
  apply Rle_Rpower; [lra|]. apply IZR_le. exact He.
Qed.

Lemma powerRZ_2_le_1 (e : Z) : (e <= 0)%Z -> powerRZ 2 e <= 1.
Proof.
  intros He. rewrite powerRZ_Rpower by lra.
  rewrite <- (Rpower_O 2) by lra.
  apply Rle_Rpower; [lra|]. apply IZR_le. exact He.
Qed.

Lemma round_double_0 : round_double 0 = 0.
Proof. unfold round_double. destruct (Req_dec_T 0 0); [reflexivity | contradiction]. Qed.

Lemma round_double_nonneg (x : R) : 0 <= x -> 0 <= round_double x.
Proof.
  intros Hx. unfold round_double. destruct (Req_dec_T x 0); [lra|].
  pose proof (ulp_pos x) as Hu.
  apply Rmult_le_pos; [|lra].
  apply IZR_le. apply py_round_ge.
  apply Rmult_le_pos; [exact Hx|]. left. apply Rinv_0_lt_compat. exact Hu.
Qed.

Lemma round_double_ge_1 (x : R) : 1 <= x -> 1 <= round_double x.
Proof.
  intros Hx. unfold round_double. destruct (Req_dec_T x 0) as [|Hn]; [lra|].
  pose proof (ulp_pos x) as Hu.
  destruct (binade_bounds x Hn) as [Hlo Hhi].
  rewrite Rabs_pos_eq in Hlo, Hhi by lra.
  assert (He : (0 <= binade x)%Z).
  { destruct (Z.le_gt_cases 0 (binade x)) as [|Hlt]; [assumption|].
    pose proof (powerRZ_2_le_1 (binade x + 1) ltac:(lia)). lra. }
  pose proof (powerRZ_2_ge_1 _ He) as H1.
  rewrite ulp_binade in Hlo, H1.
  assert (Hk : (2 ^ 52 <= py_round (x / ulp x))%Z).
  { apply py_round_ge. apply Rmult_le_reg_r with (r := ulp x); [exact Hu|].
    replace (x / ulp x * ulp x) with x by (field; lra). exact Hlo. }
  apply IZR_le in Hk.
  apply Rmult_le_compat_r with (r := ulp x) in Hk; lra.
Qed.

Lemma round_double_le_m1 (x : R) : x <= -1 -> round_double x <= -1.
Proof.
  intros Hx. unfold round_double. destruct (Req_dec_T x 0) as [|Hn]; [lra|].
  pose proof (ulp_pos x) as Hu.
  destruct (binade_bounds x Hn) as [Hlo Hhi].
  rewrite Rabs_left in Hlo, Hhi by lra.
  assert (He : (0 <= binade x)%Z).
  { destruct (Z.le_gt_cases 0 (binade x)) as [|Hlt]; [assumption|].
    pose proof (powerRZ_2_le_1 (binade x + 1) ltac:(lia)). lra. }
  pose proof (powerRZ_2_ge_1 _ He) as H1.
  rewrite ulp_binade in Hlo, H1.
  assert (Hk : (py_round (x / ulp x) <= - 2 ^ 52)%Z).
  { apply py_round_le. apply Rmult_le_reg_r with (r := ulp x); [exact Hu|].
    replace (x / ulp x * ulp x) with x by (field; lra).
    rewrite opp_IZR. lra. }
  apply IZR_le in Hk. rewrite opp_IZR in Hk.
  apply Rmult_le_compat_r with (r := ulp x) in Hk; lra.
Qed.

(** A value with at most 53 significant bits is its own rounding. *)
Lemma round_double_exact (x : R) (m e : Z) :
  x = IZR m * powerRZ 2 (e - 52) ->
  powerRZ 2 e <= Rabs x < powerRZ 2 (e + 1) ->
  round_double x = x.
Proof.
  intros Hm Hb.
  assert (Hp : 0 < powerRZ 2 e) by (apply powerRZ_lt; lra).
  assert (Hn : x <> 0).
  { intros ->. rewrite Rabs_R0 in Hb. lra. }
  unfold round_double. destruct (Req_dec_T x 0); [contradiction|].
  unfold ulp. rewrite (binade_unique x e Hb).
  assert (Hq : 0 < powerRZ 2 (e - 52)) by (apply powerRZ_lt; lra).
  replace (x / powerRZ 2 (e - 52)) with (IZR m) by (rewrite Hm; field; lra).
  rewrite py_round_IZR. symmetry. exact Hm.
Qed.

(** One rounding moves a value by at most half a unit in the last place:
    a relative error of at most [2^-53]. *)
Lemma round_double_error (x : R) :
  Rabs (round_double x - x) <= Rabs x / IZR (2 ^ 53).
Proof.
  unfold round_double. destruct (Req_dec_T x 0) as [->|Hn].
  - rewrite Rminus_diag, Rabs_R0. simpl. lra.
  - pose proof (ulp_pos x) as Hu.
    destruct (binade_bounds x Hn) as [Hlo _]. rewrite ulp_binade in Hlo.
    pose proof (py_round_near (x / ulp x)) as Hr.
    replace (IZR (py_round (x / ulp x)) * ulp x - x)
      with ((IZR (py_round (x / ulp x)) - x / ulp x) * ulp x)
      by (field; lra).
    rewrite Rabs_mult, (Rabs_pos_eq (ulp x)) by lra.
    apply Rmult_le_compat_r with (r := ulp x) in Hr; [|lra].
    simpl in *. lra.
Qed.

Lemma powerRZ_2_nonneg (n : Z) : (0 <= n)%Z -> powerRZ 2 n = IZR (2 ^ n).
Proof.
  intros Hn. rewrite <- (Z2Nat.id n Hn) at 1.
  rewrite <- pow_powerRZ.
  rewrite <- (Z2Nat.id n Hn) at 2. rewrite <- pow_IZR. reflexivity.
Qed.

Lemma binade_lt (x : R) (n : Z) :
  x <> 0 -> Rabs x < powerRZ 2 n -> (binade x < n)%Z.
Proof.
  intros Hx Hlt. destruct (binade_bounds x Hx) as [Hlo _].
  destruct (Z.lt_ge_cases (binade x) n) as [|Hge]; [assumption|].
  exfalso.
  assert (powerRZ 2 n <= powerRZ 2 (binade x)); [|lra].
  rewrite !powerRZ_Rpower by lra. apply Rle_Rpower; [lra|].
  apply IZR_le. exact Hge.
Qed.

(** Rounding never crosses an integer below [2^53]: such an integer is a
    double. *)
Lemma round_double_ge_int (x : R) (k : Z) :
  (0 < k < 2 ^ 53)%Z -> IZR k <= x -> IZR k <= round_double x.
Proof.
  intros Hk Hx.
  assert (Hk1 : 1 <= IZR k) by (apply IZR_le; lia).
  unfold round_double. destruct (Req_dec_T x 0) as [|Hn]; [lra|].
  pose proof (ulp_pos x) as Hu.
  destruct (binade_bounds x Hn) as [Hlo Hhi].
  rewrite Rabs_pos_eq in Hlo, Hhi by lra.
  destruct (Z.le_gt_cases (binade x) 52) as [He | He].
  - assert (Hq : / ulp x = IZR (2 ^ (52 - binade x))).
    { unfold ulp. rewrite <- powerRZ_neg'.
      replace (- (binade x - 52))%Z with (52 - binade x)%Z by lia.
      apply powerRZ_2_nonneg. lia. }
    assert (Hr : (k * 2 ^ (52 - binade x) <= py_round (x / ulp x))%Z).
    { apply py_round_ge. rewrite mult_IZR, <- Hq. unfold Rdiv.
      apply Rmult_le_compat_r; [|exact Hx].
      left. apply Rinv_0_lt_compat. exact Hu. }
    apply IZR_le in Hr. rewrite mult_IZR, <- Hq in Hr.
    apply Rmult_le_compat_r with (r := ulp x) in Hr; [|lra].
    replace (IZR k * / ulp x * ulp x) with (IZR k) in Hr by (field; lra).
    exact Hr.
  - assert (H53 : IZR (2 ^ 53) <= powerRZ 2 (binade x)).
    { rewrite <- powerRZ_2_nonneg by lia.
      rewrite !powerRZ_Rpower by lra. apply Rle_Rpower; [lra|].
      apply IZR_le. lia. }
    rewrite ulp_binade in H53.
    assert (Hr : (2 ^ 52 <= py_round (x / ulp x))%Z).
    { apply py_round_ge. apply Rmult_le_reg_r with (r := ulp x); [exact Hu|].
      replace (x / ulp x * ulp x) with x by (field; lra).
      rewrite <- ulp_binade. exact Hlo. }
    apply IZR_le in Hr.
    apply Rmult_le_compat_r with (r := ulp x) in Hr; [|lra].
    assert (IZR k <= IZR (2 ^ 53)) by (apply IZR_le; lia).
    lra.
Qed.

Lemma round_double_le_int (x : R) (k : Z) :
  (0 < k < 2 ^ 53)%Z -> 0 <= x <= IZR k -> round_double x <= IZR k.
Proof.
  intros Hk [H0 Hx].
  assert (Hk1 : 1 <= IZR k) by (apply IZR_le; lia).
  unfold round_double. destruct (Req_dec_T x 0) as [|Hn]; [lra|].
  pose proof (ulp_pos x) as Hu.
  assert (He : (binade x < 53)%Z).
  { apply binade_lt; [exact Hn|]. rewrite Rabs_pos_eq by lra.
    rewrite powerRZ_2_nonneg by lia.
    assert (IZR k < IZR (2 ^ 53)) by (apply IZR_lt; lia). lra. }
  assert (Hq : / ulp x = IZR (2 ^ (52 - binade x))).
  { unfold ulp. rewrite <- powerRZ_neg'.
    replace (- (binade x - 52))%Z with (52 - binade x)%Z by lia.
    apply powerRZ_2_nonneg. lia. }
  assert (Hr : (py_round (x / ulp x) <= k * 2 ^ (52 - binade x))%Z).
  { apply py_round_le. rewrite mult_IZR, <- Hq. unfold Rdiv.
    apply Rmult_le_compat_r; [|exact Hx].
    left. apply Rinv_0_lt_compat. exact Hu. }
  apply IZR_le in Hr. rewrite mult_IZR, <- Hq in Hr.
  apply Rmult_le_compat_r with (r := ulp x) in Hr; [|lra].
  replace (IZR k * / ulp x * ulp x) with (IZR k) in Hr by (field; lra).
  exact Hr.
Qed.

(** A product of magnitude safely below one rounds to magnitude below
    one. *)
Lemma round_double_small (x : R) :
  Rabs x <= 1 - / IZR (2 ^ 53) -> -1 < round_double x < 1.
Proof.
  intros Hx. pose proof (round_double_error x) as He.
  assert (H53 : 0 < / IZR (2 ^ 53)).
  { apply Rinv_0_lt_compat. apply IZR_lt. reflexivity. }
  assert (Hb : Rabs x / IZR (2 ^ 53) < / IZR (2 ^ 53)).
  { unfold Rdiv. rewrite <- (Rmult_1_l (/ IZR (2 ^ 53))) at 2.
    apply Rmult_lt_compat_r; [exact H53 | lra]. }
  unfold Rabs in *.
  destruct (Rcase_abs (round_double x - x)), (Rcase_abs x); lra.
Qed.

Lemma float_mul_nonneg (x y : R) : 0 <= x * y -> 0 <= float_mul x y.
Proof. apply round_double_nonneg. Qed.

(* ================================================================== *)
(** * numpy lemmas *)
(* ================================================================== *)

Lemma zip_with_length (f : R -> R -> R) (a b : np.ndarray) :
  length (np.zip_with f a b) = Nat.min (length a) (length b).
Proof.
  revert b. induction a as [| x a IH]; intros [| y b]; simpl; auto.
Qed.

Lemma binop_same_length (f : R -> R -> R) (a b : np.ndarray) :
  length a = length b -> np.binop f a b = Ok (np.zip_with f a b).
Proof.
  intros E. unfold np.binop. rewrite E, Nat.eqb_refl. reflexivity.
Qed.

Lemma window_length (a : np.ndarray) (lo w : nat) :
  (lo + w <= length a)%nat -> length (window a lo w) = w.
Proof.
  intros H. unfold window.
  rewrite length_firstn, length_skipn. lia.
Qed.

Lemma slice_window_inside {A : Type} (a : list A) (start stop : Z) :
  (0 <= start <= stop)%Z -> (stop <= len a)%Z ->
  slice_window a start stop = (Z.to_nat start, Z.to_nat (stop - start)).
Proof.
  intros Hs He. unfold slice_window, slice_index.
  destruct (Z.ltb_spec start 0); [lia |].
  destruct (Z.ltb_spec stop 0); [lia |].
  rewrite !Z.min_l by lia. reflexivity.
Qed.

Lemma slice_inside (a : np.ndarray) (start stop : Z) :
  (0 <= start <= stop)%Z -> (stop <= len a)%Z ->
  slice a start stop = window a (Z.to_nat start) (Z.to_nat (stop - start)).
Proof.
  intros Hs He. unfold slice.
  rewrite slice_window_inside by assumption. reflexivity.
Qed.

Lemma slice_prefix (a : np.ndarray) (stop : Z) :
  (0 <= stop <= len a)%Z -> slice a 0 stop = firstn (Z.to_nat stop) a.
Proof.
  intros H. rewrite slice_inside by lia.
  unfold window. rewrite Z.sub_0_r. reflexivity.
Qed.

Lemma iadd_slice_inside (a rhs : np.ndarray) (start stop : Z) :
  (0 <= start <= stop)%Z -> (stop <= len a)%Z ->
  length rhs = Z.to_nat (stop - start) ->
  np.iadd_slice a start stop rhs = Ok (overlay a (Z.to_nat start) rhs).
Proof.
  intros Hs He Hr. unfold np.iadd_slice.
  rewrite slice_window_inside by assumption.
  assert (Hw : length (window a (Z.to_nat start) (Z.to_nat (stop - start)))
               = Z.to_nat (stop - start)).
  { apply window_length. unfold len in He. lia. }
  unfold window in Hw. rewrite Hw, Hr, Nat.eqb_refl.
  unfold overlay, window. rewrite Hr. reflexivity.
Qed.

(** The three parts of an overlay: before, inside and after the window. *)
Lemma overlay_length (signal c : np.ndarray) (lo : nat) :
  (lo + length c <= length signal)%nat ->
  length (overlay signal lo c) = length signal.
Proof.
  intros H. unfold overlay.
  rewrite !length_app, zip_with_length, length_firstn, length_skipn.
  rewrite window_length by assumption. lia.
Qed.

Lemma overlay_before (signal c : np.ndarray) (lo i : nat) :
  (lo + length c <= length signal)%nat -> (i < lo)%nat ->
  nth_error (overlay signal lo c) i = nth_error signal i.
Proof.
  intros H Hi. unfold overlay.
  rewrite nth_error_app1 by (rewrite length_firstn; lia).
  rewrite nth_error_firstn.
  destruct (Nat.ltb_spec i lo); [reflexivity | lia].
Qed.

Lemma overlay_after (signal c : np.ndarray) (lo i : nat) :
  (lo + length c <= length signal)%nat -> (lo + length c <= i)%nat ->
  nth_error (overlay signal lo c) i = nth_error signal i.
Proof.
  intros H Hi. unfold overlay.
  rewrite nth_error_app2 by (rewrite length_firstn; lia).
  rewrite length_firstn, Nat.min_l by lia.
  rewrite nth_error_app2
    by (rewrite zip_with_length, window_length by assumption; lia).
  rewrite zip_with_length, window_length, Nat.min_id by assumption.
  rewrite nth_error_skipn. f_equal. lia.
Qed.

Lemma zip_with_nth (f : R -> R -> R) (a b : np.ndarray) (i : nat) (x y : R) :
  nth_error a i = Some x -> nth_error b i = Some y ->
  nth_error (np.zip_with f a b) i = Some (f x y).
Proof.
  revert b i. induction a as [| x0 a IH]; intros [| y0 b] [| i]; simpl;
    try discriminate.
  - intros [= ->] [= ->]. reflexivity.
  - apply IH.
Qed.

Lemma overlay_inside (signal c : np.ndarray) (lo i : nat) (x y : R) :
  (lo + length c <= length signal)%nat ->
  nth_error signal (lo + i) = Some x -> nth_error c i = Some y ->
  nth_error (overlay signal lo c) (lo + i) = Some (x + y).
Proof.
  intros H Hx Hy. unfold overlay.
  assert (Hi : (i < length c)%nat) by (apply nth_error_Some; congruence).
  rewrite nth_error_app2 by (rewrite length_firstn; lia).
  rewrite length_firstn, Nat.min_l by lia.
  replace (lo + i - lo)%nat with i by lia.
  rewrite nth_error_app1
    by (rewrite zip_with_length, window_length by assumption; lia).
  apply zip_with_nth; [| assumption].
  unfold window. rewrite nth_error_firstn.
  destruct (Nat.ltb_spec i (length c)); [| lia].
  rewrite nth_error_skipn. assumption.
Qed.

Lemma zip_minus_plus (a c : np.ndarray) :
  length a = length c ->
  np.zip_with Rminus (np.zip_with Rplus a c) a = c.
Proof.
  revert c. induction a as [| x a IH]; intros [| y c]; simpl;
    try discriminate; auto.
  intros [= E]. rewrite IH by assumption. f_equal. lra.
Qed.

Lemma overlay_window (signal c : np.ndarray) (lo : nat) :
  (lo + length c <= length signal)%nat ->
  window (overlay signal lo c) lo (length c)
  = np.zip_with Rplus (window signal lo (length c)) c.
Proof.
  intros H. unfold overlay.
  set (mid := np.zip_with Rplus (window signal lo (length c)) c).
  assert (Hmid : length mid = length c).
  { unfold mid. rewrite zip_with_length, window_length by assumption. lia. }
  unfold window at 1.
  rewrite skipn_app, length_firstn, Nat.min_l by lia.
  rewrite skipn_all2 by (rewrite length_firstn; lia).
  replace (lo - lo)%nat with 0%nat by lia. simpl.
  rewrite firstn_app, <- Hmid, firstn_all. 
  replace (length mid - length mid)%nat with 0%nat by lia.
  rewrite firstn_O, app_nil_r. reflexivity.
Qed.

Lemma overlay_contribution (signal c : np.ndarray) (lo : nat) :
  (lo + length c <= length signal)%nat ->
  contribution (overlay signal lo c) signal lo (length c) = c.
Proof.
  intros H. unfold contribution.
  rewrite overlay_window by assumption.
  apply zip_minus_plus. apply window_length. assumption.
Qed.

(* ================================================================== *)
(** * The Event Compositor, [add_event_at_time] *)
(* ================================================================== *)

Import SyntheticNoncry.

Lemma start_index_of_samples (k : Z) : start_index (IZR k / IZR SR) = k.
Proof.
  unfold start_index.
  replace (IZR k / IZR SR * IZR SR) with (IZR k)
    by (unfold SR; field).
  apply py_int_IZR.
Qed.

Lemma overlap_length_bound (signal event : np.ndarray) (t : R) :
  (overlap_length signal event t <= len event)%Z.
Proof. unfold overlap_length. lia. Qed.

(** The early return of line 70. *)
Lemma add_event_at_time_skip (signal event : np.ndarray) (t snr : R) :
  (overlap_length signal event t <= 0)%Z ->
  add_event_at_time signal event t snr = Ok signal.
Proof.
  intros H. unfold add_event_at_time. fold (overlap_length signal event t).
  destruct (Z.leb_spec (overlap_length signal event t) 0); [reflexivity | lia].
Qed.

(** Past the early return, with a non-negative onset index, the call adds
    the leading [overlap_length] samples of the event, scaled, onto the
    window that starts at the onset index. *)
Lemma add_event_at_time_overlay (signal event : np.ndarray) (t snr : R) :
  (0 <= start_index t)%Z ->
  (0 < overlap_length signal event t)%Z ->
  add_event_at_time signal event t snr
  = Ok (overlay signal (Z.to_nat (start_index t))
          (map (fun e => e * applied_scale signal event t snr)
               (firstn (Z.to_nat (overlap_length signal event t)) event))).
Proof.
  intros Hs Hw.
  pose proof (overlap_length_bound signal event t) as Hb.
  unfold add_event_at_time. fold (overlap_length signal event t).
  destruct (Z.leb_spec (overlap_length signal event t) 0); [lia |].
  unfold applied_scale.
  set (w := overlap_length signal event t) in *.
  set (s := start_index t) in *.
  assert (Hend : Z.min (s + len event) (len signal) = (s + w)%Z).
  { unfold w, overlap_length. fold s. lia. }
  rewrite Hend.
  assert (Hfit : (s + w <= len signal)%Z).
  { rewrite <- Hend. lia. }
  rewrite (slice_prefix event w) by lia.
  rewrite iadd_slice_inside; try lia.
  - reflexivity.
  - rewrite length_map, length_firstn.
    unfold len in Hb. replace (s + w - s)%Z with w by lia. lia.
Qed.

Lemma overlay_fits (signal event : np.ndarray) (t : R) (g : R) :
  (0 <= start_index t)%Z ->
  (0 < overlap_length signal event t)%Z ->
  (Z.to_nat (start_index t)
   + length (map (fun e : R => (e * g)%R)
               (firstn (Z.to_nat (overlap_length signal event t)) event))
   <= length signal)%nat.
Proof.
  intros Hs Hw.
  pose proof (overlap_length_bound signal event t) as Hb.
  rewrite length_map, length_firstn.
  unfold overlap_length, len in *. lia.
Qed.

(** C7. A call of [add_event_at_time] with a non-negative onset index (the
    Compositor's input constraint) returns the mixture buffer with its
    length unchanged, and every sample at a position outside the overlap
    window [onset_index, onset_index + overlap_length) is exactly the
    sample that was there before the call. *)
Theorem add_event_at_time_frame (signal event : np.ndarray) (t snr : R) :
  (0 <= start_index t)%Z ->
  exists out,
    add_event_at_time signal event t snr = Ok out
    /\ length out = length signal
    /\ forall i : nat,
         ((Z.of_nat i < start_index t)%Z
          \/ (start_index t + Z.max 0 (overlap_length signal event t)
              <= Z.of_nat i)%Z) ->
         nth_error out i = nth_error signal i.
Proof.
  intros Hs.
  destruct (Z.leb_spec (overlap_length signal event t) 0) as [Hle | Hgt].
  - exists signal. rewrite add_event_at_time_skip by assumption. auto.
  - eexists. split; [apply add_event_at_time_overlay; assumption |].
    pose proof (overlay_fits signal event t
                  (applied_scale signal event t snr) Hs Hgt) as Hfit.
    split; [apply overlay_length; assumption |].
    intros i [Hi | Hi].
    + apply overlay_before; [assumption | lia].
    + apply overlay_after; [assumption |].
      rewrite length_map, length_firstn in *.
      pose proof (overlap_length_bound signal event t).
      unfold len in *. lia.
Qed.

Lemma add_event_at_time_frame_witness :
  exists out,
    add_event_at_time [1; 2; 3] [4] (IZR 1 / IZR SR) 10 = Ok out
    /\ length out = 3%nat
    /\ nth_error out 0 = Some 1 /\ nth_error out 2 = Some 3.
Proof.
  destruct (add_event_at_time_frame [1; 2; 3] [4] (IZR 1 / IZR SR) 10)
    as [out [E [L F]]].
  - rewrite start_index_of_samples. lia.
  - exists out. repeat split; try assumption.
    + rewrite F; [reflexivity |].
      left. rewrite start_index_of_samples. simpl. lia.
    + rewrite F; [reflexivity |].
      right. unfold overlap_length. rewrite start_index_of_samples.
      simpl. lia.
Defined.

(** C10. With an onset index at or beyond the end of the mixture buffer,
    [add_event_at_time] raises nothing and returns the mixture buffer with
    every sample unchanged. *)
Theorem add_event_at_time_past_end (signal event : np.ndarray) (t snr : R) :
  (len signal <= start_index t)%Z ->
  add_event_at_time signal event t snr = Ok signal.
Proof.
  intros H. apply add_event_at_time_skip.
  unfold overlap_length. lia.
Qed.

Lemma add_event_at_time_past_end_witness :
  add_event_at_time [1; 2] [3; 4] (IZR 2 / IZR SR) 10 = Ok [1; 2].
Proof.
  apply add_event_at_time_past_end.
  rewrite start_index_of_samples. unfold len. simpl. lia.
Defined.

(* ================================================================== *)
(** * Power and gain *)
(* ================================================================== *)

Lemma mean_of_square (x : np.ndarray) :
  x <> [] -> np.mean (np.square x) = Some (mean_square x).
Proof.
  intros H. unfold mean_square, np.mean.
  destruct x as [| v x]; [contradiction |].
  unfold np.square at 1. simpl map.
  unfold np.square. rewrite length_map. reflexivity.
Qed.

Lemma above_eps_true (v : R) : v > 1e-10 -> above_eps (Some v) = true.
Proof.
  intros H. unfold above_eps. destruct (Rgt_dec v 1e-10); [reflexivity | lra].
Qed.

Lemma above_eps_false (v : R) : v <= 1e-10 -> above_eps (Some v) = false.
Proof.
  intros H. unfold above_eps. destruct (Rgt_dec v 1e-10); [lra | reflexivity].
Qed.

(** The two power estimates of lines 74-75, for a call that reaches them
    with a non-negative onset index. *)
Lemma applied_scale_powers (signal event : np.ndarray) (t snr : R) :
  (0 <= start_index t)%Z ->
  (0 < overlap_length signal event t)%Z ->
  applied_scale signal event t snr
  = snr_scale
      (Some (mean_square (window signal (Z.to_nat (start_index t))
                            (Z.to_nat (overlap_length signal event t)))))
      (Some (mean_square
               (firstn (Z.to_nat (overlap_length signal event t)) event)))
      snr.
Proof.
  intros Hs Hw.
  pose proof (overlap_length_bound signal event t) as Hb.
  unfold applied_scale.
  set (w := overlap_length signal event t) in *.
  set (s := start_index t) in *.
  assert (Hfit : (s + w <= len signal)%Z).
  { unfold w, overlap_length. fold s. lia. }
  rewrite (slice_prefix event w) by lia.
  rewrite slice_inside by lia.
  replace (s + w - s)%Z with w by lia.
  rewrite !mean_of_square; [reflexivity | |].
  - intros E. apply (f_equal (@length R)) in E.
    rewrite length_firstn in E. unfold len in Hb. simpl in E. lia.
  - intros E. apply (f_equal (@length R)) in E.
    rewrite window_length in E by (unfold len in Hfit; lia).
    simpl in E. lia.
Qed.

Lemma applied_scale_above (signal event : np.ndarray) (t snr : R) :
  (0 <= start_index t)%Z ->
  (0 < overlap_length signal event t)%Z ->
  let lo := Z.to_nat (start_index t) in
  let w := Z.to_nat (overlap_length signal event t) in
  mean_square (window signal lo w) > 1e-10 ->
  mean_square (firstn w event) > 1e-10 ->
  applied_scale signal event t snr
  = sqrt (mean_square (window signal lo w) / mean_square (firstn w event))
    * Rpower 10 (snr / 20).
Proof.
  intros Hs Hw lo w Hb He.
  rewrite applied_scale_powers by assumption.
  fold lo w. unfold snr_scale.
  rewrite !above_eps_true by assumption. reflexivity.
Qed.

Lemma applied_scale_degenerate (signal event : np.ndarray) (t snr : R) :
  (0 <= start_index t)%Z ->
  (0 < overlap_length signal event t)%Z ->
  let lo := Z.to_nat (start_index t) in
  let w := Z.to_nat (overlap_length signal event t) in
  mean_square (window signal lo w) <= 1e-10
  \/ mean_square (firstn w event) <= 1e-10 ->
  applied_scale signal event t snr = 1.
Proof.
  intros Hs Hw lo w H.
  rewrite applied_scale_powers by assumption.
  fold lo w. unfold snr_scale.
  destruct H as [Hb | He].
  - rewrite (above_eps_false (mean_square (window signal lo w)))
      by assumption.
    rewrite andb_false_r. lra.
  - rewrite (above_eps_false (mean_square (firstn w event))) by assumption.
    simpl. lra.
Qed.

(** C2. For a call that reaches the gain computation (non-negative onset
    index, non-empty overlap), the event samples are added after
    multiplication by one gain; that gain is
    sqrt(background_power / event_power) * 10^(snr_db / 20) when both
    mean-square powers over the overlap exceed 1e-10, and exactly 1 when
    either is at or below 1e-10. *)
Theorem add_event_at_time_gain (signal event : np.ndarray) (t snr : R) :
  (0 <= start_index t)%Z ->
  (0 < overlap_length signal event t)%Z ->
  let lo := Z.to_nat (start_index t) in
  let w := Z.to_nat (overlap_length signal event t) in
  let background_power := mean_square (window signal lo w) in
  let event_power := mean_square (firstn w event) in
  let gain := applied_scale signal event t snr in
  add_event_at_time signal event t snr
  = Ok (overlay signal lo (map (fun e => e * gain) (firstn w event)))
  /\ (background_power > 1e-10 -> event_power > 1e-10 ->
      gain = sqrt (background_power / event_power) * Rpower 10 (snr / 20))
  /\ (background_power <= 1e-10 \/ event_power <= 1e-10 -> gain = 1).
Proof.
  intros Hs Hw lo w bp ep gain.
  split; [apply add_event_at_time_overlay; assumption |].
  split.
  - intros Hb He. apply applied_scale_above; assumption.
  - intros H. apply applied_scale_degenerate; assumption.
Qed.

Lemma add_event_at_time_gain_witness :
  add_event_at_time [0; 0] [1] (IZR 1 / IZR SR) 10
  = Ok (overlay [0; 0] 1
          (map (fun e => e * applied_scale [0; 0] [1] (IZR 1 / IZR SR) 10)
               [1])).
Proof.
  assert (Hs : (0 <= start_index (IZR 1 / IZR SR))%Z)
    by (rewrite start_index_of_samples; lia).
  assert (Hw : Z.lt 0 (overlap_length [0; 0] [1] (IZR 1 / IZR SR)))
    by (unfold overlap_length, len; rewrite start_index_of_samples;
        simpl; lia).
  pose proof (add_event_at_time_gain [0; 0] [1] (IZR 1 / IZR SR) 10 Hs Hw)
    as [E _].
  unfold overlap_length, len in E.
  rewrite start_index_of_samples in E. exact E.
Defined.

(** Outside the input constraint: with a negative onset index Python's
    slice bounds count from the end of the mixture, so the samples written
    are not those of the nominal window. *)
Lemma negative_onset_wraps_around :
  start_index (IZR (-3) / IZR SR) = (-3)%Z
  /\ add_event_at_time [0; 0; 0; 0] [1; 1] (IZR (-3) / IZR SR) 10
     = Ok [0; 1; 1; 0].
Proof.
  assert (Hs : start_index (IZR (-3) / IZR SR) = (-3)%Z)
    by apply start_index_of_samples.
  split; [exact Hs |].
  unfold add_event_at_time. rewrite Hs.
  change (len [1; 1]) with 2%Z. change (len [0; 0; 0; 0]) with 4%Z.
  change (Z.min (-3 + 2) 4) with (-1)%Z.
  change ((-1 - -3 <=? 0)%Z) with false. cbv iota.
  change (-1 - -3)%Z with 2%Z.
  change (slice [0; 0; 0; 0] (-3) (-1)) with [0; 0].
  change (slice [1; 1] 0 2) with [1; 1].
  assert (Hg : snr_scale (np.mean (np.square [0; 0]))
                 (np.mean (np.square [1; 1])) 10 = 1).
  { unfold snr_scale.
    replace (above_eps (np.mean (np.square [0; 0]))) with false.
    - rewrite andb_false_r. lra.
    - symmetry. apply above_eps_false. simpl. unfold Rsqr. lra. }
  rewrite Hg.
  unfold np.iadd_slice.
  change (slice_window [0; 0; 0; 0] (-3) (-1)) with (1%nat, 2%nat).
  simpl. repeat f_equal; lra.
Qed.

(* ================================================================== *)
(** * Events that reach past the end of the mixture *)
(* ================================================================== *)

(** An event starting on the last sample of a two-sample silent mixture:
    its first sample is written, its second is cut off. *)
Lemma add_event_at_time_writes_partial_event :
  (len [0; 0] < start_index (IZR 1 / IZR SR) + len [1; 1])%Z
  /\ add_event_at_time [0; 0] [1; 1] (IZR 1 / IZR SR) 10 = Ok [0; 1]
  /\ add_event_at_time [0; 0] [1; 1] (IZR 1 / IZR SR) 10 <> Ok [0; 0].
Proof.
  assert (Hs : start_index (IZR 1 / IZR SR) = 1%Z)
    by apply start_index_of_samples.
  assert (Hw : overlap_length [0; 0] [1; 1] (IZR 1 / IZR SR) = 1%Z)
    by (unfold overlap_length; rewrite Hs; reflexivity).
  assert (Hg : applied_scale [0; 0] [1; 1] (IZR 1 / IZR SR) 10 = 1).
  { rewrite applied_scale_powers by (rewrite ?Hs, ?Hw; lia).
    rewrite Hs, Hw. unfold snr_scale.
    rewrite (above_eps_false (mean_square (window [0; 0] _ _))).
    - rewrite andb_false_r. lra.
    - unfold mean_square, window. simpl. unfold Rsqr. lra. }
  assert (E : add_event_at_time [0; 0] [1; 1] (IZR 1 / IZR SR) 10 = Ok [0; 1]).
  { rewrite add_event_at_time_overlay by (rewrite ?Hs, ?Hw; lia).
    rewrite Hs, Hw, Hg. unfold overlay, window. simpl.
    do 3 f_equal. lra. }
  split; [rewrite Hs; unfold len; simpl; lia |].
  split; [exact E |].
  rewrite E. intros [= H]. lra.
Qed.

(** C1, as the code has it.  When the event does not fit entirely
    (onset_index + event_length > mixture_length) and the onset index is
    non-negative: if the onset index is at or beyond the end of the
    mixture, nothing is written; otherwise the event is truncated to the
    mixture_length - onset_index samples that remain, and that leading part
    is scaled and added onto the tail of the mixture. *)
Theorem add_event_at_time_truncates (signal event : np.ndarray) (t snr : R) :
  (0 <= start_index t)%Z ->
  (len signal < start_index t + len event)%Z ->
  let lo := Z.to_nat (start_index t) in
  ((len signal <= start_index t)%Z ->
   add_event_at_time signal event t snr = Ok signal)
  /\ ((start_index t < len signal)%Z ->
      (length signal - lo < length event)%nat
      /\ add_event_at_time signal event t snr
         = Ok (firstn lo signal
               ++ np.zip_with Rplus (skipn lo signal)
                    (map (fun e => e * applied_scale signal event t snr)
                         (firstn (length signal - lo) event)))).
Proof.
  intros Hs Hover lo. split.
  - intros Hpast. apply add_event_at_time_skip.
    unfold overlap_length. lia.
  - intros Hlt.
    assert (Hw : overlap_length signal event t = (len signal - start_index t)%Z)
      by (unfold overlap_length; lia).
    assert (Hwn : Z.to_nat (overlap_length signal event t)
                  = (length signal - lo)%nat)
      by (rewrite Hw; unfold lo, len; lia).
    split; [unfold lo, len in *; lia |].
    rewrite add_event_at_time_overlay by lia.
    fold lo. rewrite Hwn. unfold overlay, window.
    rewrite length_map, length_firstn.
    replace (Nat.min (length signal - lo) (length event))
      with (length signal - lo)%nat by (unfold lo, len in *; lia).
    rewrite (firstn_all2 (n := length signal - lo) (skipn lo signal))
      by (rewrite length_skipn; lia).
    rewrite (skipn_all2 (n := lo + (length signal - lo))) by lia.
    rewrite app_nil_r. reflexivity.
Qed.

Lemma add_event_at_time_truncates_witness :
  add_event_at_time [0; 0] [1; 1] (IZR 1 / IZR SR) 10
  = Ok ([0] ++ np.zip_with Rplus [0]
           (map (fun e => e * applied_scale [0; 0] [1; 1] (IZR 1 / IZR SR) 10)
                [1])).
Proof.
  assert (Hs : start_index (IZR 1 / IZR SR) = 1%Z)
    by apply start_index_of_samples.
  pose proof (add_event_at_time_truncates [0; 0] [1; 1] (IZR 1 / IZR SR) 10)
    as H.
  rewrite Hs in H. unfold len in H. simpl in H.
  destruct H as [_ H]; try lia.
  destruct H as [_ H]; [lia |].
  exact H.
Defined.

(* ================================================================== *)
(** * Signal-to-noise ratio of a placed event *)
(* ================================================================== *)

Lemma sum_square_scaled (g : R) (x : np.ndarray) :
  np.sum (np.square (map (fun e => e * g) x)) = g * g * np.sum (np.square x).
Proof.
  unfold np.sum, np.square.
  induction x as [| v x IH]; simpl.
  - lra.
  - rewrite IH. unfold Rsqr. lra.
Qed.

Lemma mean_square_scaled (g : R) (x : np.ndarray) :
  mean_square (map (fun e => e * g) x) = g * g * mean_square x.
Proof.
  unfold mean_square. rewrite sum_square_scaled, length_map.
  unfold Rdiv. lra.
Qed.

Lemma Rpower_10_half_twice (s : R) :
  Rpower 10 (s / 20) * Rpower 10 (s / 20) = Rpower 10 (s / 10).
Proof.
  rewrite <- Rpower_plus. f_equal. lra.
Qed.

(** C6, as the code has it.  For an event placed at full containment
    (non-negative onset index, the whole event inside the mixture, event
    not empty) with both mean-square powers over the overlap above 1e-10,
    the mean-square power of what the call added to the overlap window,
    divided by the mean-square power the background had there before the
    call, is 10^(S/10) for the target SNR of S dB. *)
Theorem placed_event_power_ratio (signal event : np.ndarray) (t S : R) :
  (0 <= start_index t)%Z ->
  (start_index t + len event <= len signal)%Z ->
  event <> [] ->
  let lo := Z.to_nat (start_index t) in
  let w := length event in
  mean_square (window signal lo w) > 1e-10 ->
  mean_square event > 1e-10 ->
  exists out,
    add_event_at_time signal event t S = Ok out
    /\ mean_square (contribution out signal lo w)
       / mean_square (window signal lo w)
       = Rpower 10 (S / 10).
Proof.
  intros Hs Hfit Hne lo w Hbp Hep.
  assert (Hlen : (0 < len event)%Z).
  { unfold len. destruct event; [contradiction | simpl; lia]. }
  assert (Hw : overlap_length signal event t = len event)
    by (unfold overlap_length; lia).
  assert (Hwn : Z.to_nat (overlap_length signal event t) = w)
    by (rewrite Hw; unfold w, len; lia).
  assert (Hall : firstn w event = event) by apply firstn_all.
  pose proof (add_event_at_time_overlay signal event t S Hs) as E.
  pose proof (applied_scale_above signal event t S Hs) as Hg.
  cbv zeta in Hg. fold lo in E, Hg.
  rewrite Hwn, Hall in E, Hg.
  specialize (E ltac:(lia)). specialize (Hg ltac:(lia) Hbp Hep).
  eexists. split; [exact E |].
  set (g := applied_scale signal event t S) in *.
  replace w with (length (map (fun e => e * g) event)) at 1
    by (rewrite length_map; reflexivity).
  rewrite overlay_contribution
    by (rewrite length_map; unfold lo, len in *; lia).
  rewrite mean_square_scaled, Hg.
  set (bp := mean_square (window signal lo w)) in *.
  set (ep := mean_square event) in *.
  assert (Hq : 0 <= bp / ep).
  { apply Rlt_le. apply Rdiv_lt_0_compat; lra. }
  transitivity (sqrt (bp / ep) * sqrt (bp / ep)
                * (Rpower 10 (S / 20) * Rpower 10 (S / 20)) * ep / bp);
    [unfold Rdiv; ring |].
  rewrite sqrt_sqrt by assumption.
  rewrite Rpower_10_half_twice.
  field. split; lra.
Qed.

Lemma placed_event_power_ratio_witness :
  exists out,
    add_event_at_time [1] [1] (IZR 0 / IZR SR) 20 = Ok out
    /\ mean_square (contribution out [1] 0 1) / mean_square (window [1] 0 1)
       = Rpower 10 (20 / 10).
Proof.
  assert (Hs : start_index (IZR 0 / IZR SR) = 0%Z)
    by apply start_index_of_samples.
  pose proof (placed_event_power_ratio [1] [1] (IZR 0 / IZR SR) 20) as H.
  rewrite Hs in H. apply H.
  - lia.
  - unfold len. simpl. lia.
  - discriminate.
  - unfold mean_square, window. simpl. unfold Rsqr. lra.
  - unfold mean_square. simpl. unfold Rsqr. lra.
Defined.

(** A unit event on a unit background at 20 dB: the added power is 100
    times the background power, ten times the 10^(20/20) = 10 of an
    amplitude ratio. *)
Lemma power_ratio_is_not_amplitude_ratio :
  exists out,
    add_event_at_time [1] [1] (IZR 0 / IZR SR) 20 = Ok out
    /\ mean_square (contribution out [1] 0 1) / mean_square (window [1] 0 1)
       = 100
    /\ Rpower 10 (20 / 20) = 10
    /\ ~ Rabs (mean_square (contribution out [1] 0 1)
               / mean_square (window [1] 0 1)
               - Rpower 10 (20 / 20)) <= 1.
Proof.
  assert (Hs : start_index (IZR 0 / IZR SR) = 0%Z)
    by apply start_index_of_samples.
  assert (Hw : overlap_length [1] [1] (IZR 0 / IZR SR) = 1%Z)
    by (unfold overlap_length; rewrite Hs; reflexivity).
  assert (H10 : Rpower 10 (20 / 20) = 10).
  { replace (20 / 20) with 1 by lra. apply Rpower_1. lra. }
  assert (Hg : applied_scale [1] [1] (IZR 0 / IZR SR) 20 = 10).
  { rewrite applied_scale_above; rewrite ?Hs, ?Hw; try lia.
    - simpl. unfold mean_square, window. simpl. unfold Rsqr.
      replace ((1 * 1 + 0) / 1 / ((1 * 1 + 0) / 1)) with 1 by field.
      rewrite sqrt_1, H10. lra.
    - unfold mean_square, window. simpl. unfold Rsqr. lra.
    - unfold mean_square. simpl. unfold Rsqr. lra. }
  exists [1 + 1 * 10].
  split.
  { rewrite add_event_at_time_overlay by (rewrite ?Hs, ?Hw; lia).
    rewrite Hs, Hw, Hg. reflexivity. }
  assert (Hr : mean_square (contribution [1 + 1 * 10] [1] 0 1)
               / mean_square (window [1] 0 1) = 100).
  { unfold mean_square, contribution, window. simpl. unfold Rsqr. field. }
  rewrite Hr, H10.
  repeat split; try reflexivity.
  replace (100 - 10) with 90 by lra.
  rewrite Rabs_pos_eq by lra. lra.
Qed.

(* ================================================================== *)
(** * Peak normalisation *)
(* ================================================================== *)

Lemma peak_nonneg (x : np.ndarray) : 0 <= peak x.
Proof.
  induction x as [| v x IH]; simpl.
  - lra.
  - apply Rle_trans with (peak x); [assumption | apply Rmax_r].
Qed.

Lemma fold_left_Rmax (l : np.ndarray) (a : R) :
  0 <= a -> fold_left Rmax l a = Rmax a (fold_right Rmax 0 l).
Proof.
  revert a. induction l as [| y l IH]; intros a Ha; simpl.
  - rewrite Rmax_left by assumption. reflexivity.
  - rewrite IH.
    + symmetry. apply Rmax_assoc.
    + apply Rle_trans with a; [assumption | apply Rmax_l].
Qed.

Lemma peak_fold (x : np.ndarray) : peak x = fold_right Rmax 0 (np.abs x).
Proof.
  unfold peak, np.abs. induction x as [| v x IH]; simpl; congruence.
Qed.

(** [np.max(np.abs(x))] is the peak of a non-empty buffer. *)
Lemma max_abs_peak (x : np.ndarray) :
  x <> [] -> np.max (np.abs x) = Ok (peak x).
Proof.
  intros H. destruct x as [| v x]; [contradiction |].
  unfold np.max. simpl np.abs. cbv iota.
  rewrite fold_left_Rmax by apply Rabs_pos.
  rewrite <- (peak_fold x). reflexivity.
Qed.

Lemma peak_scaled (c : R) (x : np.ndarray) :
  peak (map (fun v => v * c) x) = Rabs c * peak x.
Proof.
  induction x as [| v x IH]; simpl.
  - lra.
  - rewrite IH, Rabs_mult, (Rmult_comm (Rabs v)).
    apply RmaxRmult. apply Rabs_pos.
Qed.

(** Dividing by the peak and multiplying by a target gives that target as
    new peak. *)
Lemma peak_rescaled (x : np.ndarray) (m target : R) :
  peak x = m -> 0 < m -> 0 <= target ->
  peak (map (fun v => v / m * target) x) = target.
Proof.
  intros Hp Hm Ht.
  rewrite (map_ext _ (fun v => v * (target / m)))
    by (intros v; field; lra).
  rewrite peak_scaled, Hp.
  rewrite Rabs_pos_eq.
  - field. lra.
  - apply Rmult_le_pos; [assumption |].
    apply Rlt_le. apply Rinv_0_lt_compat. assumption.
Qed.

Lemma normalize_above (x : np.ndarray) (max_amp : R) :
  peak x > 1e-10 -> 0 <= max_amp ->
  exists y, normalize x max_amp = Ok y /\ peak y = max_amp
            /\ length y = length x.
Proof.
  intros Hp Ha.
  assert (Hne : x <> []) by (intros ->; simpl in Hp; lra).
  unfold normalize. rewrite max_abs_peak by assumption. simpl.
  destruct (Rgt_dec (peak x) 1e-10) as [_ | Hn]; [| contradiction].
  eexists. split; [reflexivity |]. split.
  - apply peak_rescaled; [reflexivity | lra | assumption].
  - apply length_map.
Qed.

Lemma normalize_below (x : np.ndarray) (max_amp : R) :
  x <> [] -> peak x <= 1e-10 -> normalize x max_amp = Ok x.
Proof.
  intros Hne Hp.
  unfold normalize. rewrite max_abs_peak by assumption. simpl.
  destruct (Rgt_dec (peak x) 1e-10) as [Hgt | _]; [lra | reflexivity].
Qed.

(** Whatever the input, a buffer returned by [normalize] with the default
    target has peak at most 0.9 and the length of the input. *)
Lemma normalize_default_bound (x y : np.ndarray) :
  normalize x default_max_amp = Ok y ->
  peak y <= 0.9 /\ length y = length x.
Proof.
  intros E.
  destruct x as [| v x]; [discriminate |].
  destruct (Rgt_dec (peak (v :: x)) 1e-10) as [Hgt | Hle].
  - destruct (normalize_above (v :: x) default_max_amp Hgt) as [y' [E' [P L]]];
      [unfold default_max_amp; lra |].
    rewrite E' in E. injection E as <-.
    rewrite P. unfold default_max_amp. split; [lra | assumption].
  - rewrite normalize_below in E; [| discriminate | lra].
    injection E as <-. split; [lra | reflexivity].
Qed.

Lemma normalize_total (x : np.ndarray) (max_amp : R) :
  x <> [] -> exists y, normalize x max_amp = Ok y.
Proof.
  intros Hne. unfold normalize. rewrite max_abs_peak by assumption. simpl.
  destruct (Rgt_dec (peak x) 1e-10); eexists; reflexivity.
Qed.

Lemma soundbank_normalize_above (x : np.ndarray) :
  peak x >= 1e-9 ->
  exists y, Soundbank.normalize x = Ok y /\ peak y = 0.9
            /\ length y = length x.
Proof.
  intros Hp.
  assert (Hne : x <> []) by (intros ->; simpl in Hp; lra).
  unfold Soundbank.normalize. rewrite max_abs_peak by assumption. simpl.
  destruct (Rlt_dec (peak x) 1e-9) as [Hlt | _]; [lra |].
  eexists. split; [reflexivity |]. split.
  - apply peak_rescaled; [reflexivity | lra | lra].
  - apply length_map.
Qed.

Lemma soundbank_normalize_below (x : np.ndarray) :
  x <> [] -> peak x < 1e-9 -> Soundbank.normalize x = Ok x.
Proof.
  intros Hne Hp.
  unfold Soundbank.normalize. rewrite max_abs_peak by assumption. simpl.
  destruct (Rlt_dec (peak x) 1e-9) as [_ | Hn]; [reflexivity | lra].
Qed.


(* ================================================================== *)
(** * Signal generators: buffer lengths *)
(* ================================================================== *)

Lemma diff_length (a : np.ndarray) : length (np.diff a) = (length a - 1)%nat.
Proof.
  induction a as [| x [| y a] IH]; simpl in *; try reflexivity.
  rewrite IH. lia.
Qed.

Lemma linspace_ok (a b : R) (n : Z) (endpoint : bool) :
  (0 <= n)%Z ->
  exists t, np.linspace a b n endpoint = Ok t /\ length t = Z.to_nat n.
Proof.
  intros Hn. unfold np.linspace.
  destruct (Z.ltb_spec n 0); [lia |].
  eexists. split; [reflexivity |].
  rewrite length_map, length_seq. reflexivity.
Qed.

Lemma mul_same_length (a b : np.ndarray) :
  length a = length b ->
  exists c, np.mul a b = Ok c /\ length c = length a.
Proof.
  intros E. unfold np.mul. rewrite binop_same_length by assumption.
  eexists. split; [reflexivity |]. rewrite zip_with_length. lia.
Qed.

Lemma add_same_length (a b : np.ndarray) :
  length a = length b ->
  exists c, np.add a b = Ok c /\ length c = length a.
Proof.
  intros E. unfold np.add. rewrite binop_same_length by assumption.
  eexists. split; [reflexivity |]. rewrite zip_with_length. lia.
Qed.

Section Generators.
Context {G : BitGenerator}.
Import PyRand.

Lemma bind_ok {A B : Type} (m : M A) (k : A -> M B) (s s' : state) (a : A) :
  m s = Ok (a, s') -> bind m k s = k a s'.
Proof. intros E. unfold bind. rewrite E. reflexivity. Qed.

Lemma bind_lift_ok {A B : Type} (r : result A) (k : A -> M B) (s : state)
  (a : A) :
  r = Ok a -> bind (lift r) k s = k a s.
Proof. intros ->. reflexivity. Qed.

Lemma lift_ok {A : Type} (r : result A) (s : state) (a : A) :
  r = Ok a -> lift r s = Ok (a, s).
Proof. intros ->. reflexivity. Qed.

Lemma bind_rand {B : Type} (k : R -> M B) (s : state) :
  bind rand k s = k (fst (rk_double s)) (snd (rk_double s)).
Proof.
  unfold bind, rand. destruct (rk_double s). reflexivity.
Qed.

Lemma randn_ok (n : nat) (s : state) :
  exists xs s', randn n s = Ok (xs, s') /\ length xs = n.
Proof.
  revert s. induction n as [| n IH]; intros s; simpl.
  - exists [], s. split; reflexivity.
  - unfold bind at 1. destruct (rk_gauss s) as [x s1].
    destruct (IH s1) as [xs [s2 [E L]]].
    rewrite (bind_ok _ _ _ _ _ E).
    exists (x :: xs), s2. split; [reflexivity | simpl; congruence].
Qed.

Lemma randint_ok (low high : Z) (s : state) :
  (low < high)%Z ->
  exists k s', randint low high s = Ok (k, s') /\ (low <= k < high)%Z.
Proof.
  intros H. unfold randint.
  destruct (Z.leb_spec high low); [lia |].
  pose proof (rk_interval_range (high - low - 1) s ltac:(lia)) as Hr.
  destruct (rk_interval (high - low - 1) s) as [k s'].
  simpl in Hr. exists (low + k)%Z, s'. split; [reflexivity | lia].
Qed.

Lemma time_axis_ok (duration_s : R) :
  0 <= duration_s ->
  exists t,
    np.linspace 0 duration_s
      (py_int (float_mul (IZR SyntheticNoncry.SR) duration_s)) false = Ok t
    /\ length t = n_samples duration_s.
Proof.
  intros Hd. apply linspace_ok. apply py_int_nonneg, float_mul_nonneg.
  apply Rmult_le_pos; [unfold SyntheticNoncry.SR; lra | assumption].
Qed.

Lemma gen_background_length (d : R) (s : state) :
  0 <= d ->
  exists out s',
    SyntheticNoncry.gen_background d s = Ok (out, s')
    /\ length out = n_samples d.
Proof.
  intros Hd. destruct (time_axis_ok d Hd) as [t [Et Lt]].
  unfold SyntheticNoncry.gen_background.
  rewrite (bind_lift_ok _ _ _ _ Et), !bind_rand.
  set (s2 := snd (rk_double (snd (rk_double s)))).
  destruct (randn_ok (length t) s2) as [g [s3 [Eg Lg]]].
  rewrite (bind_ok _ _ _ _ _ Eg).
  match goal with |- context [np.mul ?a ?b] =>
    destruct (mul_same_length a b) as [hm [Ehm Lhm]];
      [rewrite !length_map; reflexivity |]
  end.
  rewrite (bind_lift_ok _ _ _ _ Ehm).
  match goal with |- context [np.add ?a ?b] =>
    destruct (add_same_length a b) as [out [Eo Lo]];
      [rewrite Lhm, !length_map; congruence |]
  end.
  rewrite (lift_ok _ _ _ Eo).
  exists out, s3. split; [reflexivity |].
  rewrite Lo, Lhm, length_map. assumption.
Qed.

Lemma gen_beep_length (d : R) (s : state) :
  0 <= d ->
  exists out s',
    SyntheticNoncry.gen_beep d s = Ok (out, s') /\ length out = n_samples d.
Proof.
  intros Hd. destruct (time_axis_ok d Hd) as [t [Et Lt]].
  unfold SyntheticNoncry.gen_beep.
  rewrite (bind_lift_ok _ _ _ _ Et), !bind_rand.
  match goal with |- context [lift (np.mul ?a ?b)] =>
    destruct (mul_same_length a b) as [env [Ee Le]];
      [rewrite !length_map; reflexivity |]
  end.
  rewrite (bind_lift_ok _ _ _ _ Ee).
  match goal with |- context [lift (np.mul ?a ?b)] =>
    destruct (mul_same_length a b) as [te [Ete Lte]];
      [rewrite Le, !length_map; reflexivity |]
  end.
  rewrite (bind_lift_ok _ _ _ _ Ete).
  eexists _, _. split; [reflexivity |].
  rewrite length_map, Lte, length_map. assumption.
Qed.

Lemma gen_knock_length (d : R) (s : state) :
  0 <= d ->
  exists out s',
    SyntheticNoncry.gen_knock d s = Ok (out, s') /\ length out = n_samples d.
Proof.
  intros Hd. destruct (time_axis_ok d Hd) as [t [Et Lt]].
  unfold SyntheticNoncry.gen_knock.
  rewrite (bind_lift_ok _ _ _ _ Et), !bind_rand.
  match goal with |- context [lift (np.mul ?a ?b)] =>
    destruct (mul_same_length a b) as [se [Ese Lse]];
      [rewrite !length_map; reflexivity |]
  end.
  rewrite (bind_lift_ok _ _ _ _ Ese).
  eexists _, _. split; [reflexivity |].
  rewrite length_map, Lse, length_map. assumption.
Qed.

(** [hp * env] in [gen_whoosh]: [hp] has one sample for an empty time axis
    and is broadcast against the empty envelope. *)
Lemma whoosh_product (noise env : np.ndarray) :
  length noise = length env ->
  exists he, np.mul (0 :: np.diff noise) env = Ok he
             /\ length he = length env.
Proof.
  intros E. destruct env as [| e env].
  - destruct noise; [| discriminate]. exists []. split; reflexivity.
  - assert (L : length (0 :: np.diff noise) = length (e :: env))
      by (simpl; rewrite diff_length, E; simpl; lia).
    destruct (mul_same_length _ _ L) as [he [Eh Lh]].
    exists he. split; [assumption | congruence].
Qed.

Lemma gen_whoosh_length (d : R) (s : state) :
  0 <= d ->
  exists out s',
    SyntheticNoncry.gen_whoosh d s = Ok (out, s') /\ length out = n_samples d.
Proof.
  intros Hd. destruct (time_axis_ok d Hd) as [t [Et Lt]].
  unfold SyntheticNoncry.gen_whoosh.
  rewrite (bind_lift_ok _ _ _ _ Et).
  destruct (randn_ok (length t) s) as [g [s1 [Eg Lg]]].
  rewrite (bind_ok _ _ _ _ _ Eg).
  match goal with |- context [lift (np.mul (0 :: np.diff ?a) ?b)] =>
    destruct (whoosh_product a b) as [he [Ehe Lhe]];
      [rewrite length_map; assumption |]
  end.
  rewrite (bind_lift_ok _ _ _ _ Ehe).
  eexists _, _. split; [reflexivity |].
  rewrite length_map, Lhe, length_map. assumption.
Qed.

End Generators.

Section SoundbankGenerators.
Context {G : BitGenerator}.
Import PyRand.

Lemma soundbank_normalize_ok (x : np.ndarray) :
  x <> [] ->
  exists y, Soundbank.normalize x = Ok y /\ length y = length x.
Proof.
  intros Hne.
  destruct (Rlt_dec (peak x) 1e-9) as [Hlt | Hge].
  - exists x. split; [apply soundbank_normalize_below; assumption |].
    reflexivity.
  - destruct (soundbank_normalize_above x) as [y [E [_ L]]]; [lra |].
    exists y. split; assumption.
Qed.

Lemma nonempty_of_length (x : np.ndarray) : (1 <= length x)%nat -> x <> [].
Proof. intros H ->. simpl in H. lia. Qed.

Lemma n_samples_positive (d : R) :
  1 <= IZR SyntheticNoncry.SR * d -> (1 <= n_samples d)%nat.
Proof.
  intros H. unfold n_samples.
  pose proof (round_double_ge_1 _ H) as Hr. fold (float_mul (IZR SyntheticNoncry.SR) d) in Hr.
  assert (1 <= py_int (float_mul (IZR SyntheticNoncry.SR) d))%Z
    by (apply py_int_ge; lra).
  lia.
Qed.

Lemma soundbank_time_axis_ok (d : R) :
  0 <= d ->
  exists t,
    np.linspace 0 d (py_int (float_mul (IZR Soundbank.SR) d)) false = Ok t
    /\ length t = n_samples d.
Proof. apply time_axis_ok. Qed.

Lemma soundbank_gen_background_length (d hum_freq : R) (s : state) :
  1 <= IZR SyntheticNoncry.SR * d ->
  exists out s',
    Soundbank.gen_background d hum_freq s = Ok (out, s')
    /\ length out = n_samples d.
Proof.
  intros H1. pose proof (n_samples_positive d H1) as Hpos.
  assert (Hd : 0 <= d) by (unfold SyntheticNoncry.SR in H1; lra).
  destruct (soundbank_time_axis_ok d Hd) as [t [Et Lt]].
  unfold Soundbank.gen_background.
  rewrite (bind_lift_ok _ _ _ _ Et).
  destruct (randn_ok (length t) s) as [g [s1 [Eg Lg]]].
  rewrite (bind_ok _ _ _ _ _ Eg).
  match goal with |- context [lift (np.mul ?a ?b)] =>
    destruct (mul_same_length a b) as [hm [Ehm Lhm]];
      [rewrite !length_map; reflexivity |]
  end.
  rewrite (bind_lift_ok _ _ _ _ Ehm).
  match goal with |- context [lift (np.add ?a ?b)] =>
    destruct (add_same_length a b) as [mixed [Em Lm]];
      [rewrite Lhm, !length_map; congruence |]
  end.
  rewrite (bind_lift_ok _ _ _ _ Em).
  rewrite length_map in Lhm.
  destruct (soundbank_normalize_ok mixed) as [out [Eo Lo]];
    [apply nonempty_of_length; lia |].
  rewrite (lift_ok _ _ _ Eo).
  exists out, s1. split; [reflexivity | lia].
Qed.

Lemma soundbank_gen_beep_length (d freq : R) (s : state) :
  1 <= IZR SyntheticNoncry.SR * d ->
  exists out s',
    Soundbank.gen_beep d freq s = Ok (out, s') /\ length out = n_samples d.
Proof.
  intros H1. pose proof (n_samples_positive d H1) as Hpos.
  assert (Hd : 0 <= d) by (unfold SyntheticNoncry.SR in H1; lra).
  destruct (soundbank_time_axis_ok d Hd) as [t [Et Lt]].
  unfold Soundbank.gen_beep.
  rewrite (bind_lift_ok _ _ _ _ Et).
  match goal with |- context [lift (np.mul ?a ?b)] =>
    destruct (mul_same_length a b) as [env [Ee Le]];
      [rewrite !length_map; reflexivity |]
  end.
  rewrite (bind_lift_ok _ _ _ _ Ee).
  match goal with |- context [lift (np.mul ?a ?b)] =>
    destruct (mul_same_length a b) as [sig [Es Ls]];
      [rewrite Le, !length_map; reflexivity |]
  end.
  rewrite (bind_lift_ok _ _ _ _ Es).
  rewrite length_map in Ls.
  destruct (soundbank_normalize_ok sig) as [out [Eo Lo]];
    [apply nonempty_of_length; lia |].
  rewrite (lift_ok _ _ _ Eo).
  exists out, s. split; [reflexivity | lia].
Qed.

Lemma chime_partial_ok (d : R) (t : np.ndarray) (f : R) :
  exists a, Soundbank.chime_partial d t f = Ok a /\ length a = length t.
Proof.
  unfold Soundbank.chime_partial.
  match goal with |- context [np.mul ?a ?b] =>
    destruct (mul_same_length a b) as [c [Ec Lc]];
      [rewrite !length_map; reflexivity |]
  end.
  exists c. split; [assumption |]. rewrite Lc, length_map. reflexivity.
Qed.

Lemma py_sum_from_ok (terms : list (result np.ndarray)) (acc : np.ndarray) :
  Forall (fun r => exists a, r = Ok a /\ length a = length acc) terms ->
  exists out,
    Soundbank.py_sum_from acc terms = Ok out /\ length out = length acc.
Proof.
  revert acc. induction terms as [| r terms IH]; intros acc H; simpl.
  - exists acc. split; reflexivity.
  - inversion H as [| r' terms' [a [-> La]] Hrest]; subst. simpl.
    destruct (add_same_length acc a) as [acc' [Ea La']]; [congruence |].
    rewrite Ea. simpl.
    destruct (IH acc') as [out [Eo Lo]].
    + eapply Forall_impl; [| exact Hrest].
      intros r [b [-> Lb]]. exists b. split; [reflexivity | congruence].
    + exists out. split; [assumption | congruence].
Qed.

Lemma soundbank_gen_chime_length (d : R) (s : state) :
  1 <= IZR SyntheticNoncry.SR * d ->
  exists out s',
    Soundbank.gen_chime d s = Ok (out, s') /\ length out = n_samples d.
Proof.
  intros H1. pose proof (n_samples_positive d H1) as Hpos.
  assert (Hd : 0 <= d) by (unfold SyntheticNoncry.SR in H1; lra).
  destruct (soundbank_time_axis_ok d Hd) as [t [Et Lt]].
  unfold Soundbank.gen_chime.
  rewrite (bind_lift_ok _ _ _ _ Et).
  assert (Hsum : exists sig,
             Soundbank.py_sum
               (map (Soundbank.chime_partial d t) Soundbank.chime_freqs)
             = Ok sig /\ length sig = length t).
  { unfold Soundbank.chime_freqs. simpl map. unfold Soundbank.py_sum.
    destruct (chime_partial_ok d t 523.25) as [a1 [E1 L1]].
    rewrite E1. simpl.
    destruct (py_sum_from_ok
                [Soundbank.chime_partial d t 659.25;
                 Soundbank.chime_partial d t 783.99]
                (map (fun x => 0 + x) a1)) as [sig [Es Ls]].
    - repeat constructor;
        match goal with |- exists _, Soundbank.chime_partial ?d ?t ?f = _ /\ _ =>
          destruct (chime_partial_ok d t f) as [a [Ea La]];
          exists a; split; [assumption | rewrite length_map; congruence]
        end.
    - exists sig. split; [assumption |].
      rewrite Ls, length_map. assumption. }
  destruct Hsum as [sig [Es Ls]].
  rewrite (bind_lift_ok _ _ _ _ Es).
  destruct (soundbank_normalize_ok sig) as [out [Eo Lo]];
    [apply nonempty_of_length; lia |].
  rewrite (lift_ok _ _ _ Eo).
  exists out, s. split; [reflexivity | lia].
Qed.

Lemma soundbank_gen_whoosh_length (d : R) (s : state) :
  1 <= IZR SyntheticNoncry.SR * d ->
  exists out s',
    Soundbank.gen_whoosh d s = Ok (out, s') /\ length out = n_samples d.
Proof.
  intros H1. pose proof (n_samples_positive d H1) as Hpos.
  assert (Hd : 0 <= d) by (unfold SyntheticNoncry.SR in H1; lra).
  destruct (soundbank_time_axis_ok d Hd) as [t [Et Lt]].
  unfold Soundbank.gen_whoosh.
  rewrite (bind_lift_ok _ _ _ _ Et).
  destruct (randn_ok (length t) s) as [g [s1 [Eg Lg]]].
  rewrite (bind_ok _ _ _ _ _ Eg).
  match goal with |- context [lift (np.mul (0 :: np.diff ?a) ?b)] =>
    destruct (whoosh_product a b) as [he [Ehe Lhe]];
      [rewrite length_map; assumption |]
  end.
  rewrite (bind_lift_ok _ _ _ _ Ehe).
  rewrite length_map in Lhe.
  destruct (soundbank_normalize_ok he) as [out [Eo Lo]];
    [apply nonempty_of_length; lia |].
  rewrite (lift_ok _ _ _ Eo).
  exists out, s1. split; [reflexivity | lia].
Qed.

(** C4, as the code has it.  For every non-negative duration, each
    duration-driven generator of generate_synthetic_noncry (background,
    beep, whoosh, knock) returns a buffer of exactly int(SR * duration)
    samples: the floating-point product, which is within a relative
    2^-53 of the exact one, truncated toward zero.  So does each one of
    create_synthetic_soundbank (background, beep, chime, whoosh) as soon as
    the duration is at least one sample period. *)
Theorem generated_buffer_length (d : R) (s : state) :
  0 <= d ->
  (IZR (Z.of_nat (n_samples d)) <= float_mul (IZR SyntheticNoncry.SR) d
     < IZR (Z.of_nat (n_samples d)) + 1
   /\ Rabs (float_mul (IZR SyntheticNoncry.SR) d - IZR SyntheticNoncry.SR * d)
      <= IZR SyntheticNoncry.SR * d / IZR (2 ^ 53))
  /\ (exists out s', SyntheticNoncry.gen_background d s = Ok (out, s')
                     /\ length out = n_samples d)
  /\ (exists out s', SyntheticNoncry.gen_beep d s = Ok (out, s')
                     /\ length out = n_samples d)
  /\ (exists out s', SyntheticNoncry.gen_whoosh d s = Ok (out, s')
                     /\ length out = n_samples d)
  /\ (exists out s', SyntheticNoncry.gen_knock d s = Ok (out, s')
                     /\ length out = n_samples d)
  /\ (1 <= IZR SyntheticNoncry.SR * d ->
      forall hum_freq freq : R,
        (exists out s', Soundbank.gen_background d hum_freq s = Ok (out, s')
                        /\ length out = n_samples d)
        /\ (exists out s', Soundbank.gen_beep d freq s = Ok (out, s')
                           /\ length out = n_samples d)
        /\ (exists out s', Soundbank.gen_chime d s = Ok (out, s')
                           /\ length out = n_samples d)
        /\ (exists out s', Soundbank.gen_whoosh d s = Ok (out, s')
                           /\ length out = n_samples d)).
Proof.
  intros Hd.
  assert (Hx : 0 <= IZR SyntheticNoncry.SR * d)
    by (apply Rmult_le_pos; [unfold SyntheticNoncry.SR; lra | assumption]).
  split.
  { split.
    - unfold n_samples.
      rewrite Z2Nat.id by (apply py_int_nonneg, float_mul_nonneg; assumption).
      apply py_int_floor. apply float_mul_nonneg. assumption.
    - pose proof (round_double_error (IZR SyntheticNoncry.SR * d)) as He.
      rewrite (Rabs_pos_eq (IZR SyntheticNoncry.SR * d)) in He by assumption.
      exact He. }
  split; [apply gen_background_length; assumption |].
  split; [apply gen_beep_length; assumption |].
  split; [apply gen_whoosh_length; assumption |].
  split; [apply gen_knock_length; assumption |].
  intros H1 hum_freq freq.
  split; [apply soundbank_gen_background_length; assumption |].
  split; [apply soundbank_gen_beep_length; assumption |].
  split; [apply soundbank_gen_chime_length; assumption |].
  apply soundbank_gen_whoosh_length; assumption.
Qed.

End SoundbankGenerators.

(** A duration of [k + f] sample periods whose product with the sample
    rate is a double gives [k] samples. *)
Lemma n_samples_of_count (k : Z) (f : R) (m e : Z) :
  (0 <= k)%Z -> 0 <= f < 1 ->
  IZR k + f = IZR m * powerRZ 2 (e - 52) ->
  powerRZ 2 e <= IZR k + f < powerRZ 2 (e + 1) ->
  n_samples ((IZR k + f) / IZR SyntheticNoncry.SR) = Z.to_nat k.
Proof.
  intros Hk Hf Hm Hb. unfold n_samples, float_mul. f_equal.
  replace (IZR SyntheticNoncry.SR * ((IZR k + f) / IZR SyntheticNoncry.SR))
    with (IZR k + f) by (unfold SyntheticNoncry.SR; field).
  assert (0 <= IZR k) by (apply IZR_le; assumption).
  rewrite (round_double_exact _ m e Hm)
    by (rewrite Rabs_pos_eq by lra; exact Hb).
  apply py_int_floor_unique; lra.
Qed.

Lemma generated_buffer_length_witness :
  exists out s',
    @SyntheticNoncry.gen_beep counter_generator
      ((IZR 3 + 0) / IZR SyntheticNoncry.SR) 0%nat = Ok (out, s')
    /\ length out = 3%nat.
Proof.
  destruct (@generated_buffer_length counter_generator
              ((IZR 3 + 0) / IZR SyntheticNoncry.SR) 0%nat)
    as [_ [_ [H _]]].
  - unfold SyntheticNoncry.SR. lra.
  - rewrite (n_samples_of_count 3 0 (3 * 2 ^ 51) 1) in H
      by (try lia; simpl; lra).
    exact H.
Defined.

(** A beep of 8000.75 sample periods (a little over half a second): the
    buffer has 8000 samples, where rounding would give 8001. *)
Lemma gen_beep_length_is_truncated :
  0 < (IZR 8000 + 0.75) / IZR SyntheticNoncry.SR
  /\ py_round ((IZR 8000 + 0.75) / IZR SyntheticNoncry.SR
               * IZR SyntheticNoncry.SR) = 8001%Z
  /\ exists out s',
       @SyntheticNoncry.gen_beep counter_generator
         ((IZR 8000 + 0.75) / IZR SyntheticNoncry.SR) 0%nat = Ok (out, s')
       /\ len out = 8000%Z
       /\ len out <> py_round ((IZR 8000 + 0.75) / IZR SyntheticNoncry.SR
                               * IZR SyntheticNoncry.SR).
Proof.
  set (d := (IZR 8000 + 0.75) / IZR SyntheticNoncry.SR).
  assert (Hx : d * IZR SyntheticNoncry.SR = 8000.75)
    by (unfold d, SyntheticNoncry.SR; lra).
  assert (Hr : py_round (d * IZR SyntheticNoncry.SR) = 8001%Z).
  { rewrite Hx. unfold py_round.
    assert (Hf : Int_part 8000.75 = 8000%Z)
      by (symmetry; apply Int_part_spec; lra).
    rewrite Hf.
    destruct (Rlt_dec (8000.75 - 8000) (1 / 2)) as [Hlt | _]; [lra |].
    destruct (Rlt_dec (1 / 2) (8000.75 - 8000)) as [_ | Hn]; [| lra].
    reflexivity. }
  split; [unfold d, SyntheticNoncry.SR; lra |].
  split; [exact Hr |].
  destruct (@gen_beep_length counter_generator d 0%nat) as [out [s' [E L]]].
  - unfold d, SyntheticNoncry.SR. lra.
  - exists out, s'. split; [exact E |].
    unfold d in L.
    rewrite (n_samples_of_count 8000 0.75 (32003 * 2 ^ 38) 12) in L
      by (try lia; simpl; lra).
    assert (Ln : len out = 8000%Z) by (unfold len; rewrite L; lia).
    split; [exact Ln |].
    rewrite Hr, Ln. discriminate.
Qed.

(** Rounding a value whose binade is known. *)
Lemma round_double_in_binade (x : R) (e k : Z) :
  powerRZ 2 e <= Rabs x < powerRZ 2 (e + 1) ->
  Rabs (x / powerRZ 2 (e - 52) - IZR k) < 1 / 2 ->
  round_double x = IZR k * powerRZ 2 (e - 52).
Proof.
  intros Hb Hk.
  assert (Hp : 0 < powerRZ 2 e) by (apply powerRZ_lt; lra).
  unfold round_double.
  destruct (Req_dec_T x 0) as [-> | _];
    [rewrite Rabs_R0 in Hb; lra |].
  unfold ulp. rewrite (binade_unique x e Hb).
  rewrite (py_round_nearest _ k Hk). reflexivity.
Qed.

Lemma double_2_3_value : round_double 2.3 = double_2_3.
Proof.
  rewrite (round_double_in_binade 2.3 1 5179139571476070).
  - unfold double_2_3. simpl. lra.
  - rewrite Rabs_pos_eq by lra. simpl. lra.
  - simpl. apply Rabs_def1; lra.
Qed.

Lemma double_0_7_value : round_double 0.7 = double_0_7.
Proof.
  rewrite (round_double_in_binade 0.7 (-1) 6305039478318694).
  - unfold double_0_7. simpl. lra.
  - rewrite Rabs_pos_eq by lra. simpl. lra.
  - simpl. apply Rabs_def1; lra.
Qed.

Lemma n_samples_double_2_3 : n_samples double_2_3 = Z.to_nat 36800.
Proof.
  unfold n_samples, float_mul.
  rewrite (round_double_in_binade _ 15 (36800 * 2 ^ 37)).
  - replace (IZR (36800 * 2 ^ 37) * powerRZ 2 (15 - 52)) with (IZR 36800)
      by (simpl; lra).
    rewrite py_int_IZR. reflexivity.
  - unfold double_2_3, SyntheticNoncry.SR.
    rewrite Rabs_pos_eq by (simpl; lra). simpl. lra.
  - unfold double_2_3, SyntheticNoncry.SR. simpl. apply Rabs_def1; lra.
Qed.

Lemma n_samples_double_0_7 : n_samples double_0_7 = Z.to_nat 11200.
Proof.
  unfold n_samples, float_mul.
  rewrite (round_double_in_binade _ 13 (11200 * 2 ^ 39)).
  - replace (IZR (11200 * 2 ^ 39) * powerRZ 2 (13 - 52)) with (IZR 11200)
      by (simpl; lra).
    rewrite py_int_IZR. reflexivity.
  - unfold double_0_7, SyntheticNoncry.SR.
    rewrite Rabs_pos_eq by (simpl; lra). simpl. lra.
  - unfold double_0_7, SyntheticNoncry.SR. simpl. apply Rabs_def1; lra.
Qed.

(** X23. The sample count is the truncation of the rounded product, which
    can be one more than the floor of the exact product.  The literals 2.3
    and 0.7 denote doubles slightly below those decimals, so SR times the
    duration is below 36800 and 11200; the product rounds to 36800.0 and
    11200.0, and a beep or a background of that duration has 36800 and
    11200 samples. *)
Theorem sample_count_of_rounded_product {G : BitGenerator}
  (s : PyRand.state) :
  (round_double 2.3 = double_2_3
   /\ IZR SyntheticNoncry.SR * double_2_3 < 36800
   /\ (exists out s', SyntheticNoncry.gen_beep double_2_3 s = Ok (out, s')
                      /\ len out = 36800%Z)
   /\ (exists out s', SyntheticNoncry.gen_background double_2_3 s
                      = Ok (out, s')
                      /\ len out = 36800%Z))
  /\ (round_double 0.7 = double_0_7
      /\ IZR SyntheticNoncry.SR * double_0_7 < 11200
      /\ (exists out s', SyntheticNoncry.gen_beep double_0_7 s = Ok (out, s')
                         /\ len out = 11200%Z)
      /\ (exists out s', SyntheticNoncry.gen_background double_0_7 s
                         = Ok (out, s')
                         /\ len out = 11200%Z)).
Proof.
  assert (H23 : 0 <= double_2_3) by (unfold double_2_3; simpl; lra).
  assert (H07 : 0 <= double_0_7) by (unfold double_0_7; simpl; lra).
  assert (Hlen : forall (out : np.ndarray) (d : R) (k : Z),
             (0 <= k)%Z -> n_samples d = Z.to_nat k ->
             length out = n_samples d -> len out = k).
  { intros out d k Hk Hn L. unfold len. rewrite L, Hn. lia. }
  split.
  - split; [exact double_2_3_value |].
    split; [unfold double_2_3, SyntheticNoncry.SR; simpl; lra |].
    destruct (gen_beep_length double_2_3 s H23) as [o1 [s1 [E1 L1]]].
    destruct (gen_background_length double_2_3 s H23) as [o2 [s2 [E2 L2]]].
    split; [exists o1, s1 | exists o2, s2]; (split; [assumption |]);
      apply (Hlen _ double_2_3);
      try assumption; try lia; apply n_samples_double_2_3.
  - split; [exact double_0_7_value |].
    split; [unfold double_0_7, SyntheticNoncry.SR; simpl; lra |].
    destruct (gen_beep_length double_0_7 s H07) as [o1 [s1 [E1 L1]]].
    destruct (gen_background_length double_0_7 s H07) as [o2 [s2 [E2 L2]]].
    split; [exists o1, s1 | exists o2, s2]; (split; [assumption |]);
      apply (Hlen _ double_0_7);
      try assumption; try lia; apply n_samples_double_0_7.
Qed.

(* ================================================================== *)
(** * The Mixture Orchestrator *)
(* ================================================================== *)

Lemma add_event_at_time_total (signal event : np.ndarray) (t snr : R) :
  (0 <= start_index t)%Z ->
  exists out,
    add_event_at_time signal event t snr = Ok out
    /\ length out = length signal.
Proof.
  intros Hs.
  destruct (Z.leb_spec (overlap_length signal event t) 0) as [Hle | Hgt].
  - exists signal. split; [apply add_event_at_time_skip; assumption |].
    reflexivity.
  - eexists. split; [apply add_event_at_time_overlay; assumption |].
    apply overlay_length. apply overlay_fits; assumption.
Qed.

Section Orchestrator.
Context {G : BitGenerator}.
Import PyRand.

Lemma click_length_value : py_int (float_mul 0.03 (IZR SR)) = 480%Z.
Proof.
  unfold float_mul.
  replace (0.03 * IZR SR) with (IZR 480) by (unfold SR; lra).
  rewrite (round_double_exact _ (480 * 2 ^ 44) 8)
    by (try rewrite Rabs_pos_eq by lra; simpl; lra).
  apply py_int_IZR.
Qed.

Lemma gen_click_ok (s : state) :
  exists out s', gen_click s = Ok (out, s') /\ len out = 480%Z.
Proof.
  unfold gen_click. rewrite click_length_value.
  assert (Hn : Z.to_nat 480 = S (Z.to_nat 479)) by lia.
  rewrite Hn. set (n := Z.to_nat 479) in *.
  assert (Hx : np.zeros (S n) = 0 :: np.zeros n) by reflexivity.
  rewrite Hx.
  assert (Lx : length (1.0 :: np.zeros n) = S n)
    by (cbn [length]; f_equal; apply repeat_length).
  rewrite (bind_lift_ok _ _ s (1.0 :: np.zeros n)) by reflexivity.
  destruct (linspace_ok 0 8 480 true ltac:(lia)) as [ramp [Er Lr]].
  rewrite (bind_lift_ok _ _ _ _ Er).
  destruct (randn_ok (S n) s) as [g [s1 [Eg Lg]]].
  rewrite (bind_ok _ _ _ _ _ Eg).
  match goal with |- context [lift (np.add ?a ?b)] =>
    destruct (add_same_length a b) as [xn [Exn Lxn]];
      [rewrite length_map; congruence |]
  end.
  rewrite (bind_lift_ok _ _ _ _ Exn).
  match goal with |- context [lift (np.mul ?a ?b)] =>
    destruct (mul_same_length a b) as [xd [Exd Lxd]];
      [rewrite length_map; congruence |]
  end.
  rewrite (bind_lift_ok _ _ _ _ Exd).
  eexists _, _. split; [reflexivity |].
  unfold len. rewrite length_map, Lxd, Lxn, Lx. lia.
Qed.

Lemma choice_event_funcs_ok (s : state) :
  exists f s', choice event_funcs s = Ok (f, s').
Proof.
  unfold choice, event_funcs.
  destruct (randint_ok 0 (len [f_beep; f_click; f_whoosh; f_knock]) s)
    as [k [s' [E _]]]; [unfold len; simpl; lia |].
  rewrite (bind_ok _ _ _ _ _ E).
  eexists _, _. reflexivity.
Qed.

Lemma call_event_func_ok (f : event_func) (event_dur : R) (s : state) :
  0 <= event_dur ->
  exists out s', call_event_func f event_dur s = Ok (out, s').
Proof.
  intros Hd. destruct f; simpl.
  - destruct (gen_beep_length event_dur s Hd) as [o [s' [E _]]]; eauto.
  - destruct (gen_click_ok s) as [o [s' [E _]]]; eauto.
  - destruct (gen_whoosh_length event_dur s Hd) as [o [s' [E _]]]; eauto.
  - destruct (gen_knock_length event_dur s Hd) as [o [s' [E _]]]; eauto.
Qed.

(** Drawing an event never raises. *)
Lemma draw_event_ok (s : state) :
  exists event s', draw_event s = Ok (event, s').
Proof.
  unfold draw_event.
  destruct (choice_event_funcs_ok s) as [f [s1 E]].
  rewrite (bind_ok _ _ _ _ _ E).
  destruct (is_gen_click f).
  - destruct (gen_click_ok s1) as [o [s' [Ec _]]]; eauto.
  - rewrite bind_rand.
    apply call_event_func_ok.
    pose proof (rk_double_range s1). lra.
Qed.

(** What [place_event] does on each side of the guard of line 118. *)
Lemma place_event_placed (duration : R) (mix event : np.ndarray) (s : state) :
  max_start duration event > 0 ->
  let u := fst (rk_double s) in
  let s1 := snd (rk_double s) in
  let v := fst (rk_double s1) in
  let s2 := snd (rk_double s1) in
  place_event duration mix event s
  = lift (add_event_at_time mix event (max_start duration event * u)
            (5 + 15 * v)) s2.
Proof.
  intros H u s1 v s2. unfold place_event.
  destruct (Rgt_dec (max_start duration event) 0) as [_ | Hn];
    [| contradiction].
  rewrite !bind_rand. reflexivity.
Qed.

Lemma place_event_omitted (duration : R) (mix event : np.ndarray) (s : state) :
  max_start duration event <= 0 ->
  place_event duration mix event s = Ok (mix, s).
Proof.
  intros H. unfold place_event.
  destruct (Rgt_dec (max_start duration event) 0) as [Hgt | _];
    [lra | reflexivity].
Qed.

Lemma place_event_ok (duration : R) (mix event : np.ndarray) (s : state) :
  exists mix' s',
    place_event duration mix event s = Ok (mix', s')
    /\ length mix' = length mix.
Proof.
  destruct (Rgt_dec (max_start duration event) 0) as [Hgt | Hle].
  - rewrite place_event_placed by assumption.
    pose proof (rk_double_range s) as Hu.
    destruct (add_event_at_time_total mix event
                (max_start duration event * fst (rk_double s))
                (5 + 15 * fst (rk_double (snd (rk_double s)))))
      as [out [E L]].
    + unfold start_index. apply py_int_nonneg.
      apply Rmult_le_pos; [| unfold SR; lra].
      apply Rmult_le_pos; lra.
    + rewrite (lift_ok _ _ _ E). eauto.
  - rewrite place_event_omitted by lra. eauto.
Qed.

Lemma event_iteration_ok (duration : R) (mix : np.ndarray) (s : state) :
  exists mix' s',
    event_iteration duration mix s = Ok (mix', s')
    /\ length mix' = length mix.
Proof.
  unfold event_iteration.
  destruct (draw_event_ok s) as [event [s1 E]].
  rewrite (bind_ok _ _ _ _ _ E).
  apply place_event_ok.
Qed.

Lemma event_phase_ok (n : nat) (duration : R) (mix : np.ndarray) (s : state) :
  exists mix' s',
    event_phase n duration mix s = Ok (mix', s')
    /\ length mix' = length mix.
Proof.
  revert mix s. induction n as [| n IH]; intros mix s; simpl.
  - exists mix, s. split; reflexivity.
  - destruct (event_iteration_ok duration mix s) as [m1 [s1 [E1 L1]]].
    rewrite (bind_ok _ _ _ _ _ E1).
    destruct (IH m1 s1) as [m2 [s2 [E2 L2]]].
    exists m2, s2. split; [assumption | congruence].
Qed.

Lemma n_events_ok (n_events : option Z) (s : state) :
  exists n s',
    match n_events with
    | None => randint 1 5
    | Some n => ret n
    end s = Ok (n, s').
Proof.
  destruct n_events as [n |].
  - exists n, s. reflexivity.
  - destruct (randint_ok 1 5 s ltac:(lia)) as [k [s' [E _]]]. eauto.
Qed.

(** For a duration of at least one sample period, [generate_mixture]
    returns a buffer of int(SR * duration) samples. *)
Lemma generate_mixture_ok (duration : R) (n_events : option Z) (s : state) :
  1 <= IZR SR * duration ->
  exists out s',
    generate_mixture duration n_events s = Ok (out, s')
    /\ length out = n_samples duration.
Proof.
  intros H1. pose proof (n_samples_positive duration H1) as Hpos.
  assert (Hd : 0 <= duration) by (unfold SR in H1; lra).
  unfold generate_mixture.
  destruct (gen_background_length duration s Hd) as [bg [s1 [Eb Lb]]].
  rewrite (bind_ok _ _ _ _ _ Eb).
  destruct (n_events_ok n_events s1) as [n [s2 En]].
  rewrite (bind_ok _ _ _ _ _ En).
  destruct (event_phase_ok (Z.to_nat n) duration bg s2) as [mix [s3 [Em Lm]]].
  rewrite (bind_ok _ _ _ _ _ Em).
  destruct (normalize_total mix default_max_amp) as [out Eo];
    [apply nonempty_of_length; lia |].
  rewrite (lift_ok _ _ _ Eo).
  destruct (normalize_default_bound _ _ Eo) as [P L].
  exists out, s3. split; [reflexivity | lia].
Qed.

End Orchestrator.



Section EventPhase.
Context {G : BitGenerator}.
Import PyRand.

(** C8. In the loop of [generate_mixture], once an event has been drawn,
    the maximum onset is duration - len(event)/SR.  When it is strictly
    positive the iteration draws the onset and the SNR and hands the mixture
    to [add_event_at_time]; when it is zero or negative the Compositor is
    not called, the mixture and the random stream are left as they are, and
    in both cases the loop goes on with the remaining iterations. *)
Theorem event_phase_step (duration : R) (mix event : np.ndarray)
  (s s1 : state) (n : nat) :
  draw_event s = Ok (event, s1) ->
  max_start duration event = duration - IZR (len event) / IZR SR
  /\ (max_start duration event > 0 ->
      let u := fst (rk_double s1) in
      let s2 := snd (rk_double s1) in
      let v := fst (rk_double s2) in
      let s3 := snd (rk_double s2) in
      event_phase (S n) duration mix s
      = match add_event_at_time mix event
                (max_start duration event * u) (5 + 15 * v) with
        | Ok mix' => event_phase n duration mix' s3
        | Raise e => Raise e
        end)
  /\ (max_start duration event <= 0 ->
      event_phase (S n) duration mix s = event_phase n duration mix s1).
Proof.
  intros Hd. split; [reflexivity |].
  assert (Hstep : event_phase (S n) duration mix s
                  = bind (place_event duration mix event)
                      (fun mix' => event_phase n duration mix') s1).
  { simpl. unfold event_iteration, bind at 1 2.
    rewrite Hd. reflexivity. }
  split.
  - intros Hpos u s2 v s3. rewrite Hstep. unfold bind.
    rewrite place_event_placed by assumption.
    fold u s2 v s3. unfold lift.
    destruct (add_event_at_time mix event (max_start duration event * u)
                (5 + 15 * v)); reflexivity.
  - intros Hle. rewrite Hstep. unfold bind.
    rewrite place_event_omitted by assumption. reflexivity.
Qed.

End EventPhase.

Lemma max_start_of_zero_duration (event : np.ndarray) :
  max_start 0 event <= 0.
Proof.
  unfold max_start, len, SR.
  assert (0 <= IZR (Z.of_nat (length event))) by (apply IZR_le; lia).
  assert (0 <= IZR (Z.of_nat (length event)) / 16000)
    by (apply Rmult_le_pos; lra).
  lra.
Qed.

Lemma event_phase_step_witness :
  exists s1,
    @event_phase counter_generator 1 0 [1] 0%nat = Ok ([1], s1).
Proof.
  destruct (@draw_event_ok counter_generator 0%nat) as [event [s1 E]].
  exists s1.
  destruct (@event_phase_step counter_generator 0 [1] event 0%nat s1 0%nat E)
    as [_ [_ H]].
  rewrite H by apply max_start_of_zero_duration.
  reflexivity.
Defined.

(* ================================================================== *)
(** * The Batch Driver *)
(* ================================================================== *)

Section BatchDriver.
Context {G : BitGenerator}.
Import PyRand.

Lemma batch_loop_step (a : args) (i : Z) (rest : list Z) (s : state)
  (w : world) :
  batch_loop a (i :: rest) s w
  = match next_audio a s with
    | Raise e => (Aborted e, w)
    | Ok (audio, s') =>
        match sf_write (out_path a i) audio w with
        | Raise e => (Aborted e, w)
        | Ok w' => batch_loop a rest s' w'
        end
    end.
Proof. reflexivity. Qed.

(** A write that fails ends the loop: the exception leaves [main], the
    remaining indices are not visited. *)
Lemma batch_loop_write_failure (a : args) (i : Z) (rest : list Z)
  (s s' : state) (w : world) (audio : np.ndarray) :
  next_audio a s = Ok (audio, s') ->
  writable w (out_path a i) = false ->
  batch_loop a (i :: rest) s w
  = (Aborted (RuntimeError "Error opening file: System error."), w).
Proof.
  intros Ea Hw. rewrite batch_loop_step, Ea.
  unfold sf_write. rewrite Hw. reflexivity.
Qed.

Lemma next_audio_ok (a : args) (s : state) :
  (min_events a <= max_events a)%Z ->
  1 <= IZR SR * duration a ->
  exists audio s', next_audio a s = Ok (audio, s').
Proof.
  intros Hm Hd. unfold next_audio.
  destruct (randint_ok (min_events a) (max_events a + 1) s ltac:(lia))
    as [k [s1 [E _]]].
  rewrite (bind_ok _ _ _ _ _ E).
  destruct (generate_mixture_ok (duration a) (Some k) s1 Hd)
    as [out [s2 [Eo _]]].
  eauto.
Qed.

(** With every path writable and valid arguments the loop runs to its
    end. *)
Lemma batch_loop_completes (a : args) (idxs : list Z) (s : state) (w : world) :
  (forall p, writable w p = true) ->
  (min_events a <= max_events a)%Z ->
  1 <= IZR SR * duration a ->
  fst (batch_loop a idxs s w) = Completed.
Proof.
  intros Hw Hm Hd. revert s w Hw.
  induction idxs as [| i rest IH]; intros s w Hw; [reflexivity |].
  rewrite batch_loop_step.
  destruct (next_audio_ok a s Hm Hd) as [audio [s' E]]. rewrite E.
  unfold sf_write. rewrite Hw.
  apply IH. intros p. simpl. apply Hw.
Qed.

(** The buffers written by the loop are an initial part of [mixtures], and
    all of it when the loop completes. *)
Lemma batch_loop_buffers (a : args) (idxs : list Z) (s : state) (w : world) :
  exists k : nat,
    map snd (files (snd (batch_loop a idxs s w)))
    = map snd (files w) ++ firstn k (mixtures a (length idxs) s)
    /\ (fst (batch_loop a idxs s w) = Completed ->
        firstn k (mixtures a (length idxs) s) = mixtures a (length idxs) s).
Proof.
  revert s w. induction idxs as [| i rest IH]; intros s w.
  - exists 0%nat. simpl. rewrite app_nil_r. split; reflexivity.
  - rewrite batch_loop_step. simpl mixtures.
    destruct (next_audio a s) as [[audio s'] | e].
    + unfold sf_write. destruct (writable w (out_path a i)).
      * destruct (IH s' (mkWorld (writable w) (files w ++ [(out_path a i, audio)])))
          as [k [Hk Hc]].
        exists (S k). split.
        -- rewrite Hk. simpl files. rewrite map_app, <- app_assoc.
           reflexivity.
        -- intros Hdone. simpl. f_equal. apply Hc. assumption.
      * exists 0%nat. simpl. rewrite app_nil_r.
        split; [reflexivity | discriminate].
    + exists 0%nat. simpl. rewrite app_nil_r. split; reflexivity.
Qed.

Lemma main_seeded (a : args) (s0 : state) (w : world) :
  (0 <= seed_arg a < 2 ^ 32)%Z ->
  main a s0 w = batch_loop a (py_range (num a)) (rk_seed (seed_arg a)) w.
Proof.
  intros H. unfold main, seed.
  destruct (Z.leb_spec 0 (seed_arg a)); [| lia].
  destruct (Z.ltb_spec (seed_arg a) (2 ^ 32)); [| lia].
  reflexivity.
Qed.

Lemma main_bad_seed (a : args) (s0 : state) (w : world) :
  ~ (0 <= seed_arg a < 2 ^ 32)%Z ->
  snd (main a s0 w) = w.
Proof.
  intros H. unfold main, seed.
  destruct (Z.leb_spec 0 (seed_arg a));
    destruct (Z.ltb_spec (seed_arg a) (2 ^ 32)); try lia; reflexivity.
Qed.

Lemma seed_range_dec (z : Z) :
  {(0 <= z < 2 ^ 32)%Z} + {~ (0 <= z < 2 ^ 32)%Z}.
Proof.
  destruct (Z_le_dec 0 z); destruct (Z_lt_dec z (2 ^ 32));
    (left; lia) || (right; lia).
Qed.

(** What a run writes is an initial part of the sequence fixed by the
    seed and the generation parameters. *)
Lemma written_buffers_prefix (a : args) (s0 : state) (w : world) :
  exists k : nat,
    written_buffers a s0 w
    = firstn k (mixtures a (Z.to_nat (num a)) (rk_seed (seed_arg a)))
    /\ (fst (main a s0 w) = Completed ->
        written_buffers a s0 w
        = mixtures a (Z.to_nat (num a)) (rk_seed (seed_arg a))).
Proof.
  unfold written_buffers.
  destruct (seed_range_dec (seed_arg a)) as [Hs | Hs].
  - rewrite main_seeded by assumption.
    destruct (batch_loop_buffers a (py_range (num a)) (rk_seed (seed_arg a)) w)
      as [k [Hk Hc]].
    assert (Hl : length (py_range (num a)) = Z.to_nat (num a))
      by (unfold py_range; rewrite length_map, length_seq; reflexivity).
    rewrite Hl in Hk, Hc.
    exists k. rewrite Hk, <- (length_map snd (files w)).
    rewrite skipn_app, skipn_all, Nat.sub_diag. simpl.
    split; [reflexivity | assumption].
  - exists 0%nat. rewrite main_bad_seed by assumption.
    rewrite <- (length_map snd (files w)), skipn_all.
    split; [reflexivity |].
    unfold main, seed.
    destruct (Z.leb_spec 0 (seed_arg a));
      destruct (Z.ltb_spec (seed_arg a) (2 ^ 32)); try lia; discriminate.
Qed.

(** [mixtures] reads only the generation parameters of the arguments. *)
Lemma mixtures_ext (a1 a2 : args) (n : nat) (s : state) :
  duration a1 = duration a2 ->
  min_events a1 = min_events a2 ->
  max_events a1 = max_events a2 ->
  mixtures a1 n s = mixtures a2 n s.
Proof.
  intros Hd Hlo Hhi. revert s. induction n as [| n IH]; intros s;
    [reflexivity |].
  simpl. unfold next_audio. rewrite Hd, Hlo, Hhi.
  match goal with |- context [match ?m with _ => _ end] => destruct m as [[audio s'] | e] end;
    [| reflexivity].
  rewrite IH. reflexivity.
Qed.

(** C5. Two runs of the Batch Driver with the same seed, number of
    samples, duration and event-count bounds, started from any two states
    of the global random stream, with any output folders, start indices
    and file systems, hand the same sample buffers in the same order to the
    writer when both run to completion; if a run is cut short, what it
    wrote is an initial part of that same sequence. *)
Theorem batch_driver_deterministic (a1 a2 : args) (s1 s2 : state)
  (w1 w2 : world) :
  seed_arg a1 = seed_arg a2 ->
  num a1 = num a2 ->
  duration a1 = duration a2 ->
  min_events a1 = min_events a2 ->
  max_events a1 = max_events a2 ->
  (fst (main a1 s1 w1) = Completed ->
   fst (main a2 s2 w2) = Completed ->
   written_buffers a1 s1 w1 = written_buffers a2 s2 w2)
  /\ exists (common : list np.ndarray) (k1 k2 : nat),
       written_buffers a1 s1 w1 = firstn k1 common
       /\ written_buffers a2 s2 w2 = firstn k2 common.
Proof.
  intros Hseed Hnum Hd Hlo Hhi.
  destruct (written_buffers_prefix a1 s1 w1) as [k1 [P1 C1]].
  destruct (written_buffers_prefix a2 s2 w2) as [k2 [P2 C2]].
  rewrite <- Hseed, <- Hnum in P2, C2.
  rewrite <- (mixtures_ext a1 a2) in P2, C2 by assumption.
  split.
  - intros D1 D2. rewrite C1, C2 by assumption. reflexivity.
  - eauto.
Qed.

End BatchDriver.

Lemma batch_driver_deterministic_witness :
  @written_buffers counter_generator
    (mkArgs "out_a" 2 7 0 1 4 42) 0%nat (mkWorld (fun _ => true) [])
  = @written_buffers counter_generator
      (mkArgs "out_b" 2 7 100 1 4 42) 9%nat
      (mkWorld (fun _ => true) [("old.wav"%string, [0])]).
Proof.
  destruct (@batch_driver_deterministic counter_generator
              (mkArgs "out_a" 2 7 0 1 4 42) (mkArgs "out_b" 2 7 100 1 4 42)
              0%nat 9%nat (mkWorld (fun _ => true) [])
              (mkWorld (fun _ => true) [("old.wav"%string, [0])]))
    as [H _]; try reflexivity.
  apply H.
  - rewrite main_seeded by (simpl; lia).
    apply batch_loop_completes; simpl; try lia; try reflexivity.
    unfold SR. lra.
  - rewrite main_seeded by (simpl; lia).
    apply batch_loop_completes; simpl; try lia; try reflexivity.
    unfold SR. lra.
Defined.

(* ================================================================== *)
(** * Failures inside a batch *)
(* ================================================================== *)

Module StandardizeFacts.
Import Standardize.

Lemma convert_attempted (E : env) (src dst bin : string) (st st' : state) :
  convert E src dst bin st = Ok st' ->
  attempted st' = attempted st ++ [dst].
Proof.
  unfold convert. destruct (subprocess_run E _) as [[rc out] | e];
    [| discriminate].
  destruct (rc =? 0)%Z; [| discriminate].
  intros [= <-]. reflexivity.
Qed.

Lemma loop_step_skipped (E : env) (a : args) (bin : string) (idx : nat)
  (f : string) (rest : list string) (st : state) :
  exists_ (dst_path a idx) st && negb (overwrite a) = true ->
  standardize_loop E a bin idx (f :: rest) st
  = standardize_loop E a bin (S idx) rest st.
Proof. intros H. simpl. rewrite H. reflexivity. Qed.

Lemma loop_step_converted (E : env) (a : args) (bin : string) (idx : nat)
  (f : string) (rest : list string) (st st' : state) :
  exists_ (dst_path a idx) st && negb (overwrite a) = false ->
  convert E f (dst_path a idx) bin st = Ok st' ->
  standardize_loop E a bin idx (f :: rest) st
  = standardize_loop E a bin (S idx) rest st'.
Proof. intros H Hc. simpl. rewrite H, Hc. reflexivity. Qed.

(** The [except] clause: the failure becomes one printed line and the loop
    moves on to the next index. *)
Lemma loop_step_failed (E : env) (a : args) (bin : string) (idx : nat)
  (f : string) (rest : list string) (st : state) (e : exn) :
  exists_ (dst_path a idx) st && negb (overwrite a) = false ->
  convert E f (dst_path a idx) bin st = Raise e ->
  standardize_loop E a bin idx (f :: rest) st
  = standardize_loop E a bin (S idx) rest
      (after_failure (dst_path a idx) st
         ("[WARN] Failed " ++ f ++ ": " ++ exn_message e)).
Proof. intros H Hc. simpl. rewrite H, Hc. reflexivity. Qed.

Lemma loop_completes (E : env) (a : args) (bin : string) (idx : nat)
  (fs : list string) (st : state) :
  fst (standardize_loop E a bin idx fs st) = Completed.
Proof.
  revert idx st. induction fs as [| f rest IH]; intros idx st;
    [reflexivity |].
  simpl.
  destruct (exists_ (dst_path a idx) st && negb (overwrite a)); [apply IH |].
  destruct (convert E f (dst_path a idx) bin st); apply IH.
Qed.

Lemma main_completes (E : env) (a : args) (st : state) :
  fst (main E a st) = Completed.
Proof.
  unfold main. destruct (find_ffmpeg E) as [bin |]; [| reflexivity].
  destruct (discover E (input a)) as [| f fs]; [reflexivity |].
  pose proof (loop_completes E a bin 0 (f :: fs)
                (print ("[INFO] Using ffmpeg at " ++ bin) st)) as H.
  destruct (standardize_loop E a bin 0 (f :: fs) _) as [o st2].
  simpl in H. subst o. reflexivity.
Qed.

(** With [--overwrite] every discovered file is attempted, in order,
    whichever conversions fail. *)
Lemma loop_attempts_all (E : env) (a : args) (bin : string) (idx : nat)
  (fs : list string) (st : state) :
  overwrite a = true ->
  attempted (snd (standardize_loop E a bin idx fs st))
  = attempted st ++ map (dst_path a) (seq idx (length fs)).
Proof.
  intros Ho. revert idx st. induction fs as [| f rest IH]; intros idx st.
  - simpl. rewrite app_nil_r. reflexivity.
  - simpl. rewrite Ho, andb_false_r.
    destruct (convert E f (dst_path a idx) bin st) as [st' | e] eqn:Ec.
    + rewrite IH, (convert_attempted _ _ _ _ _ _ Ec), <- app_assoc.
      reflexivity.
    + rewrite IH. simpl. rewrite <- app_assoc. reflexivity.
Qed.

End StandardizeFacts.

(** C9, as the code has it.  In the standardization script a failure while
    converting one file is caught, printed as a warning, and the loop goes
    on with the next index: the loop and [main] always run to completion
    and, with overwriting on, every discovered file is attempted.  The
    Batch Driver has no handler: when writing the file of one index fails,
    the exception leaves the loop, the run is aborted and the remaining
    indices are not visited. *)
Theorem skip_and_continue_only_in_standardize {G : BitGenerator} :
  (forall E a bin idx f rest st e,
      Standardize.exists_ (Standardize.dst_path a idx) st
        && negb (Standardize.overwrite a) = false ->
      Standardize.convert E f (Standardize.dst_path a idx) bin st = Raise e ->
      Standardize.standardize_loop E a bin idx (f :: rest) st
      = Standardize.standardize_loop E a bin (S idx) rest
          (Standardize.after_failure (Standardize.dst_path a idx) st
             ("[WARN] Failed " ++ f ++ ": " ++ Standardize.exn_message e)))
  /\ (forall E a bin idx fs st,
         fst (Standardize.standardize_loop E a bin idx fs st) = Completed)
  /\ (forall E a st, fst (Standardize.main E a st) = Completed)
  /\ (forall E a bin idx fs st,
         Standardize.overwrite a = true ->
         Standardize.attempted
           (snd (Standardize.standardize_loop E a bin idx fs st))
         = Standardize.attempted st
           ++ map (Standardize.dst_path a) (seq idx (length fs)))
  /\ (forall a i rest s s' w audio,
         next_audio a s = Ok (audio, s') ->
         writable w (out_path a i) = false ->
         batch_loop a (i :: rest) s w
         = (Aborted (RuntimeError "Error opening file: System error."), w)).
Proof.
  split; [intros; apply StandardizeFacts.loop_step_failed; assumption |].
  split; [intros; apply StandardizeFacts.loop_completes |].
  split; [intros; apply StandardizeFacts.main_completes |].
  split; [intros; apply StandardizeFacts.loop_attempts_all; assumption |].
  intros a i rest s s' w audio Ea Hw.
  eapply batch_loop_write_failure; eassumption.
Qed.

(** Two files, a transcoder that exits with status 1 on both: both are
    attempted. *)
Lemma skip_and_continue_only_in_standardize_witness :
  Standardize.attempted
    (snd (Standardize.standardize_loop
            (Standardize.mkEnv (Some "ffmpeg"%string)
               (fun _ => ["a.mp3"; "b.mp3"]%string)
               (fun _ => Ok (1%Z, "Invalid data"%string)))
            (Standardize.mkArgs "in" "out" "noncry" true)
            "ffmpeg" 0 ["a.mp3"; "b.mp3"]%string
            (Standardize.mkState [] [] [])))
  = ["out/noncry_00000.wav"; "out/noncry_00001.wav"]%string.
Proof.
  destruct (@skip_and_continue_only_in_standardize counter_generator)
    as [_ [_ [_ [H _]]]].
  rewrite H by reflexivity.
  reflexivity.
Defined.

(** The Batch Driver asked for two files when the first path cannot be
    written: the run is aborted by the write error and nothing is written,
    although the second path was writable. *)
Lemma batch_driver_aborts_on_write_error :
  writable (mkWorld (fun p => negb (String.eqb p "out/noncry_00000.wav")) [])
    "out/noncry_00001.wav" = true
  /\ @main counter_generator (mkArgs "out" 2 7 0 1 4 42) 0%nat
       (mkWorld (fun p => negb (String.eqb p "out/noncry_00000.wav")) [])
     = (Aborted (RuntimeError "Error opening file: System error."),
        mkWorld (fun p => negb (String.eqb p "out/noncry_00000.wav")) []).
Proof.
  split; [reflexivity |].
  rewrite main_seeded by (simpl; lia).
  destruct (@next_audio_ok counter_generator (mkArgs "out" 2 7 0 1 4 42)
              (rk_seed 42)) as [audio [s' E]].
  - simpl. lia.
  - simpl. unfold SR. lra.
  - change (py_range (num (mkArgs "out" 2 7 0 1 4 42))) with [0%Z; 1%Z].
    simpl seed_arg.
    apply (batch_loop_write_failure _ _ _ _ _ _ _ E).
    reflexivity.
Qed.

(* ================================================================== *)
(** * File names: zero-padded indices *)
(* ================================================================== *)

Lemma digit_value_char (d : nat) :
  (d < 10)%nat -> digit_value (digit_char d) = d.
Proof.
  intros H. unfold digit_value, digit_char.
  rewrite nat_ascii_embedding by lia. lia.
Qed.

Lemma digit_char_not_minus (d : nat) :
  (d < 10)%nat -> Ascii.eqb (digit_char d) "-" = false.
Proof.
  intros H. apply Ascii.eqb_neq. intros E.
  apply (f_equal nat_of_ascii) in E. unfold digit_char in E.
  rewrite nat_ascii_embedding in E by lia.
  change (nat_of_ascii "-") with 45%nat in E. lia.
Qed.

Lemma mod_10_lt (n : nat) : (n mod 10 < 10)%nat.
Proof. apply Nat.mod_upper_bound. lia. Qed.

Lemma decimal_value_cons (c : ascii) (s : string) :
  decimal_value (String c s)
  = (digit_value c * 10 ^ String.length s + decimal_value s)%nat.
Proof. reflexivity. Qed.

Lemma digits_aux_step (fuel n : nat) (acc : string) :
  digits_aux (S fuel) n acc
  = if Nat.ltb n 10 then String (digit_char (n mod 10)) acc
    else digits_aux fuel (n / 10) (String (digit_char (n mod 10)) acc).
Proof. reflexivity. Qed.

Lemma digits_aux_value (fuel n : nat) (acc : string) :
  (n < 10 ^ fuel)%nat ->
  decimal_value (digits_aux fuel n acc)
  = (n * 10 ^ String.length acc + decimal_value acc)%nat.
Proof.
  revert n acc. induction fuel as [| fuel IH]; intros n acc Hn.
  - rewrite Nat.pow_0_r in Hn. assert (n = 0)%nat by lia. subst.
    reflexivity.
  - rewrite digits_aux_step. destruct (Nat.ltb_spec n 10) as [Hlt | Hge].
    + rewrite decimal_value_cons, digit_value_char by apply mod_10_lt.
      rewrite Nat.mod_small by assumption. reflexivity.
    + rewrite IH.
      * rewrite decimal_value_cons, digit_value_char by apply mod_10_lt.
        change (String.length (String (digit_char (n mod 10)) acc))
          with (S (String.length acc)).
        rewrite Nat.pow_succ_r'.
        pose proof (Nat.div_mod_eq n 10) as Hdm.
        set (q := (n / 10)%nat) in *. set (r := (n mod 10)%nat) in *.
        set (p := (10 ^ String.length acc)%nat). rewrite Hdm. ring.
      * rewrite Nat.pow_succ_r' in Hn.
        apply Nat.Div0.div_lt_upper_bound. lia.
Qed.

Lemma digits_value (n : nat) : decimal_value (digits n) = n.
Proof.
  unfold digits. rewrite digits_aux_value.
  - change (String.length EmptyString) with 0%nat.
    change (decimal_value EmptyString) with 0%nat.
    rewrite Nat.pow_0_r. lia.
  - apply Nat.lt_le_trans with (10 ^ n)%nat.
    + apply Nat.pow_gt_lin_r. lia.
    + apply Nat.pow_le_mono_r; lia.
Qed.

Lemma zero_pad_value (k : nat) (s : string) :
  decimal_value (zero_pad k s) = decimal_value s.
Proof.
  induction k as [| k IH]; [reflexivity |].
  change (zero_pad (S k) s) with (String "0"%char (zero_pad k s)).
  rewrite decimal_value_cons, IH. reflexivity.
Qed.

Lemma zero_pad_length (k : nat) (s : string) :
  String.length (zero_pad k s) = (k + String.length s)%nat.
Proof.
  induction k as [| k IH]; [reflexivity |]. simpl. rewrite IH. reflexivity.
Qed.

(** The first character of a padded run of digits is a digit. *)
Lemma digits_aux_head (fuel n : nat) (acc : string) :
  exists d rest,
    digits_aux (S fuel) n acc = String (digit_char d) rest /\ (d < 10)%nat.
Proof.
  revert n acc. induction fuel as [| fuel IH]; intros n acc.
  - rewrite digits_aux_step. destruct (Nat.ltb n 10); eexists _, _;
      (split; [reflexivity | apply mod_10_lt]).
  - rewrite digits_aux_step.
    destruct (Nat.ltb n 10).
    + eexists _, _. split; [reflexivity | apply mod_10_lt].
    + apply IH.
Qed.

Lemma zero_pad_head (k : nat) (n : nat) :
  exists d rest,
    zero_pad k (digits n) = String (digit_char d) rest /\ (d < 10)%nat.
Proof.
  destruct k as [| k].
  - apply digits_aux_head.
  - exists 0%nat, (zero_pad k (digits n)). split; [reflexivity | lia].
Qed.

Lemma digits_aux_length_le (fuel k n : nat) (acc : string) :
  (n < 10 ^ fuel)%nat -> (n < 10 ^ k)%nat -> (1 <= k)%nat ->
  (String.length (digits_aux fuel n acc) <= k + String.length acc)%nat.
Proof.
  revert k n acc. induction fuel as [| fuel IH]; intros k n acc Hf Hk H1.
  - simpl. lia.
  - rewrite digits_aux_step. destruct (Nat.ltb_spec n 10) as [Hlt | Hge].
    + simpl String.length. lia.
    + destruct k as [| [| k]]; [lia | rewrite Nat.pow_1_r in Hk; lia |].
      specialize (IH (S k) (n / 10)%nat
                    (String (digit_char (n mod 10)) acc)).
      rewrite Nat.pow_succ_r' in Hf. rewrite (Nat.pow_succ_r' 10 (S k)) in Hk.
      assert (n / 10 < 10 ^ fuel)%nat
        by (apply Nat.Div0.div_lt_upper_bound; lia).
      assert (n / 10 < 10 ^ S k)%nat
        by (apply Nat.Div0.div_lt_upper_bound; lia).
      specialize (IH ltac:(assumption) ltac:(assumption) ltac:(lia)).
      change (String.length (String (digit_char (n mod 10)) acc))
        with (S (String.length acc)) in IH.
      lia.
Qed.

Lemma digits_length_le (k n : nat) :
  (n < 10 ^ k)%nat -> (1 <= k)%nat -> (String.length (digits n) <= k)%nat.
Proof.
  intros Hk H1. unfold digits.
  pose proof (digits_aux_length_le (S n) k n EmptyString) as H.
  simpl String.length in H. rewrite Nat.add_0_r in H. apply H; try assumption.
  apply Nat.lt_le_trans with (10 ^ n)%nat.
  - apply Nat.pow_gt_lin_r. lia.
  - apply Nat.pow_le_mono_r; lia.
Qed.

Lemma fmt_05d_as_padded (z : Z) : fmt_05d z = fmt_zero_padded 5 z.
Proof. reflexivity. Qed.

Lemma parse_fmt_zero_padded (w : nat) (z : Z) :
  parse_int (fmt_zero_padded w z) = z.
Proof.
  unfold fmt_zero_padded.
  destruct (Z.ltb_spec z 0) as [Hneg | Hpos].
  - unfold parse_int. change (Ascii.eqb "-" "-") with true. cbv iota.
    rewrite zero_pad_value, digits_value. lia.
  - destruct (zero_pad_head (w - String.length (digits (Z.abs_nat z)))
                (Z.abs_nat z)) as [d [rest [E Hd]]].
    unfold parse_int. rewrite E, digit_char_not_minus by assumption.
    rewrite <- E, zero_pad_value, digits_value. lia.
Qed.

Lemma parse_fmt_05d (z : Z) : parse_int (fmt_05d z) = z.
Proof. apply (parse_fmt_zero_padded 5). Qed.

(** X1. Reading a zero-padded index back gives the index: for every width
    and every integer, negative ones included, [parse_int] of the formatted
    text is the integer that was formatted. *)
Theorem fmt_zero_padded_round_trip (width : nat) (z : Z) :
  parse_int (fmt_zero_padded width z) = z
  /\ parse_int (fmt_05d z) = z
  /\ parse_int (fmt_03d z) = z.
Proof.
  split; [apply parse_fmt_zero_padded |].
  split; [rewrite fmt_05d_as_padded |]; apply parse_fmt_zero_padded.
Qed.

(** X2. A formatted index is never shorter than the width, and an index
    with at most [width] digits (0 <= z < 10^width) is formatted on exactly
    [width] characters: five for the mixtures, three for the soundbank. *)
Theorem fmt_zero_padded_width (width : nat) (z : Z) :
  (width <= String.length (fmt_zero_padded width z))%nat
  /\ ((1 <= width)%nat -> (0 <= z < 10 ^ Z.of_nat width)%Z ->
      String.length (fmt_zero_padded width z) = width)
  /\ ((0 <= z < 100000)%Z -> String.length (fmt_05d z) = 5%nat)
  /\ ((0 <= z < 1000)%Z -> String.length (fmt_03d z) = 3%nat).
Proof.
  assert (Hexact : forall w, (1 <= w)%nat -> (0 <= z < 10 ^ Z.of_nat w)%Z ->
                             String.length (fmt_zero_padded w z) = w).
  { intros w Hw Hz. unfold fmt_zero_padded.
    destruct (Z.ltb_spec z 0) as [Hneg | _]; [lia |].
    rewrite zero_pad_length.
    assert (Hn : (Z.abs_nat z < 10 ^ w)%nat).
    { apply Nat2Z.inj_lt. rewrite Nat2Z.inj_pow, Zabs2Nat.id_abs. simpl.
      rewrite Z.abs_eq; lia. }
    pose proof (digits_length_le w (Z.abs_nat z) Hn Hw). lia. }
  split.
  - unfold fmt_zero_padded. destruct (z <? 0)%Z; simpl;
      rewrite zero_pad_length; lia.
  - split; [apply Hexact |].
    split; intros Hz; [rewrite fmt_05d_as_padded |]; apply Hexact;
      simpl; try lia.
Qed.

Lemma fmt_zero_padded_width_witness :
  String.length (fmt_zero_padded 4 37) = 4%nat.
Proof.
  destruct (fmt_zero_padded_width 4 37) as [_ [H _]].
  apply H; simpl; lia.
Defined.

Lemma string_length_append (a b : string) :
  String.length (a ++ b) = (String.length a + String.length b)%nat.
Proof.
  induction a as [| c a IH]; [reflexivity |]. simpl. rewrite IH. reflexivity.
Qed.

Lemma string_app_inv_head (p a b : string) :
  (p ++ a)%string = (p ++ b)%string -> a = b.
Proof.
  induction p as [| c p IH]; simpl; [auto |].
  intros [= E]. apply IH. assumption.
Qed.

Lemma string_app_inv_tail (a b t : string) :
  (a ++ t)%string = (b ++ t)%string -> a = b.
Proof.
  revert b. induction a as [| c a IH]; intros [| c' b] E.
  - reflexivity.
  - apply (f_equal String.length) in E. simpl in E.
    rewrite string_length_append in E. lia.
  - apply (f_equal String.length) in E. simpl in E.
    rewrite string_length_append in E. lia.
  - simpl in E. injection E as -> E. f_equal. apply IH. assumption.
Qed.

(** X3. Within one run of the Batch Driver two different loop indices
    never get the same output path, so no mixture overwrites another one of
    the same run; the same holds for the destinations of the
    standardization script. *)
Theorem output_paths_distinct (a : SyntheticNoncry.args)
  (b : Standardize.args) :
  (forall i j : Z,
      SyntheticNoncry.out_path a i = SyntheticNoncry.out_path a j -> i = j)
  /\ (forall i j : nat,
         Standardize.dst_path b i = Standardize.dst_path b j -> i = j).
Proof.
  split.
  - intros i j E. unfold SyntheticNoncry.out_path, path_join in E.
    do 3 apply string_app_inv_head in E.
    apply string_app_inv_tail in E.
    apply (f_equal parse_int) in E.
    rewrite (parse_fmt_05d (SyntheticNoncry.start_index_arg a + i)),
      (parse_fmt_05d (SyntheticNoncry.start_index_arg a + j)) in E.
    lia.
  - intros i j E. unfold Standardize.dst_path, path_join in E.
    do 4 apply string_app_inv_head in E.
    apply string_app_inv_tail in E.
    apply (f_equal parse_int) in E.
    rewrite (parse_fmt_05d (Z.of_nat i)), (parse_fmt_05d (Z.of_nat j)) in E.
    lia.
Qed.

(* ================================================================== *)
(** * More on the Event Compositor *)
(* ================================================================== *)

(** X4. Inside the overlap window of a call with a non-negative onset
    index, each sample of the result is the sample that was there plus the
    matching event sample times the one gain of the call. *)
Theorem add_event_at_time_window_values (signal event : np.ndarray)
  (t snr : R) (i : nat) :
  (0 <= start_index t)%Z ->
  (Z.of_nat i < overlap_length signal event t)%Z ->
  exists out x e,
    add_event_at_time signal event t snr = Ok out
    /\ nth_error signal (Z.to_nat (start_index t) + i) = Some x
    /\ nth_error event i = Some e
    /\ nth_error out (Z.to_nat (start_index t) + i)
       = Some (x + e * applied_scale signal event t snr).
Proof.
  intros Hs Hi.
  assert (Hw : (0 < overlap_length signal event t)%Z) by lia.
  pose proof (overlap_length_bound signal event t) as Hb.
  pose proof (overlay_fits signal event t
                (applied_scale signal event t snr) Hs Hw) as Hfit.
  set (lo := Z.to_nat (start_index t)) in *.
  set (w := Z.to_nat (overlap_length signal event t)) in *.
  set (g := applied_scale signal event t snr) in *.
  assert (Hiw : (i < w)%nat) by (unfold w; lia).
  assert (Hwe : (w <= length event)%nat) by (unfold w, len in *; lia).
  assert (Hlen : length (map (fun e => e * g) (firstn w event)) = w)
    by (rewrite length_map, length_firstn; lia).
  rewrite Hlen in Hfit.
  destruct (nth_error signal (lo + i)) as [x |] eqn:Ex;
    [| apply nth_error_None in Ex; lia].
  destruct (nth_error event i) as [e |] eqn:Ee;
    [| apply nth_error_None in Ee; lia].
  eexists _, x, e.
  split; [apply add_event_at_time_overlay; assumption |].
  split; [reflexivity |]. split; [reflexivity |].
  fold lo w g. apply overlay_inside.
  - rewrite Hlen. assumption.
  - assumption.
  - rewrite nth_error_map, nth_error_firstn.
    destruct (Nat.ltb_spec i w); [| lia].
    rewrite Ee. reflexivity.
Qed.

Lemma add_event_at_time_window_values_witness :
  exists out x e,
    add_event_at_time [0; 0] [1] (IZR 1 / IZR SR) 10 = Ok out
    /\ nth_error [0; 0] (1 + 0) = Some x
    /\ nth_error [1] 0 = Some e
    /\ nth_error out (1 + 0)
       = Some (x + e * applied_scale [0; 0] [1] (IZR 1 / IZR SR) 10).
Proof.
  assert (Hs : start_index (IZR 1 / IZR SR) = 1%Z)
    by apply start_index_of_samples.
  pose proof (add_event_at_time_window_values [0; 0] [1] (IZR 1 / IZR SR) 10
                0%nat) as H.
  rewrite Hs in H. apply H.
  - lia.
  - unfold overlap_length, len. rewrite Hs. simpl. lia.
Defined.

Lemma above_eps_inv (p : option R) :
  above_eps p = true -> exists v, p = Some v /\ v > 1e-10.
Proof.
  destruct p as [v |]; simpl; [| discriminate].
  destruct (Rgt_dec v 1e-10); [| discriminate].
  intros _. exists v. split; [reflexivity | assumption].
Qed.

Lemma snr_scale_cases (sp ep : option R) (snr : R) :
  (exists s e, sp = Some s /\ ep = Some e /\ s > 1e-10 /\ e > 1e-10
               /\ snr_scale sp ep snr = sqrt (s / e) * Rpower 10 (snr / 20))
  \/ (forall snr', snr_scale sp ep snr' = 1).
Proof.
  unfold snr_scale.
  destruct (above_eps ep) eqn:He; [| right; intros; simpl; lra].
  destruct (above_eps sp) eqn:Hs; [| right; intros; simpl; lra].
  destruct (above_eps_inv _ He) as [e [-> Hep]].
  destruct (above_eps_inv _ Hs) as [s [-> Hsp]].
  left. exists s, e. simpl. repeat split; assumption.
Qed.

Lemma snr_scale_positive (sp ep : option R) (snr : R) :
  0 < snr_scale sp ep snr.
Proof.
  destruct (snr_scale_cases sp ep snr) as [[s [e [Es [Ee [Hs [He H]]]]]] | H].
  - rewrite H. apply Rmult_lt_0_compat.
    + apply sqrt_lt_R0. apply Rdiv_lt_0_compat; lra.
    + unfold Rpower. apply exp_pos.
  - rewrite H. lra.
Qed.

Lemma applied_scale_positive_pointwise (signal event : np.ndarray)
  (t snr : R) :
  0 < applied_scale signal event t snr.
Proof. unfold applied_scale. apply snr_scale_positive. Qed.

(** X5. The gain [add_event_at_time] multiplies the event by is always
    strictly positive, so an event is never muted or inverted, and it never
    decreases when the requested SNR increases. *)
Theorem applied_scale_positive_monotone (signal event : np.ndarray) (t : R) :
  (forall snr, 0 < applied_scale signal event t snr)
  /\ (forall snr1 snr2,
         snr1 <= snr2 ->
         applied_scale signal event t snr1
         <= applied_scale signal event t snr2).
Proof.
  unfold applied_scale.
  set (sp := np.mean _). set (ep := np.mean _).
  split.
  - intros snr. apply snr_scale_positive.
  - intros snr1 snr2 Hle.
    destruct (snr_scale_cases sp ep snr1) as [[s [e [Es [Ee [Hs [He H]]]]]] | H].
    + rewrite H. unfold snr_scale. rewrite Es, Ee.
      rewrite !above_eps_true by assumption. simpl.
      apply Rmult_le_compat_l; [apply sqrt_pos |].
      apply Rle_Rpower; lra.
    + rewrite !H. lra.
Qed.

(** X6. An empty event changes nothing, whatever the onset (a negative
    one included), and nothing can be added to an empty mixture at a
    non-negative onset: both calls return the buffer as it was. *)
Theorem add_event_at_time_empty (signal event : np.ndarray) (t snr : R) :
  add_event_at_time signal [] t snr = Ok signal
  /\ ((0 <= start_index t)%Z -> add_event_at_time [] event t snr = Ok []).
Proof.
  split.
  - apply add_event_at_time_skip. unfold overlap_length, len. simpl. lia.
  - intros Hs. apply add_event_at_time_skip.
    unfold overlap_length, len. simpl. lia.
Qed.

Lemma add_event_at_time_empty_witness :
  add_event_at_time [] [1; 2] (IZR 0 / IZR SR) 10 = Ok [].
Proof.
  destruct (add_event_at_time_empty [] [1; 2] (IZR 0 / IZR SR) 10) as [_ H].
  apply H. rewrite start_index_of_samples. lia.
Defined.

(* ================================================================== *)
(** * More on peak normalisation *)
(* ================================================================== *)

Lemma map_rescale_id (x : np.ndarray) (m : R) :
  m <> 0 -> map (fun v => v / m * m) x = x.
Proof.
  intros Hm. rewrite <- (map_id x) at 2. apply map_ext.
  intros v. field. assumption.
Qed.

(** X7. Normalising is idempotent: a non-empty buffer normalised with the
    default target is returned unchanged by a second normalisation, in the
    Orchestrator's [normalize] and in the soundbank's. *)
Theorem normalize_idempotent (x : np.ndarray) :
  x <> [] ->
  (exists y, normalize x default_max_amp = Ok y
             /\ normalize y default_max_amp = Ok y)
  /\ (exists y, Soundbank.normalize x = Ok y
                /\ Soundbank.normalize y = Ok y).
Proof.
  intros Hne. split.
  - destruct (Rgt_dec (peak x) 1e-10) as [Hgt | Hle].
    + destruct (normalize_above x default_max_amp Hgt) as [y [E [P L]]];
        [unfold default_max_amp; lra |].
      exists y. split; [assumption |].
      assert (Hy : y <> []) by (intros ->; destruct x; [congruence | discriminate]).
      unfold normalize. rewrite max_abs_peak by assumption. simpl.
      rewrite P. unfold default_max_amp.
      destruct (Rgt_dec 0.9 1e-10) as [_ | Hn]; [| lra].
      rewrite map_rescale_id by lra. reflexivity.
    + exists x. split; apply normalize_below; try assumption; lra.
  - destruct (Rlt_dec (peak x) 1e-9) as [Hlt | Hge].
    + exists x. split; apply soundbank_normalize_below; assumption.
    + destruct (soundbank_normalize_above x) as [y [E [P L]]]; [lra |].
      exists y. split; [assumption |].
      assert (Hy : y <> []) by (intros ->; destruct x; [congruence | discriminate]).
      unfold Soundbank.normalize. rewrite max_abs_peak by assumption. simpl.
      rewrite P.
      destruct (Rlt_dec 0.9 1e-9) as [Hn | _]; [lra |].
      rewrite map_rescale_id by lra. reflexivity.
Qed.

Lemma normalize_idempotent_witness :
  exists y, normalize [1; -2] default_max_amp = Ok y
            /\ normalize y default_max_amp = Ok y.
Proof.
  destruct (normalize_idempotent [1; -2]) as [H _].
  - discriminate.
  - exact H.
Defined.

(* ================================================================== *)
(** * More on the Mixture Orchestrator *)
(* ================================================================== *)

Lemma py_int_small (x : R) : -1 < x < 1 -> py_int x = 0%Z.
Proof.
  intros H. unfold py_int.
  destruct (Rle_dec 0 x) as [Hx | Hx].
  - symmetry. apply Int_part_spec. lra.
  - assert (E : 0%Z = Int_part (- x)) by (apply Int_part_spec; lra).
    rewrite <- E. reflexivity.
Qed.

Lemma py_int_negative (x : R) : x <= -1 -> (py_int x < 0)%Z.
Proof.
  intros H. unfold py_int.
  destruct (Rle_dec 0 x) as [Hx | Hx]; [lra |].
  destruct (base_Int_part (- x)) as [_ Hlo].
  assert (Hgt : IZR 0 < IZR (Int_part (- x))) by lra.
  apply lt_IZR in Hgt. lia.
Qed.

Section MixtureByDuration.
Context {G : BitGenerator}.
Import PyRand.

Lemma gen_background_no_samples (d : R) (s : state) :
  py_int (float_mul (IZR SR) d) = 0%Z ->
  exists s', gen_background d s = Ok ([], s').
Proof.
  intros H0. unfold gen_background. rewrite H0. eexists.
  assert (Et : np.linspace 0 d 0 false = Ok []) by reflexivity.
  rewrite (bind_lift_ok _ _ _ _ Et), !bind_rand. reflexivity.
Qed.

Lemma gen_background_negative (d : R) (s : state) :
  (py_int (float_mul (IZR SR) d) < 0)%Z ->
  gen_background d s
  = Raise (ValueError "Number of samples must be non-negative.").
Proof.
  intros Hn. unfold gen_background, np.linspace.
  destruct (Z.ltb_spec (py_int (float_mul (IZR SR) d)) 0);
    [reflexivity | lia].
Qed.

(** X9. For every duration of at least one sample period and every event
    count (given, drawn, zero or negative), [generate_mixture] returns
    without raising a buffer of exactly int(SR * duration) samples, at
    least one: placing events never changes the length of the mixture. *)
Theorem generate_mixture_length (duration : R) (n_events : option Z)
  (s : state) :
  1 <= IZR SR * duration ->
  exists out s',
    generate_mixture duration n_events s = Ok (out, s')
    /\ length out = n_samples duration
    /\ (1 <= length out)%nat.
Proof.
  intros H1.
  destruct (generate_mixture_ok duration n_events s H1)
    as [out [s' [E L]]].
  exists out, s'. split; [assumption |]. split; [assumption |].
  rewrite L. apply n_samples_positive. assumption.
Qed.

(** X10. Durations without a single sample make [generate_mixture] raise:
    when the computed product SR * duration is under one in absolute
    value, as it is whenever the exact product is at most 1 - 2^-53 in
    absolute value, the background is empty and the final [normalize]
    raises on the empty buffer; a duration of minus one sample period or
    less is refused by [np.linspace]. *)
Theorem generate_mixture_without_samples (duration : R)
  (n_events : option Z) (s : state) :
  (-1 < float_mul (IZR SR) duration < 1 ->
   generate_mixture duration n_events s
   = Raise (ValueError
              "zero-size array to reduction operation maximum which has no identity"))
  /\ (IZR SR * duration <= -1 ->
      generate_mixture duration n_events s
      = Raise (ValueError "Number of samples must be non-negative."))
  /\ (Rabs (IZR SR * duration) <= 1 - / IZR (2 ^ 53) ->
      -1 < float_mul (IZR SR) duration < 1).
Proof.
  split; [| split; [| apply round_double_small]].
  - intros H. unfold generate_mixture.
    destruct (gen_background_no_samples duration s (py_int_small _ H))
      as [s1 Eb].
    rewrite (bind_ok _ _ _ _ _ Eb).
    destruct (n_events_ok n_events s1) as [n [s2 En]].
    rewrite (bind_ok _ _ _ _ _ En).
    destruct (event_phase_ok (Z.to_nat n) duration [] s2)
      as [mix [s3 [Em Lm]]].
    rewrite (bind_ok _ _ _ _ _ Em).
    destruct mix; [reflexivity | discriminate].
  - intros H. unfold generate_mixture, bind at 1.
    rewrite gen_background_negative
      by (apply py_int_negative, round_double_le_m1; assumption).
    reflexivity.
Qed.

(** X11. Drawing an event never raises, and a drawn event has between 480
    samples (a click) and 36800 samples (2.3 s); so for every mixture
    duration above 2.3 s, the default 7 s included, the guard
    [max_start > 0] holds and no drawn event is left out. *)
Theorem drawn_event_size (s : state) :
  exists event s1,
    draw_event s = Ok (event, s1)
    /\ (480 <= len event <= 36800)%Z
    /\ forall duration, 2.3 < duration -> max_start duration event > 0.
Proof.
  assert (Hguard : forall event : np.ndarray,
             (480 <= len event <= 36800)%Z ->
             forall duration, 2.3 < duration ->
                              max_start duration event > 0).
  { intros event [_ Hhi] duration Hd. unfold max_start, SR.
    apply IZR_le in Hhi.
    assert (IZR (len event) / 16000 <= 2.3) by lra. lra. }
  assert (Hdur : forall u d, 0 <= u < 1 -> d = 0.3 + 2.0 * u ->
                             (4800 <= Z.of_nat (n_samples d) <= 36800)%Z).
  { intros u d Hu ->. unfold n_samples, float_mul.
    assert (Hx : 0 <= IZR SR * (0.3 + 2.0 * u)) by (unfold SR; lra).
    pose proof (round_double_nonneg _ Hx) as Hr.
    rewrite Z2Nat.id by (apply py_int_nonneg; assumption).
    split.
    - apply py_int_ge; [assumption |].
      apply round_double_ge_int; [lia | unfold SR; lra].
    - apply le_IZR.
      destruct (py_int_floor _ Hr) as [Hlo _].
      pose proof (round_double_le_int (IZR SR * (0.3 + 2.0 * u)) 36800
                    ltac:(lia) ltac:(unfold SR; lra)).
      lra. }
  unfold draw_event.
  destruct (choice_event_funcs_ok s) as [f [s1 E]].
  rewrite (bind_ok _ _ _ _ _ E).
  pose proof (rk_double_range s1) as Hu.
  specialize (Hdur _ _ Hu eq_refl).
  destruct f.
  - destruct (gen_beep_length (0.3 + 2.0 * fst (rk_double s1))
                (snd (rk_double s1)) ltac:(lra)) as [o [s2 [Eo Lo]]].
    exists o, s2.
    split; [simpl; rewrite bind_rand; assumption |].
    assert (Hb : (480 <= len o <= 36800)%Z) by (unfold len; rewrite Lo; lia).
    split; [assumption | apply Hguard; assumption].
  - destruct (gen_click_ok s1) as [o [s2 [Eo Lo]]].
    exists o, s2. split; [assumption |].
    assert (Hb : (480 <= len o <= 36800)%Z) by lia.
    split; [assumption | apply Hguard; assumption].
  - destruct (gen_whoosh_length (0.3 + 2.0 * fst (rk_double s1))
                (snd (rk_double s1)) ltac:(lra)) as [o [s2 [Eo Lo]]].
    exists o, s2.
    split; [simpl; rewrite bind_rand; assumption |].
    assert (Hb : (480 <= len o <= 36800)%Z) by (unfold len; rewrite Lo; lia).
    split; [assumption | apply Hguard; assumption].
  - destruct (gen_knock_length (0.3 + 2.0 * fst (rk_double s1))
                (snd (rk_double s1)) ltac:(lra)) as [o [s2 [Eo Lo]]].
    exists o, s2.
    split; [simpl; rewrite bind_rand; assumption |].
    assert (Hb : (480 <= len o <= 36800)%Z) by (unfold len; rewrite Lo; lia).
    split; [assumption | apply Hguard; assumption].
Qed.

End MixtureByDuration.

Lemma generate_mixture_length_witness :
  exists out s',
    @generate_mixture counter_generator 7 (Some 2%Z) 0%nat = Ok (out, s')
    /\ length out = n_samples 7
    /\ (1 <= length out)%nat.
Proof.
  apply (@generate_mixture_length counter_generator 7 (Some 2%Z) 0%nat).
  unfold SR. lra.
Defined.

(* ================================================================== *)
(** * More on the Batch Driver *)
(* ================================================================== *)

Section BatchRuns.
Context {G : BitGenerator}.
Import PyRand.

Lemma next_audio_shape (a : args) (s : state) :
  (min_events a <= max_events a)%Z ->
  1 <= IZR SR * duration a ->
  exists audio s',
    next_audio a s = Ok (audio, s')
    /\ length audio = n_samples (duration a).
Proof.
  intros Hm Hd. unfold next_audio.
  destruct (randint_ok (min_events a) (max_events a + 1) s ltac:(lia))
    as [k [s1 [E _]]].
  rewrite (bind_ok _ _ _ _ _ E).
  destruct (generate_mixture_ok (duration a) (Some k) s1 Hd)
    as [out [s2 [Eo L]]].
  exists out, s2. split; assumption.
Qed.

Lemma batch_loop_writes_all (a : args) (idxs : list Z) (s : state)
  (w : world) :
  (forall p, writable w p = true) ->
  (min_events a <= max_events a)%Z ->
  1 <= IZR SR * duration a ->
  exists bufs,
    batch_loop a idxs s w
    = (Completed,
       mkWorld (writable w)
         (files w ++ combine (map (out_path a) idxs) bufs))
    /\ length bufs = length idxs
    /\ Forall (fun b => length b = n_samples (duration a)) bufs.
Proof.
  intros Hw Hm Hd. revert s w Hw.
  induction idxs as [| i rest IH]; intros s w Hw.
  - exists []. simpl. rewrite app_nil_r. destruct w. repeat split.
    constructor.
  - rewrite batch_loop_step.
    destruct (next_audio_shape a s Hm Hd) as [audio [s' [E L]]].
    rewrite E. unfold sf_write. rewrite Hw.
    destruct (IH s' (mkWorld (writable w)
                       (files w ++ [(out_path a i, audio)])))
      as [bufs [Eb [Lb Fb]]]; [intros p; apply Hw |].
    exists (audio :: bufs). rewrite Eb. simpl.
    rewrite <- app_assoc. simpl.
    repeat split; [lia |]. constructor; assumption.
Qed.

(** X12. With a valid seed, event bounds [min_events <= max_events] within
    the 64-bit integers, a duration of at least one sample period and
    every path writable, [main] completes and appends exactly [num] files,
    named [noncry_<start_index + i>.wav] for i = 0, 1, ... in order; every
    one holds int(SR * duration) samples. *)
Theorem main_writes_every_file (a : args) (s0 : state) (w : world) :
  (forall p, writable w p = true) ->
  (0 <= seed_arg a < 2 ^ 32)%Z ->
  int64 (min_events a) -> int64 (max_events a) ->
  (min_events a <= max_events a)%Z ->
  1 <= IZR SR * duration a ->
  exists bufs,
    main a s0 w
    = (Completed,
       mkWorld (writable w)
         (files w ++ combine (map (out_path a) (py_range (num a))) bufs))
    /\ length bufs = Z.to_nat (num a)
    /\ Forall (fun b => length b = n_samples (duration a)) bufs.
Proof.
  intros Hw Hs _ _ Hm Hd. rewrite main_seeded by assumption.
  destruct (batch_loop_writes_all a (py_range (num a))
              (rk_seed (seed_arg a)) w Hw Hm Hd) as [bufs [E [L F]]].
  exists bufs. split; [assumption |]. split; [| assumption].
  rewrite L. unfold py_range. rewrite length_map, length_seq. reflexivity.
Qed.

(** X13. Arguments [main] cannot run with are refused before anything is
    written: a seed outside [0, 2^32) aborts in [np.random.seed], and
    [min_events > max_events] aborts in the first [randint] as soon as one
    sample is asked for; in both cases the files are left as they were.
    With [num <= 0] the loop body never runs and [main] completes without
    writing. *)
Theorem main_edge_arguments (a : args) (s0 : state) (w : world) :
  (~ (0 <= seed_arg a < 2 ^ 32)%Z ->
   main a s0 w
   = (Aborted (ValueError "Seed must be between 0 and 2**32 - 1"), w))
  /\ ((0 <= seed_arg a < 2 ^ 32)%Z ->
      (max_events a < min_events a)%Z -> (1 <= num a)%Z ->
      main a s0 w = (Aborted (ValueError "low >= high"), w))
  /\ ((0 <= seed_arg a < 2 ^ 32)%Z -> (num a <= 0)%Z ->
      main a s0 w = (Completed, w)).
Proof.
  split; [| split].
  - intros Hs. unfold main, seed.
    destruct (Z.leb_spec 0 (seed_arg a));
      destruct (Z.ltb_spec (seed_arg a) (2 ^ 32)); try lia; reflexivity.
  - intros Hs Hm Hn. rewrite main_seeded by assumption.
    unfold py_range.
    destruct (Z.to_nat (num a)) as [| n] eqn:En; [lia |].
    simpl map. rewrite batch_loop_step.
    unfold next_audio, bind, randint.
    destruct (Z.leb_spec (max_events a + 1) (min_events a)); [| lia].
    reflexivity.
  - intros Hs Hn. rewrite main_seeded by assumption.
    unfold py_range. replace (Z.to_nat (num a)) with 0%nat by lia.
    reflexivity.
Qed.

(** X14. The event count is uniform over a closed interval: for bounds
    within the 64-bit integers and [a <= b], [np_random_int(a, b)] of the
    Scaper script returns an integer k with a <= k <= b, and the Batch
    Driver hands such a count, between [min_events] and [max_events]
    inclusive, to [generate_mixture]; for [b < a] the draw raises. *)
Theorem event_count_in_closed_interval (a b : Z) (args0 : args) (s : state) :
  (int64 a -> int64 b -> (a <= b)%Z ->
   exists k s', Scaper.np_random_int a b s = Ok (k, s') /\ (a <= k <= b)%Z)
  /\ (int64 a -> int64 b -> (b < a)%Z ->
      Scaper.np_random_int a b s = Raise (ValueError "low >= high"))
  /\ (int64 (min_events args0) -> int64 (max_events args0) ->
      (min_events args0 <= max_events args0)%Z ->
      exists k s',
        (min_events args0 <= k <= max_events args0)%Z
        /\ next_audio args0 s
           = generate_mixture (duration args0) (Some k) s').
Proof.
  split; [| split].
  - intros _ _ H. unfold Scaper.np_random_int.
    destruct (randint_ok a (b + 1) s ltac:(lia)) as [k [s' [E Hk]]].
    exists k, s'. split; [assumption | lia].
  - intros _ _ H. unfold Scaper.np_random_int, randint.
    destruct (Z.leb_spec (b + 1) a); [reflexivity | lia].
  - intros _ _ H. unfold next_audio.
    destruct (randint_ok (min_events args0) (max_events args0 + 1) s
                ltac:(lia)) as [k [s' [E Hk]]].
    exists k, s'. split; [lia |].
    rewrite (bind_ok _ _ _ _ _ E). reflexivity.
Qed.

End BatchRuns.

Lemma main_writes_every_file_witness :
  exists bufs,
    @main counter_generator (mkArgs "out" 2 7 5 1 4 42) 0%nat
      (mkWorld (fun _ => true) [])
    = (Completed,
       mkWorld (fun _ => true)
         ([] ++ combine ["out/noncry_00005.wav"; "out/noncry_00006.wav"]%string
                  bufs))
    /\ length bufs = 2%nat
    /\ Forall (fun b => length b = n_samples 7) bufs.
Proof.
  apply (@main_writes_every_file counter_generator
           (mkArgs "out" 2 7 5 1 4 42) 0%nat (mkWorld (fun _ => true) [])).
  - reflexivity.
  - simpl. lia.
  - unfold int64. simpl. lia.
  - unfold int64. simpl. lia.
  - simpl. lia.
  - simpl. unfold SR. lra.
Defined.

(* ================================================================== *)
(** * The Soundbank Builder *)
(* ================================================================== *)

Lemma soundbank_normalize_bound (x y : np.ndarray) :
  Soundbank.normalize x = Ok y ->
  y <> [] /\ peak y <= 0.9 /\ length y = length x.
Proof.
  intros E. destruct x as [| v x]; [discriminate |].
  destruct (Rlt_dec (peak (v :: x)) 1e-9) as [Hlt | Hge].
  - rewrite soundbank_normalize_below in E; [| discriminate | assumption].
    injection E as <-. split; [discriminate |]. split; [lra | reflexivity].
  - destruct (soundbank_normalize_above (v :: x)) as [y' [E' [P L]]]; [lra |].
    rewrite E' in E. injection E as <-.
    split; [intros ->; discriminate |]. split; [lra | assumption].
Qed.

Section SoundbankOutputs.
Context {G : BitGenerator}.
Import PyRand.

Lemma bind_inv {A B : Type} (m : M A) (k : A -> M B) (s s' : state) (b : B) :
  bind m k s = Ok (b, s') ->
  exists a s1, m s = Ok (a, s1) /\ k a s1 = Ok (b, s').
Proof.
  unfold bind. destruct (m s) as [[a s1] | e]; [| discriminate].
  intros E. exists a, s1. split; [reflexivity | assumption].
Qed.

Lemma lift_inv {A : Type} (r : result A) (s s' : state) (a : A) :
  lift r s = Ok (a, s') -> r = Ok a /\ s' = s.
Proof.
  unfold lift. destruct r; [| discriminate].
  intros [= -> ->]. split; reflexivity.
Qed.

(** Peels the binds of a generator that returned, down to its last
    step. *)
Ltac peel H :=
  repeat (apply bind_inv in H;
          let a := fresh "a" in let s := fresh "s" in let E := fresh "E" in
          destruct H as [a [s [E H]]]).

Ltac by_last_normalize H :=
  peel H; apply lift_inv in H; destruct H as [H _];
  destruct (soundbank_normalize_bound _ _ H) as [Hne [Hp _]];
  split; assumption.

Lemma soundbank_gen_background_normalised (d hum_freq : R) (s s' : state)
  (out : np.ndarray) :
  Soundbank.gen_background d hum_freq s = Ok (out, s') ->
  out <> [] /\ peak out <= 0.9.
Proof. intros H. unfold Soundbank.gen_background in H. by_last_normalize H. Qed.

Lemma soundbank_gen_beep_normalised (d freq : R) (s s' : state)
  (out : np.ndarray) :
  Soundbank.gen_beep d freq s = Ok (out, s') -> out <> [] /\ peak out <= 0.9.
Proof. intros H. unfold Soundbank.gen_beep in H. by_last_normalize H. Qed.

Lemma soundbank_gen_click_normalised (s s' : state) (out : np.ndarray) :
  Soundbank.gen_click s = Ok (out, s') -> out <> [] /\ peak out <= 0.9.
Proof. intros H. unfold Soundbank.gen_click in H. by_last_normalize H. Qed.

Lemma soundbank_gen_chime_normalised (d : R) (s s' : state)
  (out : np.ndarray) :
  Soundbank.gen_chime d s = Ok (out, s') -> out <> [] /\ peak out <= 0.9.
Proof. intros H. unfold Soundbank.gen_chime in H. by_last_normalize H. Qed.

Lemma soundbank_gen_whoosh_normalised (d : R) (s s' : state)
  (out : np.ndarray) :
  Soundbank.gen_whoosh d s = Ok (out, s') -> out <> [] /\ peak out <= 0.9.
Proof. intros H. unfold Soundbank.gen_whoosh in H. by_last_normalize H. Qed.

(** X15. Whatever a generator of the soundbank script returns is a
    non-empty buffer with peak at most 0.9: every one of them ends by
    normalising. *)
Theorem soundbank_outputs_normalised (d hum_freq freq : R) (s s' : state)
  (out : np.ndarray) :
  (Soundbank.gen_background d hum_freq s = Ok (out, s') ->
   out <> [] /\ peak out <= 0.9)
  /\ (Soundbank.gen_beep d freq s = Ok (out, s') ->
      out <> [] /\ peak out <= 0.9)
  /\ (Soundbank.gen_click s = Ok (out, s') -> out <> [] /\ peak out <= 0.9)
  /\ (Soundbank.gen_chime d s = Ok (out, s') -> out <> [] /\ peak out <= 0.9)
  /\ (Soundbank.gen_whoosh d s = Ok (out, s') ->
      out <> [] /\ peak out <= 0.9).
Proof.
  split; [apply soundbank_gen_background_normalised |].
  split; [apply soundbank_gen_beep_normalised |].
  split; [apply soundbank_gen_click_normalised |].
  split; [apply soundbank_gen_chime_normalised |].
  apply soundbank_gen_whoosh_normalised.
Qed.

End SoundbankOutputs.

Section SoundbankRuns.
Context {G : BitGenerator}.
Import PyRand.

Lemma soundbank_no_samples (d : R) :
  -1 < float_mul (IZR Soundbank.SR) d < 1 ->
  np.linspace 0 d (py_int (float_mul (IZR Soundbank.SR) d)) false = Ok [].
Proof. intros H. rewrite (py_int_small _ H). reflexivity. Qed.

Lemma soundbank_negative_samples (d : R) :
  IZR Soundbank.SR * d <= -1 ->
  np.linspace 0 d (py_int (float_mul (IZR Soundbank.SR) d)) false
  = Raise (ValueError "Number of samples must be non-negative.").
Proof.
  intros H. unfold np.linspace.
  pose proof (py_int_negative _ (round_double_le_m1 _ H)) as Hn.
  fold (float_mul (IZR Soundbank.SR) d) in Hn.
  destruct (Z.ltb_spec (py_int (float_mul (IZR Soundbank.SR) d)) 0);
    [reflexivity | lia].
Qed.

(** X16. The duration-driven generators of the soundbank script raise on
    durations without a single sample: when the computed product
    SR * duration is under one (in absolute value) the buffer is empty and
    [normalize] raises on it; at minus one sample period or less
    [np.linspace] refuses the negative count.  The computed product is
    under one whenever the exact one is at most 1 - 2^-53 in absolute
    value. *)
Theorem soundbank_generators_without_samples (d hum_freq freq : R)
  (s : state) :
  (-1 < float_mul (IZR Soundbank.SR) d < 1 ->
   let e := ValueError
     "zero-size array to reduction operation maximum which has no identity" in
   Soundbank.gen_background d hum_freq s = Raise e
   /\ Soundbank.gen_beep d freq s = Raise e
   /\ Soundbank.gen_chime d s = Raise e
   /\ Soundbank.gen_whoosh d s = Raise e)
  /\ (IZR Soundbank.SR * d <= -1 ->
      let e := ValueError "Number of samples must be non-negative." in
      Soundbank.gen_background d hum_freq s = Raise e
      /\ Soundbank.gen_beep d freq s = Raise e
      /\ Soundbank.gen_chime d s = Raise e
      /\ Soundbank.gen_whoosh d s = Raise e)
  /\ (Rabs (IZR Soundbank.SR * d) <= 1 - / IZR (2 ^ 53) ->
      -1 < float_mul (IZR Soundbank.SR) d < 1).
Proof.
  split; [| split; [| apply round_double_small]]; intros H e.
  - pose proof (soundbank_no_samples d H) as Et.
    unfold Soundbank.gen_background, Soundbank.gen_beep, Soundbank.gen_chime,
      Soundbank.gen_whoosh.
    rewrite !(bind_lift_ok _ _ _ _ Et).
    repeat split; reflexivity.
  - pose proof (soundbank_negative_samples d H) as Et.
    unfold Soundbank.gen_background, Soundbank.gen_beep, Soundbank.gen_chime,
      Soundbank.gen_whoosh, bind.
    rewrite Et. repeat split; reflexivity.
Qed.

Lemma soundbank_click_length_value :
  py_int (float_mul 0.02 (IZR Soundbank.SR)) = 320%Z.
Proof.
  unfold float_mul.
  replace (0.02 * IZR Soundbank.SR) with (IZR 320)
    by (unfold Soundbank.SR; lra).
  rewrite (round_double_exact _ (320 * 2 ^ 44) 8)
    by (try rewrite Rabs_pos_eq by lra; simpl; lra).
  apply py_int_IZR.
Qed.

Lemma soundbank_gen_click_ok (s : state) :
  exists out s', Soundbank.gen_click s = Ok (out, s') /\ len out = 320%Z.
Proof.
  unfold Soundbank.gen_click. rewrite soundbank_click_length_value.
  assert (Hn : Z.to_nat 320 = S (Z.to_nat 319)) by lia.
  rewrite Hn. set (n := Z.to_nat 319) in *.
  assert (Hx : np.zeros (S n) = 0 :: np.zeros n) by reflexivity.
  rewrite Hx.
  assert (Lx : length (1.0 :: np.zeros n) = S n)
    by (cbn [length]; f_equal; apply repeat_length).
  rewrite (bind_lift_ok _ _ s (1.0 :: np.zeros n)) by reflexivity.
  destruct (randn_ok (S n) s) as [g [s1 [Eg Lg]]].
  rewrite (bind_ok _ _ _ _ _ Eg).
  match goal with |- context [lift (np.add ?a ?b)] =>
    destruct (add_same_length a b) as [xn [Exn Lxn]];
      [rewrite length_map; congruence |]
  end.
  rewrite (bind_lift_ok _ _ _ _ Exn).
  destruct (soundbank_normalize_ok xn) as [out [Eo Lo]];
    [apply nonempty_of_length; lia |].
  rewrite (lift_ok _ _ _ Eo).
  exists out, s1. split; [reflexivity |].
  unfold len. rewrite Lo, Lxn, Lx. lia.
Qed.

Lemma emit_ok (path : string) (gen : M np.ndarray) (s s1 : state)
  (w : world) (out : np.ndarray) :
  (forall p, writable w p = true) ->
  gen s = Ok (out, s1) ->
  Soundbank.emit path gen (Soundbank.Running s w)
  = Soundbank.Running s1 (mkWorld (writable w) (files w ++ [(path, out)])).
Proof.
  intros Hw E. unfold Soundbank.emit, Soundbank.write_wav, sf_write.
  rewrite E, Hw. reflexivity.
Qed.

Lemma backgrounds_written (root : string) (d : R) (idxs : list Z)
  (s : state) (w : world) :
  (forall p, writable w p = true) ->
  1 <= IZR SyntheticNoncry.SR * d ->
  exists s' new,
    fold_left (Soundbank.background_step root d) idxs (Soundbank.Running s w)
    = Soundbank.Running s' (mkWorld (writable w) (files w ++ new))
    /\ map fst new = map (Soundbank.bg_path root) idxs
    /\ Forall normalised new.
Proof.
  intros Hw Hd. revert s w Hw.
  induction idxs as [| i rest IH]; intros s w Hw.
  - exists s, []. cbn [fold_left map flat_map]. rewrite app_nil_r.
    destruct w. split; [reflexivity |]. split; [reflexivity |].
    apply Forall_nil.
  - destruct (soundbank_gen_background_length d
                (80 + 40 * fst (rk_double s)) (snd (rk_double s)) Hd)
      as [out [s1 [E _]]].
    assert (Estep : Soundbank.background_step root d (Soundbank.Running s w) i
                    = Soundbank.Running s1
                        (mkWorld (writable w)
                           (files w ++ [(Soundbank.bg_path root i, out)]))).
    { unfold Soundbank.background_step.
      apply emit_ok; [assumption |]. rewrite bind_rand. exact E. }
    cbn [fold_left]. rewrite Estep.
    destruct (IH s1 (mkWorld (writable w)
                       (files w ++ [(Soundbank.bg_path root i, out)])))
      as [s' [new [En [Pn Fn]]]]; [intros p; apply Hw |].
    exists s', ((Soundbank.bg_path root i, out) :: new).
    rewrite En. cbn [files writable]. rewrite <- app_assoc.
    cbn [app map fst].
    split; [reflexivity |]. split; [f_equal; assumption |].
    apply Forall_cons; [| assumption].
    exact (soundbank_gen_background_normalised _ _ _ _ _ E).
Qed.

Lemma variants_written (root : string) (idxs : list Z) (s : state)
  (w : world) :
  (forall p, writable w p = true) ->
  exists s' new,
    fold_left (Soundbank.variant_step root) idxs (Soundbank.Running s w)
    = Soundbank.Running s' (mkWorld (writable w) (files w ++ new))
    /\ map fst new = flat_map (variant_paths root) idxs
    /\ Forall normalised new.
Proof.
  intros Hw. revert s w Hw.
  induction idxs as [| i rest IH]; intros s w Hw.
  - exists s, []. cbn [fold_left map flat_map]. rewrite app_nil_r.
    destruct w. split; [reflexivity |]. split; [reflexivity |].
    apply Forall_nil.
  - cbn [fold_left].
    assert (Estep : exists o1 o2 o3 o4 t4,
               Soundbank.variant_step root (Soundbank.Running s w) i
               = Soundbank.Running t4
                   (mkWorld (writable w)
                      (files w
                       ++ [(Soundbank.event_path root "beep" i, o1);
                           (Soundbank.event_path root "click" i, o2);
                           (Soundbank.event_path root "chime" i, o3);
                           (Soundbank.event_path root "whoosh" i, o4)]))
               /\ Forall normalised
                    [(Soundbank.event_path root "beep" i, o1);
                     (Soundbank.event_path root "click" i, o2);
                     (Soundbank.event_path root "chime" i, o3);
                     (Soundbank.event_path root "whoosh" i, o4)]).
    { unfold Soundbank.variant_step.
      pose proof (rk_double_range s) as Hu.
      set (s1 := snd (rk_double s)).
      destruct (soundbank_gen_beep_length (0.4 + 0.2 * fst (rk_double s))
                  (600 + 800 * fst (rk_double s1)) (snd (rk_double s1)))
        as [o1 [t1 [E1 _]]]; [unfold SyntheticNoncry.SR; lra |].
      rewrite (emit_ok _ _ s t1 w o1 Hw) by (rewrite !bind_rand; exact E1).
      set (w1 := mkWorld (writable w) _).
      assert (Hw1 : forall p, writable w1 p = true) by (intros p; apply Hw).
      destruct (soundbank_gen_click_ok t1) as [o2 [t2 [E2 _]]].
      rewrite (emit_ok _ _ t1 t2 w1 o2 Hw1 E2).
      set (w2 := mkWorld (writable w1) _).
      assert (Hw2 : forall p, writable w2 p = true) by (intros p; apply Hw).
      pose proof (rk_double_range t2) as Hu2.
      destruct (soundbank_gen_chime_length (0.8 + 0.4 * fst (rk_double t2))
                  (snd (rk_double t2)))
        as [o3 [t3 [E3 _]]]; [unfold SyntheticNoncry.SR; lra |].
      rewrite (emit_ok _ _ t2 t3 w2 o3 Hw2) by (rewrite bind_rand; exact E3).
      set (w3 := mkWorld (writable w2) _).
      assert (Hw3 : forall p, writable w3 p = true) by (intros p; apply Hw).
      pose proof (rk_double_range t3) as Hu3.
      destruct (soundbank_gen_whoosh_length (0.5 + 0.5 * fst (rk_double t3))
                  (snd (rk_double t3)))
        as [o4 [t4 [E4 _]]]; [unfold SyntheticNoncry.SR; lra |].
      rewrite (emit_ok _ _ t3 t4 w3 o4 Hw3) by (rewrite bind_rand; exact E4).
      exists o1, o2, o3, o4, t4. unfold w3, w2, w1. cbn [files writable].
      rewrite <- !app_assoc. cbn [app]. split; [reflexivity |].
      apply Forall_cons;
        [exact (soundbank_gen_beep_normalised _ _ _ _ _ E1) |].
      apply Forall_cons; [exact (soundbank_gen_click_normalised _ _ _ E2) |].
      apply Forall_cons;
        [exact (soundbank_gen_chime_normalised _ _ _ _ E3) |].
      apply Forall_cons;
        [exact (soundbank_gen_whoosh_normalised _ _ _ _ E4) |].
      apply Forall_nil. }
    destruct Estep as [o1 [o2 [o3 [o4 [t4 [Estep Fstep]]]]]].
    rewrite Estep.
    match goal with |- context [Soundbank.Running t4 ?w4] =>
      destruct (IH t4 w4) as [s' [new [En [Pn Fn]]]]; [intros p; apply Hw |]
    end.
    exists s',
      ([(Soundbank.event_path root "beep" i, o1);
        (Soundbank.event_path root "click" i, o2);
        (Soundbank.event_path root "chime" i, o3);
        (Soundbank.event_path root "whoosh" i, o4)] ++ new).
    rewrite En. cbn [files writable]. rewrite <- app_assoc.
    split; [reflexivity |].
    split; [rewrite map_app, Pn; reflexivity |].
    apply Forall_app. split; assumption.
Qed.

(** X17. With every path writable and a background duration of at least
    one sample period, [build_soundbank] runs to its end and appends
    exactly [n_backgrounds] background files followed by four files (beep,
    click, chime, whoosh) per variant index, in that order, each a
    non-empty buffer with peak at most 0.9. *)
Theorem build_soundbank_writes_every_file (root : string)
  (n_backgrounds n_variants : Z) (bg_duration : R) (s : state) (w : world) :
  (forall p, writable w p = true) ->
  1 <= IZR Soundbank.SR * bg_duration ->
  exists s' new,
    Soundbank.build_soundbank root n_backgrounds bg_duration n_variants s w
    = Soundbank.Running s' (mkWorld (writable w) (files w ++ new))
    /\ map fst new = soundbank_paths root n_backgrounds n_variants
    /\ length new
       = (Z.to_nat n_backgrounds + 4 * Z.to_nat n_variants)%nat
    /\ Forall normalised new.
Proof.
  intros Hw Hd. unfold Soundbank.build_soundbank.
  destruct (backgrounds_written root bg_duration (py_range n_backgrounds)
              s w Hw Hd) as [s1 [new1 [E1 [P1 F1]]]].
  rewrite E1.
  destruct (variants_written root (py_range n_variants) s1
              (mkWorld (writable w) (files w ++ new1)))
    as [s2 [new2 [E2 [P2 F2]]]]; [intros p; apply Hw |].
  rewrite E2. exists s2, (new1 ++ new2). cbn [files writable].
  rewrite <- app_assoc.
  split; [reflexivity |].
  assert (Hp : map fst (new1 ++ new2)
               = soundbank_paths root n_backgrounds n_variants)
    by (rewrite map_app, P1, P2; reflexivity).
  split; [assumption |]. split.
  - rewrite <- (length_map fst), Hp. unfold soundbank_paths.
    rewrite length_app, length_map.
    assert (Hf : forall l, length (flat_map (variant_paths root) l)
                           = (4 * length l)%nat).
    { induction l as [| i l IHl]; [reflexivity |].
      cbn [flat_map]. rewrite length_app, IHl.
      change (length (variant_paths root i)) with 4%nat.
      cbn [length]. lia. }
    rewrite Hf. unfold py_range. rewrite !length_map, !length_seq.
    reflexivity.
  - apply Forall_app. split; assumption.
Qed.

End SoundbankRuns.

Lemma build_soundbank_writes_every_file_witness :
  exists s' new,
    @Soundbank.build_soundbank counter_generator "bank" 1 30 1 0%nat
      (mkWorld (fun _ => true) [])
    = Soundbank.Running s' (mkWorld (fun _ => true) ([] ++ new))
    /\ map fst new
       = ["bank/backgrounds/ambience/bg_000.wav";
          "bank/events/beep/beep_000.wav";
          "bank/events/click/click_000.wav";
          "bank/events/chime/chime_000.wav";
          "bank/events/whoosh/whoosh_000.wav"]%string
    /\ length new = 5%nat
    /\ Forall normalised new.
Proof.
  apply (@build_soundbank_writes_every_file counter_generator "bank" 1 1 30
           0%nat (mkWorld (fun _ => true) [])).
  - reflexivity.
  - unfold Soundbank.SR. lra.
Defined.

(* ================================================================== *)
(** * More on the standardization loop *)
(* ================================================================== *)

Module StandardizeRuns.
Import Standardize.

Lemma exists_In (p : string) (st : state) :
  exists_ p st = true <-> In p (present st).
Proof.
  unfold exists_. rewrite existsb_exists. split.
  - intros [q [Hq E]]. apply String.eqb_eq in E. subst. assumption.
  - intros H. exists p. split; [assumption | apply String.eqb_refl].
Qed.

(** What one call of [convert] does to the state, by outcome. *)
Lemma convert_cases (E : env) (src dst bin : string) (st : state) :
  convert E src dst bin st
  = Ok (mkState (if exists_ dst st then present st else dst :: present st)
          (attempted st ++ [dst]) (printed st))
  \/ exists e, convert E src dst bin st = Raise e.
Proof.
  unfold convert. destruct (subprocess_run E _) as [[rc out] | e].
  - destruct (rc =? 0)%Z; [left; reflexivity | right; eexists; reflexivity].
  - right. eexists. reflexivity.
Qed.

Lemma convert_succeeds (E : env) (src dst bin : string) (st : state) :
  (forall cmd, exists out, subprocess_run E cmd = Ok (0%Z, out)) ->
  convert E src dst bin st
  = Ok (mkState (if exists_ dst st then present st else dst :: present st)
          (attempted st ++ [dst]) (printed st)).
Proof.
  intros H. unfold convert.
  match goal with |- context [subprocess_run E ?c] =>
    destruct (H c) as [out ->]
  end.
  reflexivity.
Qed.

Lemma present_after_success (dst p : string) (st : state) :
  (p = dst \/ In p (present st)) ->
  In p (if exists_ dst st then present st else dst :: present st).
Proof.
  intros [-> | H]; destruct (exists_ dst st) eqn:Ex.
  - apply exists_In. assumption.
  - left. reflexivity.
  - assumption.
  - right. assumption.
Qed.

Lemma loop_present_grows (E : env) (a : args) (bin : string) (idx : nat)
  (fs : list string) (st : state) (p : string) :
  In p (present st) ->
  In p (present (snd (standardize_loop E a bin idx fs st))).
Proof.
  revert idx st. induction fs as [| f rest IH]; intros idx st Hp;
    [assumption |].
  cbn [standardize_loop].
  destruct (exists_ (dst_path a idx) st && negb (overwrite a));
    [apply IH; assumption |].
  destruct (convert_cases E f (dst_path a idx) bin st) as [-> | [e ->]];
    apply IH; cbn [present after_failure];
    [apply present_after_success; right |]; assumption.
Qed.

Lemma loop_marks_present (E : env) (a : args) (bin : string) (idx : nat)
  (fs : list string) (st : state) (i : nat) :
  (forall cmd, exists out, subprocess_run E cmd = Ok (0%Z, out)) ->
  (idx <= i < idx + length fs)%nat ->
  In (dst_path a i) (present (snd (standardize_loop E a bin idx fs st))).
Proof.
  intros Hok. revert idx st. induction fs as [| f rest IH]; intros idx st Hi;
    [simpl in Hi; lia |].
  cbn [standardize_loop].
  destruct (Nat.eq_dec i idx) as [-> | Hne].
  - destruct (exists_ (dst_path a idx) st && negb (overwrite a)) eqn:Hsk.
    + apply loop_present_grows. apply exists_In.
      apply andb_prop in Hsk. tauto.
    + rewrite convert_succeeds by assumption.
      apply loop_present_grows. cbn [present].
      apply present_after_success. left. reflexivity.
  - assert (Hr : (S idx <= i < S idx + length rest)%nat)
      by (cbn [length] in Hi; lia).
    destruct (exists_ (dst_path a idx) st && negb (overwrite a));
      [apply IH; assumption |].
    rewrite convert_succeeds by assumption. apply IH. assumption.
Qed.

Lemma loop_noop (E : env) (a : args) (bin : string) (idx : nat)
  (fs : list string) (st : state) :
  overwrite a = false ->
  (forall i, (idx <= i < idx + length fs)%nat ->
             In (dst_path a i) (present st)) ->
  standardize_loop E a bin idx fs st = (Completed, st).
Proof.
  intros Ho. revert idx. induction fs as [| f rest IH]; intros idx Hall;
    [reflexivity |].
  cbn [standardize_loop].
  assert (Hex : exists_ (dst_path a idx) st = true).
  { apply exists_In. apply Hall. cbn [length]. lia. }
  rewrite Hex, Ho. cbn [negb andb].
  apply IH. intros i Hi. apply Hall. cbn [length]. lia.
Qed.

(** Attempts against files, new destinations and printed lines: a file is
    attempted at most once, and an attempt adds at most one destination
    and prints at most one line. *)
Lemma loop_accounting (E : env) (a : args) (bin : string) (idx : nat)
  (fs : list string) (st : state) :
  let st' := snd (standardize_loop E a bin idx fs st) in
  (length (attempted st) <= length (attempted st')
   /\ length (attempted st') <= length (attempted st) + length fs
   /\ length (present st') + length (attempted st)
      <= length (attempted st') + length (present st)
   /\ length (printed st) <= length (printed st')
   /\ length (printed st') + length (attempted st)
      <= length (attempted st') + length (printed st))%nat.
Proof.
  revert idx st. induction fs as [| f rest IH]; intros idx st;
    [cbn; lia |].
  cbn zeta in *. cbn [standardize_loop].
  destruct (exists_ (dst_path a idx) st && negb (overwrite a)).
  { specialize (IH (S idx) st). cbn [length]. lia. }
  destruct (convert_cases E f (dst_path a idx) bin st) as [-> | [e ->]].
  - match goal with |- context [standardize_loop _ _ _ _ _ ?s] =>
      pose proof (IH (S idx) s) as H end.
    cbn [attempted present printed] in H.
    rewrite length_app in H. cbn [length] in H.
    destruct (exists_ (dst_path a idx) st); cbn [length] in *; lia.
  - match goal with |- context [standardize_loop _ _ _ _ _ ?s] =>
      pose proof (IH (S idx) s) as H end.
    cbn [attempted present printed after_failure] in H.
    rewrite !length_app in H. cbn [length] in *. lia.
Qed.

End StandardizeRuns.

(** X18. Re-running the standardization loop without [--overwrite] after a
    run in which every conversion succeeded converts nothing: every
    destination is found present, the loop completes and leaves the state
    exactly as it was, whatever the transcoder would do this time. *)
Theorem standardize_rerun_is_noop (E E' : Standardize.env)
  (a : Standardize.args) (bin bin' : string) (idx : nat) (fs : list string)
  (st : Standardize.state) :
  (forall cmd, exists out, Standardize.subprocess_run E cmd = Ok (0%Z, out)) ->
  Standardize.overwrite a = false ->
  Standardize.standardize_loop E' a bin' idx fs
    (snd (Standardize.standardize_loop E a bin idx fs st))
  = (Completed, snd (Standardize.standardize_loop E a bin idx fs st)).
Proof.
  intros Hok Ho. apply StandardizeRuns.loop_noop; [assumption |].
  intros i Hi. apply StandardizeRuns.loop_marks_present; assumption.
Qed.

Lemma standardize_rerun_is_noop_witness :
  Standardize.standardize_loop
    (Standardize.mkEnv None (fun _ => []) (fun _ => Raise (RuntimeError "x")))
    (Standardize.mkArgs "in" "out" "noncry" false) "ffmpeg" 0
    ["a.mp3"; "b.mp3"]%string
    (snd (Standardize.standardize_loop
            (Standardize.mkEnv (Some "ffmpeg"%string) (fun _ => [])
               (fun _ => Ok (0%Z, ""%string)))
            (Standardize.mkArgs "in" "out" "noncry" false) "ffmpeg" 0
            ["a.mp3"; "b.mp3"]%string (Standardize.mkState [] [] [])))
  = (Completed,
     snd (Standardize.standardize_loop
            (Standardize.mkEnv (Some "ffmpeg"%string) (fun _ => [])
               (fun _ => Ok (0%Z, ""%string)))
            (Standardize.mkArgs "in" "out" "noncry" false) "ffmpeg" 0
            ["a.mp3"; "b.mp3"]%string (Standardize.mkState [] [] []))).
Proof.
  apply standardize_rerun_is_noop.
  - intros cmd. exists ""%string. reflexivity.
  - reflexivity.
Defined.

(** X19. Bookkeeping of the standardization loop, for any transcoder:
    destinations that were present stay present; every discovered file is
    attempted at most once; and neither the new destinations nor the
    printed warnings outnumber the attempted conversions. *)
Theorem standardize_loop_bookkeeping (E : Standardize.env)
  (a : Standardize.args) (bin : string) (idx : nat) (fs : list string)
  (st : Standardize.state) :
  let st' := snd (Standardize.standardize_loop E a bin idx fs st) in
  (forall p, In p (Standardize.present st) -> In p (Standardize.present st'))
  /\ (length (Standardize.attempted st)
      <= length (Standardize.attempted st')
      <= length (Standardize.attempted st) + length fs)%nat
  /\ (length (Standardize.present st') + length (Standardize.attempted st)
      <= length (Standardize.attempted st')
         + length (Standardize.present st))%nat
  /\ (length (Standardize.printed st) <= length (Standardize.printed st'))%nat
  /\ (length (Standardize.printed st') + length (Standardize.attempted st)
      <= length (Standardize.attempted st')
         + length (Standardize.printed st))%nat.
Proof.
  intros st'.
  pose proof (StandardizeRuns.loop_accounting E a bin idx fs st) as Hacc.
  cbv zeta in Hacc. fold st' in Hacc.
  destruct Hacc as [H1 [H2 [H3 [H4 H5]]]].
  split; [intros p; apply StandardizeRuns.loop_present_grows |].
  split; [split; assumption |].
  split; [assumption |]. split; assumption.
Qed.

Lemma substring_drop (s : string) (n m : nat) :
  (n <= String.length s)%nat -> (String.length s - n <= m)%nat ->
  exists p,
    String.length p = n
    /\ s = (p ++ substring n m s)%string
    /\ String.length (substring n m s) = (String.length s - n)%nat.
Proof.
  revert n m. induction s as [| c s IH]; intros n m Hn Hm.
  - cbn [String.length] in Hn. assert (n = 0)%nat by lia. subst.
    exists EmptyString. destruct m; repeat split; reflexivity.
  - destruct n as [| n].
    + cbn [String.length] in Hm. destruct m as [| m]; [lia |].
      destruct (IH 0%nat m) as [p [Lp [Ep Ls]]]; [lia | lia |].
      destruct p; [| discriminate].
      exists EmptyString. cbn [substring append String.length] in *.
      rewrite <- Ep. repeat split; lia.
    + cbn [String.length] in Hn, Hm.
      destruct (IH n m) as [p [Lp [Ep Ls]]]; [lia | lia |].
      exists (String c p). cbn [substring append String.length].
      rewrite <- Ep. repeat split; lia.
Qed.

Lemma last_chars_suffix (k : nat) (s : string) :
  exists p,
    s = (p ++ Standardize.last_chars k s)%string
    /\ String.length (Standardize.last_chars k s)
       = Nat.min k (String.length s).
Proof.
  unfold Standardize.last_chars.
  destruct (substring_drop s (String.length s - k) k) as [p [_ [E L]]];
    [lia | lia |].
  exists p. split; [assumption | lia].
Qed.

(** X20. When the transcoder exits with a non-zero status, [convert]
    raises a RuntimeError whose message is the tail of the captured output:
    the whole output when it has at most 400 characters, its last 400
    characters otherwise. *)
Theorem convert_error_message (E : Standardize.env) (src dst bin : string)
  (st : Standardize.state) (rc : Z) (out : string) :
  (forall cmd, Standardize.subprocess_run E cmd = Ok (rc, out)) ->
  rc <> 0%Z ->
  exists msg p,
    Standardize.convert E src dst bin st = Raise (RuntimeError msg)
    /\ out = (p ++ msg)%string
    /\ String.length msg = Nat.min 400 (String.length out).
Proof.
  intros Hrun Hrc.
  destruct (last_chars_suffix 400 out) as [p [Ep Lp]].
  exists (Standardize.last_chars 400 out), p.
  split; [| split; assumption].
  unfold Standardize.convert. rewrite Hrun.
  destruct (Z.eqb_spec rc 0); [contradiction | reflexivity].
Qed.

Lemma convert_error_message_witness :
  exists msg p,
    Standardize.convert
      (Standardize.mkEnv (Some "ffmpeg"%string) (fun _ => [])
         (fun _ => Ok (1%Z, "Invalid data found"%string)))
      "a.mp3" "out/noncry_00000.wav" "ffmpeg" (Standardize.mkState [] [] [])
    = Raise (RuntimeError msg)
    /\ "Invalid data found"%string = (p ++ msg)%string
    /\ String.length msg = Nat.min 400 (String.length "Invalid data found").
Proof.
  apply convert_error_message with (rc := 1%Z).
  - intros cmd. reflexivity.
  - discriminate.
Defined.

(* ================================================================== *)
(** * Runs without events, runs cut short *)
(* ================================================================== *)

Section CutShort.
Context {G : BitGenerator}.
Import PyRand.

(** X21. With an event count of zero or less the loop of
    [generate_mixture] does not run: the result is the normalised
    background alone, and the random stream has advanced by the draws of
    the background only. *)
Theorem generate_mixture_without_events (duration : R) (n : Z) (s : state) :
  (n <= 0)%Z ->
  generate_mixture duration (Some n) s
  = match gen_background duration s with
    | Ok (bg, s') =>
        match normalize bg default_max_amp with
        | Ok out => Ok (out, s')
        | Raise e => Raise e
        end
    | Raise e => Raise e
    end.
Proof.
  intros Hn. unfold generate_mixture, bind.
  destruct (gen_background duration s) as [[bg s'] | e]; [| reflexivity].
  unfold ret. replace (Z.to_nat n) with 0%nat by lia. reflexivity.
Qed.

Lemma batch_loop_stops (a : args) (pre post : list Z) (k : Z) (s : state)
  (w : world) :
  (min_events a <= max_events a)%Z ->
  1 <= IZR SR * duration a ->
  (forall i, In i pre -> writable w (out_path a i) = true) ->
  writable w (out_path a k) = false ->
  exists bufs,
    batch_loop a (pre ++ k :: post) s w
    = (Aborted (RuntimeError "Error opening file: System error."),
       mkWorld (writable w) (files w ++ combine (map (out_path a) pre) bufs))
    /\ length bufs = length pre.
Proof.
  intros Hm Hd. revert s w.
  induction pre as [| i pre IH]; intros s w Hpre Hk.
  - exists []. cbn [app map combine]. rewrite app_nil_r.
    destruct (next_audio_ok a s Hm Hd) as [audio [s' E]].
    rewrite (batch_loop_write_failure a k post s s' w audio E Hk).
    destruct w. split; reflexivity.
  - cbn [app]. rewrite batch_loop_step.
    destruct (next_audio_ok a s Hm Hd) as [audio [s' E]]. rewrite E.
    unfold sf_write. rewrite (Hpre i) by (left; reflexivity).
    destruct (IH s' (mkWorld (writable w)
                       (files w ++ [(out_path a i, audio)])))
      as [bufs [Eb Lb]].
    + intros j Hj. apply Hpre. right. assumption.
    + assumption.
    + exists (audio :: bufs). rewrite Eb. cbn [files writable map combine].
      rewrite <- app_assoc. split; [reflexivity | cbn [length]; lia].
Qed.

(** X22. For a valid seed and event bounds within the 64-bit integers:
    when the path of loop index k is the first one that cannot be written,
    [main] is aborted by that write error after having written exactly the
    k files of the earlier indices, in order; nothing of index k or later
    is produced. *)
Theorem main_stops_at_first_unwritable (a : args) (s0 : state) (w : world)
  (k : Z) :
  (0 <= seed_arg a < 2 ^ 32)%Z ->
  int64 (min_events a) -> int64 (max_events a) ->
  (min_events a <= max_events a)%Z ->
  1 <= IZR SR * duration a ->
  (0 <= k < num a)%Z ->
  (forall i, (0 <= i < k)%Z -> writable w (out_path a i) = true) ->
  writable w (out_path a k) = false ->
  exists bufs,
    main a s0 w
    = (Aborted (RuntimeError "Error opening file: System error."),
       mkWorld (writable w)
         (files w ++ combine (map (out_path a) (py_range k)) bufs))
    /\ length bufs = Z.to_nat k.
Proof.
  intros Hs _ _ Hm Hd Hk Hpre Hbad. rewrite main_seeded by assumption.
  assert (Hsplit : py_range (num a)
                   = py_range k ++ k :: map Z.of_nat
                                         (seq (S (Z.to_nat k))
                                            (Z.to_nat (num a) - S (Z.to_nat k)))).
  { unfold py_range.
    replace (Z.to_nat (num a))
      with (Z.to_nat k + S (Z.to_nat (num a) - S (Z.to_nat k)))%nat by lia.
    rewrite seq_app, map_app. cbn [seq map Nat.add].
    rewrite Z2Nat.id by lia.
    replace (Z.to_nat k + S (Z.to_nat (num a) - S (Z.to_nat k))
             - S (Z.to_nat k))%nat
      with (Z.to_nat (num a) - S (Z.to_nat k))%nat by lia.
    reflexivity. }
  rewrite Hsplit.
  destruct (batch_loop_stops a (py_range k)
              (map Z.of_nat
                 (seq (S (Z.to_nat k)) (Z.to_nat (num a) - S (Z.to_nat k))))
              k (rk_seed (seed_arg a)) w Hm Hd) as [bufs [E L]].
  - intros i Hi. apply Hpre. unfold py_range in Hi.
    apply in_map_iff in Hi. destruct Hi as [j [<- Hj]].
    apply in_seq in Hj. lia.
  - assumption.
  - exists bufs. split; [exact E |].
    rewrite L. unfold py_range. rewrite length_map, length_seq. reflexivity.
Qed.

End CutShort.

Lemma generate_mixture_without_events_witness :
  @generate_mixture counter_generator 7 (Some (-3)%Z) 0%nat
  = match @gen_background counter_generator 7 0%nat with
    | Ok (bg, s') =>
        match normalize bg default_max_amp with
        | Ok out => Ok (out, s')
        | Raise e => Raise e
        end
    | Raise e => Raise e
    end.
Proof.
  apply (@generate_mixture_without_events counter_generator). lia.
Defined.

Lemma main_stops_at_first_unwritable_witness :
  exists bufs,
    @main counter_generator (mkArgs "out" 3 7 0 1 4 42) 0%nat
      (mkWorld (fun p => negb (String.eqb p "out/noncry_00001.wav")) [])
    = (Aborted (RuntimeError "Error opening file: System error."),
       mkWorld (fun p => negb (String.eqb p "out/noncry_00001.wav"))
         ([] ++ combine ["out/noncry_00000.wav"%string] bufs))
    /\ length bufs = 1%nat.
Proof.
  apply (@main_stops_at_first_unwritable counter_generator
           (mkArgs "out" 3 7 0 1 4 42) 0%nat
           (mkWorld (fun p => negb (String.eqb p "out/noncry_00001.wav")) [])
           1%Z).
  - simpl. lia.
  - unfold int64. simpl. lia.
  - unfold int64. simpl. lia.
  - simpl. lia.
  - simpl. unfold SR. lra.
  - simpl. lia.
  - intros i Hi. assert (i = 0%Z) by lia. subst. reflexivity.
  - reflexivity.
Defined.

(* ================================================================== *)
(** * Instances of the conditional properties *)
(* ================================================================== *)

Lemma output_paths_distinct_witness :
  SyntheticNoncry.out_path (mkArgs "out" 3 7 0 1 4 42) 1
  <> SyntheticNoncry.out_path (mkArgs "out" 3 7 0 1 4 42) 2.
Proof.
  destruct (output_paths_distinct (mkArgs "out" 3 7 0 1 4 42)
              (Standardize.mkArgs "in" "out" "noncry" false)) as [H _].
  intros E. apply H in E. discriminate.
Defined.

Lemma generate_mixture_without_samples_witness :
  @generate_mixture counter_generator 0 None 0%nat
  = Raise (ValueError
             "zero-size array to reduction operation maximum which has no identity")
  /\ @generate_mixture counter_generator (-1) None 0%nat
     = Raise (ValueError "Number of samples must be non-negative.").
Proof.
  split.
  - destruct (@generate_mixture_without_samples counter_generator 0 None
                0%nat) as [H _].
    apply H. unfold float_mul. rewrite Rmult_0_r, round_double_0. lra.
  - destruct (@generate_mixture_without_samples counter_generator (-1) None
                0%nat) as [_ [H _]].
    apply H. unfold SR. lra.
Defined.

Lemma main_edge_arguments_witness :
  @main counter_generator (mkArgs "out" 3 7 0 1 4 (-1)) 0%nat
    (mkWorld (fun _ => true) [])
  = (Aborted (ValueError "Seed must be between 0 and 2**32 - 1"),
     mkWorld (fun _ => true) [])
  /\ @main counter_generator (mkArgs "out" 3 7 0 4 1 42) 0%nat
       (mkWorld (fun _ => true) [])
     = (Aborted (ValueError "low >= high"), mkWorld (fun _ => true) [])
  /\ @main counter_generator (mkArgs "out" 0 7 0 1 4 42) 0%nat
       (mkWorld (fun _ => true) [])
     = (Completed, mkWorld (fun _ => true) []).
Proof.
  split; [| split].
  - destruct (@main_edge_arguments counter_generator
                (mkArgs "out" 3 7 0 1 4 (-1)) 0%nat
                (mkWorld (fun _ => true) [])) as [H _].
    apply H. simpl. lia.
  - destruct (@main_edge_arguments counter_generator
                (mkArgs "out" 3 7 0 4 1 42) 0%nat
                (mkWorld (fun _ => true) [])) as [_ [H _]].
    apply H; simpl; lia.
  - destruct (@main_edge_arguments counter_generator
                (mkArgs "out" 0 7 0 1 4 42) 0%nat
                (mkWorld (fun _ => true) [])) as [_ [_ H]].
    apply H; simpl; lia.
Defined.

Lemma event_count_in_closed_interval_witness :
  exists k s',
    @Scaper.np_random_int counter_generator 1 4 0%nat = Ok (k, s')
    /\ (1 <= k <= 4)%Z.
Proof.
  destruct (@event_count_in_closed_interval counter_generator 1 4
              (mkArgs "out" 3 7 0 1 4 42) 0%nat) as [H _].
  apply H; unfold int64; lia.
Defined.

Lemma soundbank_generators_without_samples_witness :
  @Soundbank.gen_beep counter_generator 0 1000 0%nat
  = Raise (ValueError
             "zero-size array to reduction operation maximum which has no identity").
Proof.
  destruct (@soundbank_generators_without_samples counter_generator 0 120
              1000 0%nat) as [H _].
  apply H. unfold float_mul. rewrite Rmult_0_r, round_double_0. lra.
Defined.
